(** * Chimera "Raman Whisper" modem: a shallow embedding of the Python pipeline

    The development follows the layout of the repository:
    - [Py]       : the fragment of Python/NumPy semantics the code relies on
                   (exceptions, slices, ranges, integer arrays);
    - [Utils]    : [chimera/utils.py];
    - [Config]   : [chimera/config.py];
    - [Pipeline] : [chimera/pipeline.py].

    Integers are [Z]; one-dimensional integer arrays are [list Z]; a raised
    exception makes the enclosing function return [Raise e].  Floating-point
    signal processing is not evaluated: the blocks of the source that only
    transform floating-point arrays are the fields of the record [Numerics],
    and the optional third-party packages those of the record [Backends].
    The exception is the timing and carrier recovery loop, which the module
    [Recovery] embeds over primitive binary64 numbers. *)

From Stdlib Require Import ZArith List Lia Bool Ascii String QArith Qround Qabs.
From Stdlib Require Import Floats Uint63.
Import ListNotations.
Open Scope Z_scope.

(* ===================================================================== *)
(** ** Python and NumPy primitives *)
(* ===================================================================== *)

Module Py.

(** The [ValueError]s the pipeline can meet, one constructor per raise site
    (the payload replaces the formatted message). *)
Inductive value_error : Type :=
| NumBitsNotPositive                      (* "num_bits must be positive" *)
| WontFit (value num_bits : Z)            (* "Value {value} won't fit into {num_bits} bits" *)
| InvalidLiteral                          (* int() on a character that is not a digit *)
| ExpectedBitsNotMultipleOf8              (* "expected_bits must be a multiple of 8 ..." *)
| NonHexadecimal                          (* bytes.fromhex on a malformed string *)
| MessageTooLong (total_frames max_frames : Z)
                                          (* "Message too long for protocol ..." *)
| GeneratorShape (rows cols k n : Z)      (* "Generator matrix construction failed: ..." *)
| NegativeDimension                       (* numpy: negative dimensions are not allowed *)
| NegativeShift                           (* "negative shift count" *)
| EmptySequence                           (* numpy: argmin of an empty sequence *)
| ShapeMismatch.                          (* numpy: concatenate / matmul / broadcast / reshape *)

Inductive exn : Type :=
| ImportError (package : string)
| ValueError (why : value_error)
| RuntimeError (message : string)
| AttributeError (attribute : string)
| KeyError
| ZeroDivisionError
| UnicodeEncodeError
| BackendError.                           (* raised inside a third-party routine *)

Inductive result (A : Type) : Type :=
| Ok (a : A)
| Raise (e : exn).
Arguments Ok {A} a.
Arguments Raise {A} e.

Definition bind {A B : Type} (c : result A) (k : A -> result B) : result B :=
  match c with
  | Ok a => k a
  | Raise e => Raise e
  end.

Definition is_ok {A : Type} (c : result A) : bool :=
  match c with Ok _ => true | Raise _ => false end.

Definition len {A : Type} (l : list A) : Z := Z.of_nat (List.length l).

(** [range(n)] *)
Definition range (n : Z) : list Z := map Z.of_nat (seq 0 (Z.to_nat n)).

(** [np.arange(start, stop)] on integers *)
Definition arange (start stop : Z) : list Z :=
  map (fun i => start + Z.of_nat i) (seq 0 (Z.to_nat (stop - start))).

(** Slice bounds as Python normalises them: a negative bound counts from
    the end, and both are clipped to [0, len]. *)
Definition clamp_index (n i : Z) : Z :=
  if i <? 0 then Z.max 0 (i + n) else Z.min i n.

(** [l[start:stop]] *)
Definition slice {A : Type} (l : list A) (start stop : Z) : list A :=
  let s := clamp_index (len l) start in
  let e := clamp_index (len l) stop in
  firstn (Z.to_nat (e - s)) (skipn (Z.to_nat s) l).

(** [l[start:]] *)
Definition slice_from {A : Type} (l : list A) (start : Z) : list A :=
  skipn (Z.to_nat (clamp_index (len l) start)) l.

(** [l[:stop]] *)
Definition slice_to {A : Type} (l : list A) (stop : Z) : list A :=
  firstn (Z.to_nat (clamp_index (len l) stop)) l.

(** [math.ceil(a / b)] for integers [a], [b]: the quotient is taken exactly
    (the float quotient has the same ceiling for every length a machine
    can hold). *)
Definition ceil_div (a b : Z) : result Z :=
  if b =? 0 then Raise ZeroDivisionError else Ok (- ((- a) / b)).

(** [a / b] on integers, kept as an exact fraction. *)
Definition truediv (a b : Z) : result Q :=
  if b =? 0 then Raise ZeroDivisionError
  else Ok (if b <? 0 then Qmake (- a) (Z.to_pos (- b)) else Qmake a (Z.to_pos b)).

(** Conversion to [np.uint8]. *)
Definition wrap8 (x : Z) : Z := x mod 256.

(** monadic map and left-to-right iteration *)
Fixpoint mapM {A B : Type} (f : A -> result B) (l : list A) : result (list B) :=
  match l with
  | [] => Ok []
  | x :: xs =>
      match f x with
      | Raise e => Raise e
      | Ok y => match mapM f xs with
                | Raise e => Raise e
                | Ok ys => Ok (y :: ys)
                end
      end
  end.

Fixpoint foldM {A S : Type} (f : S -> A -> result S) (l : list A) (s : S) : result S :=
  match l with
  | [] => Ok s
  | x :: xs =>
      match f s x with
      | Raise e => Raise e
      | Ok s' => foldM f xs s'
      end
  end.

End Py.

Import Py.

Declare Scope py_scope.
Delimit Scope py_scope with py.
Notation "x <- c ;; k" := (Py.bind c (fun x => k))
  (at level 61, c at next level, right associativity) : py_scope.
Notation "' pat <- c ;; k" := (Py.bind c (fun x => match x with pat => k end))
  (at level 61, pat pattern, c at next level, right associativity) : py_scope.
Notation "'check' b 'else_raise' e ;; k" := (if b then k else Py.Raise e)
  (at level 61, b at next level, e at next level, right associativity) : py_scope.
Open Scope py_scope.

(* ===================================================================== *)
(** ** chimera/utils.py *)
(* ===================================================================== *)

Module Utils.

(** [bin(p)[2:]] for a positive integer, most significant digit first. *)
Fixpoint bin_pos (p : positive) : list ascii :=
  match p with
  | xH => ["1"%char]
  | xO q => bin_pos q ++ ["0"%char]
  | xI q => bin_pos q ++ ["1"%char]
  end.

Definition bin_digits (v : Z) : list ascii :=
  match v with
  | Z0 => ["0"%char]
  | Zpos p => bin_pos p
  | Zneg p => bin_pos p
  end.

(** [format(value, f"0{width}b")]: sign-aware zero padding. *)
Definition format_0b (value width : Z) : list ascii :=
  let sign := if value <? 0 then ["-"%char] else [] in
  let digits := bin_digits value in
  sign ++ repeat "0"%char (Z.to_nat (width - len sign - len digits)) ++ digits.

(** [int(c)] for a one-character string, as [np.array(chars, dtype=np.uint8)]
    applies it to every element. *)
Definition int_of_char (c : ascii) : result Z :=
  let n := Z.of_N (N_of_ascii c) in
  if (48 <=? n) && (n <=? 57) then Ok (n - 48)
  else Raise (ValueError InvalidLiteral).

Definition int_to_bitstream (value num_bits : Z) : result (list Z) :=
  check (0 <? num_bits) else_raise (ValueError NumBitsNotPositive) ;;
  check (value <? 2 ^ num_bits) else_raise (ValueError (WontFit value num_bits)) ;;
  mapM int_of_char (format_0b value num_bits).

(** [str.zfill(width)] *)
Definition zfill (s : list ascii) (width : Z) : list ascii :=
  let fill := repeat "0"%char (Z.to_nat (width - len s)) in
  match s with
  | c :: rest =>
      if (Ascii.eqb c "+"%char || Ascii.eqb c "-"%char)%bool then c :: fill ++ rest
      else fill ++ s
  | [] => fill
  end.

Definition hex_value (c : ascii) : option Z :=
  let n := Z.of_N (N_of_ascii c) in
  if (48 <=? n) && (n <=? 57) then Some (n - 48)            (* 0-9 *)
  else if (65 <=? n) && (n <=? 70) then Some (n - 55)       (* A-F *)
  else if (97 <=? n) && (n <=? 102) then Some (n - 87)      (* a-f *)
  else None.

Definition is_space (c : ascii) : bool :=
  let n := Z.of_N (N_of_ascii c) in
  (n =? 32) || ((9 <=? n) && (n <=? 13)).

(** [bytes.fromhex]: two hexadecimal digits per byte, ASCII whitespace
    allowed between bytes only. *)
Fixpoint fromhex (cs : list ascii) : result (list Z) :=
  match cs with
  | [] => Ok []
  | c :: rest =>
      if is_space c then fromhex rest
      else match rest with
           | [] => Raise (ValueError NonHexadecimal)
           | d :: rest' =>
               match hex_value c, hex_value d with
               | Some hi, Some lo =>
                   match fromhex rest' with
                   | Ok bs => Ok (16 * hi + lo :: bs)
                   | Raise e => Raise e
                   end
               | _, _ => Raise (ValueError NonHexadecimal)
               end
           end
  end.

(** One byte of [np.unpackbits]: eight bits, most significant first. *)
Definition byte_bits (b : Z) : list Z :=
  map (fun j => Z.b2z (Z.testbit b (7 - j))) (range 8).

Definition unpackbits (bytes : list Z) : list Z := flat_map byte_bits bytes.

Definition hex_to_bitstream (hex_string : string) (expected_bits : Z) : result (list Z) :=
  check (expected_bits mod 8 =? 0) else_raise (ValueError ExpectedBitsNotMultipleOf8) ;;
  let padded := zfill (list_ascii_of_string hex_string) (expected_bits / 4) in
  raw <- fromhex padded ;;
  Ok (unpackbits raw).

(** A Python [str] is a sequence of code points; [str.encode("utf-8")]
    refuses lone surrogates. *)
Definition utf8_encode_char (cp : Z) : result (list Z) :=
  if cp <? 128 then Ok [cp]
  else if cp <? 2048 then Ok [192 + cp / 64; 128 + cp mod 64]
  else if (55296 <=? cp) && (cp <=? 57343) then Raise UnicodeEncodeError
  else if cp <? 65536 then
    Ok [224 + cp / 4096; 128 + (cp / 64) mod 64; 128 + cp mod 64]
  else
    Ok [240 + cp / 262144; 128 + (cp / 4096) mod 64; 128 + (cp / 64) mod 64; 128 + cp mod 64].

Definition utf8_encode (text : list Z) : result (list Z) :=
  chunks <- mapM utf8_encode_char text ;;
  Ok (List.concat chunks).

Definition string_to_bitstream (text : list Z) : result (list Z) :=
  raw <- utf8_encode text ;;
  Ok (unpackbits raw).

(** [np.packbits]: groups of eight, most significant first, the last group
    padded with zeros; any non-zero entry counts as a one. *)
Fixpoint pack_byte (width : nat) (bits : list Z) : Z :=
  match width with
  | O => 0
  | S w =>
      match bits with
      | [] => 0
      | b :: rest => (if b =? 0 then 0 else 2 ^ Z.of_nat w) + pack_byte w rest
      end
  end.

Fixpoint packbits_fuel (fuel : nat) (bits : list Z) : list Z :=
  match fuel with
  | O => []
  | S f =>
      match bits with
      | [] => []
      | _ => pack_byte 8 bits :: packbits_fuel f (skipn 8 bits)
      end
  end.

Definition packbits (bits : list Z) : list Z := packbits_fuel (List.length bits) bits.

(** [LogCollector]: the list of entries is the state; [emit] appends
    ([print] has no effect on the result). *)
Definition emit {entry : Type} (logger : list entry) (message : entry) : list entry :=
  logger ++ [message].

(** [range(0, stop, step)] for a positive step: the multiples of [step]
    below [stop]. *)
Definition range_step (stop step : Z) : list Z :=
  map (fun i => Z.of_nat i * step) (seq 0 (Z.to_nat ((stop + step - 1) / step))).

Inductive chunk_error : Type :=
| ChunkSizeNotPositive.                   (* "chunk_size must be positive" *)

Definition chunk_array {A : Type} (array : list A) (chunk_size : Z)
  : list (list A) + chunk_error :=
  if chunk_size <=? 0 then inr ChunkSizeNotPositive
  else inl (map (fun i => slice array i (i + chunk_size))
                (range_step (len array) chunk_size)).

End Utils.

(* ===================================================================== *)
(** ** chimera/config.py *)
(* ===================================================================== *)

Module Config.

(** A Python [str] literal made of ASCII characters, as code points. *)
Definition str (s : string) : list Z :=
  map (fun c => Z.of_N (N_of_ascii c)) (list_ascii_of_string s).

Record FrameLayout : Type := {
  total_symbols : Z;
  sync_symbols : Z;
  target_id_symbols : Z;
  command_type_symbols : Z;
  data_payload_symbols : Z;
  ecc_symbols : Z
}.

Definition default_FrameLayout : FrameLayout := {|
  total_symbols := 128;
  sync_symbols := 16;
  target_id_symbols := 16;
  command_type_symbols := 16;
  data_payload_symbols := 64;
  ecc_symbols := 16
|}.

Definition message_bits (l : FrameLayout) : Z := data_payload_symbols l * 2.
Definition ecc_bits (l : FrameLayout) : Z := ecc_symbols l * 2.
Definition codeword_bits (l : FrameLayout) : Z := message_bits l + ecc_bits l.
Definition frame_bits (l : FrameLayout) : Z := total_symbols l * 2.

(** Floating-point configuration constants are kept as exact rationals. *)
Record ProtocolConfig : Type := {
  carrier_freq_hz : Q;
  qpsk_symbol_rate : Z;
  qpsk_bandwidth_hz : Q;
  fsk_bit_rate : Q;
  fsk_freq_zero_hz : Q;
  fsk_freq_one_hz : Q;
  command_opcode : Z;
  frame_layout : FrameLayout;
  sync_sequence_hex : string;
  target_id_hex : string;
  max_frames : Z;
  current_frame_shift : Z;
  total_frames_shift : Z
}.

Definition default_ProtocolConfig : ProtocolConfig := {|
  carrier_freq_hz := 12000 # 1;
  qpsk_symbol_rate := 16;
  qpsk_bandwidth_hz := 20 # 1;
  fsk_bit_rate := 1 # 1;
  fsk_freq_zero_hz := 11999 # 1;
  fsk_freq_one_hz := 12001 # 1;
  command_opcode := 1;
  frame_layout := default_FrameLayout;
  sync_sequence_hex := "A5A5A5A5";
  target_id_hex := "DEADBEEF";
  max_frames := 256;
  current_frame_shift := 16;
  total_frames_shift := 24
|}.

Definition fsk_freq_deviation_hz (p : ProtocolConfig) : Q :=
  (fsk_freq_one_hz p - carrier_freq_hz p)%Q.

Record LDPCConfig : Type := {
  dv : Z;
  dc : Z;
  seed : option Z
}.

Definition default_LDPCConfig : LDPCConfig := {| dv := 2; dc := 10; seed := Some 42 |}.

Record SimulationConfig : Type := {
  sample_rate : Z;
  bit_depth : string;
  snr_db : Q;
  plaintext_source : list Z;
  rng_seed : option Z
}.

Definition default_SimulationConfig : SimulationConfig := {|
  sample_rate := 48000;
  bit_depth := "FLOAT";
  snr_db := 3 # 1;
  plaintext_source := str
    ("This is a longer message demonstrating the protocol-compliant, rate-4/5 LDPC error "
     ++ "correction. This signal simulates reception through a physically accurate AWGN channel "
     ++ "where noise is added post-modulation. The decoder will now attempt to recover this exact "
     ++ "message.");
  rng_seed := None
|}.

(** Attribute access on a [SimulationConfig] instance.  The dataclass
    declares exactly five fields and neither properties nor methods, so
    any other name raises [AttributeError]. *)
Inductive attr_value : Type :=
| AInt (z : Z)
| AFloat (q : Q)
| AStr (s : list Z)
| AOptInt (o : option Z).

Definition SimulationConfig_attrs (c : SimulationConfig) : list (string * attr_value) :=
  [ ("sample_rate"%string, AInt (sample_rate c));
    ("bit_depth"%string, AStr (str (bit_depth c)));
    ("snr_db"%string, AFloat (snr_db c));
    ("plaintext_source"%string, AStr (plaintext_source c));
    ("rng_seed"%string, AOptInt (rng_seed c)) ].

Fixpoint lookup_attr (attrs : list (string * attr_value)) (name : string)
  : option attr_value :=
  match attrs with
  | [] => None
  | (n, v) :: rest => if String.eqb n name then Some v else lookup_attr rest name
  end.

Definition getattr (c : SimulationConfig) (name : string) : result attr_value :=
  match lookup_attr (SimulationConfig_attrs c) name with
  | Some v => Ok v
  | None => Raise (AttributeError name)
  end.

(** Truth value of an attribute, as [if plot:] tests it. *)
Definition truthy (v : attr_value) : bool :=
  match v with
  | AInt z => negb (z =? 0)
  | AFloat q => negb (Qeq_bool q 0)
  | AStr s => negb (len s =? 0)
  | AOptInt None => false
  | AOptInt (Some z) => negb (z =? 0)
  end.

End Config.

(* ===================================================================== *)
(** ** Two-dimensional integer arrays *)
(* ===================================================================== *)

Module NdArray.

(** A matrix carries its shape, as [ndarray.shape] does: a matrix with no
    row still has a number of columns. *)
Record t : Type := {
  nrows : nat;
  ncols : nat;
  rows : list (list Z)
}.

Definition shape (M : t) : Z * Z := (Z.of_nat (nrows M), Z.of_nat (ncols M)).

(** [M[:, :k]] *)
Definition take_cols (k : Z) (M : t) : t := {|
  nrows := nrows M;
  ncols := Z.to_nat (clamp_index (Z.of_nat (ncols M)) k);
  rows := map (fun r => slice_to r k) (rows M)
|}.

(** [M.T] *)
Definition transpose (M : t) : t := {|
  nrows := ncols M;
  ncols := nrows M;
  rows := map (fun j => map (fun r => nth j r 0) (rows M)) (seq 0 (ncols M))
|}.

(** [np.identity(k, dtype=int)] *)
Definition identity (k : Z) : result t :=
  check (0 <=? k) else_raise (ValueError NegativeDimension) ;;
  let n := Z.to_nat k in
  Ok {| nrows := n;
        ncols := n;
        rows := map (fun i => map (fun j => if Nat.eqb i j then 1 else 0) (seq 0 n))
                    (seq 0 n) |}.

(** [np.concatenate((A, B), axis=1)] *)
Definition hconcat (A B : t) : result t :=
  check (Nat.eqb (nrows A) (nrows B)) else_raise (ValueError ShapeMismatch) ;;
  Ok {| nrows := nrows A;
        ncols := (ncols A + ncols B)%nat;
        rows := map (fun rr => fst rr ++ snd rr) (combine (rows A) (rows B)) |}.

Definition map_entries (f : Z -> Z) (M : t) : t := {|
  nrows := nrows M;
  ncols := ncols M;
  rows := map (map f) (rows M)
|}.

(** [M % 2] *)
Definition mod2 (M : t) : t := map_entries (fun x => x mod 2) M.

(** [M.astype(np.uint8)] *)
Definition astype_uint8 (M : t) : t := map_entries wrap8 M.

Definition column (M : t) (j : nat) : list Z := map (fun r => nth j r 0) (rows M).

(** Inner product of two [uint8] vectors: every product and every partial
    sum wraps modulo 256. *)
Definition dot_uint8 (v w : list Z) : Z :=
  fold_left (fun acc ab => wrap8 (acc + wrap8 (fst ab * snd ab))) (combine v w) 0.

(** [v @ M] for a vector [v] and a matrix [M], both [uint8]. *)
Definition vecmat_uint8 (v : list Z) (M : t) : result (list Z) :=
  check (Nat.eqb (List.length v) (nrows M)) else_raise (ValueError ShapeMismatch) ;;
  Ok (map (fun j => dot_uint8 v (column M j)) (seq 0 (ncols M))).

(** Exact integer product [A · Bᵀ], used to state orthogonality. *)
Definition dot (v w : list Z) : Z :=
  fold_left (fun acc ab => acc + fst ab * snd ab) (combine v w) 0.

Definition mul_transpose (A B : t) : list (list Z) :=
  map (fun a => map (fun b => dot a b) (rows B)) (rows A).

End NdArray.

(* ===================================================================== *)
(** ** chimera/pipeline.py: matrices and frame assembly *)
(* ===================================================================== *)

Module LDPCMatrices.
Record t : Type := {
  H : NdArray.t;
  G : NdArray.t;
  message_bits : Z;
  codeword_bits : Z
}.
End LDPCMatrices.

(** The optional third-party packages.  [None] stands for a failed import;
    a routine that is present may still raise. *)
Record Backends : Type := {
  (** [pyldpc.make_ldpc(n, d_v, d_c, systematic=True, seed=seed)], first component *)
  make_ldpc : option (Z -> Z -> Z -> option Z -> result NdArray.t);
  (** [pyldpc.decode(H, y, snr)] *)
  ldpc_decode : option (NdArray.t -> list Z -> Q -> result (list Z));
  (** [scipy.signal] ([butter], [filtfilt], [lfilter]) *)
  scipy_signal : bool
}.

(** Log lines, one constructor per [logger.emit] site; numbers that the
    message formats are kept, floating-point ones are dropped. *)
Inductive log_entry : Type :=
| LogSourceLength (characters bits : Z)
| LogPayloadFrames (total_frames : Z)
| LogTxFrame (frame_number total_frames command : Z) (payload ecc : list Z)
| LogDuration (num_samples : Z)
| LogChannel
| LogModulationComplete
| LogRecovery
| LogPreFec (errors : Z)
| LogRxFrame (frame_number num_frames : Z) (payload ecc corrected : list Z)
| LogPostFec (errors : Z).

(** Angles are kept exactly, as rational multiples of [π]: the angle
    [q · π] is the rational [q]. *)
Definition angle : Type := Q.

(** The floating-point kernels, which the embedding does not evaluate.
    Each one stands for a block of consecutive lines of the source and may
    raise. *)
Record Numerics : Type := {
  signal : Type;                      (* real sample arrays *)
  generator : Type;                   (* [np.random.Generator] *)
  timing : Type;                      (* sample counts, duration and FSK track *)
  diagnostics : Type;                 (* [DemodulationDiagnostics] *)
  (** [generate_modulated_signal], from [layout = ...] to [base_freq = ...] *)
  plan_signal : Config.SimulationConfig -> Config.ProtocolConfig -> Z -> list Z
                -> result timing;
  num_samples_of : timing -> Z;
  (** [generate_modulated_signal], from [phase_qpsk_raw = ...] to
      [noisy_signal = ...]; returns the clean and the noisy signal *)
  synthesize : Config.SimulationConfig -> Config.ProtocolConfig -> timing
               -> list angle -> option generator -> result (signal * signal);
  (** [demodulate_and_decode], from [noisy_signal = ...] to
      [received_phases = np.angle(received_symbols)] *)
  receive : signal -> Config.SimulationConfig -> Config.ProtocolConfig
            -> result (list angle * diagnostics);
  (** [bytes.decode("utf-8", "ignore")] *)
  decode_utf8_ignore : list Z -> list Z
}.

Module EncodingResult.
Record t (num : Numerics) : Type := {
  noisy_signal : signal num;
  clean_signal : signal num;
  qpsk_bitstream : list Z;
  payload_bits : list Z;
  qpsk_phase_map : list angle;
  total_frames : Z;
  duration_and_samples : timing num;
  logs : list log_entry
}.
Arguments noisy_signal {num} _.
Arguments clean_signal {num} _.
Arguments qpsk_bitstream {num} _.
Arguments payload_bits {num} _.
Arguments qpsk_phase_map {num} _.
Arguments total_frames {num} _.
Arguments duration_and_samples {num} _.
Arguments logs {num} _.
End EncodingResult.

Module DemodulationResult.
Record t (num : Numerics) : Type := {
  demodulated_bitstream : list Z;
  decoded_bitstream : list Z;
  recovered_message : list Z;
  pre_fec_errors : Z;
  pre_fec_ber : Q;
  post_fec_errors : Z;
  post_fec_ber : Q;
  diagnostics : diagnostics num;
  logs : list log_entry
}.
Arguments demodulated_bitstream {num} _.
Arguments decoded_bitstream {num} _.
Arguments recovered_message {num} _.
Arguments pre_fec_errors {num} _.
Arguments pre_fec_ber {num} _.
Arguments post_fec_errors {num} _.
Arguments post_fec_ber {num} _.
Arguments diagnostics {num} _.
Arguments logs {num} _.
End DemodulationResult.

Module SimulationResult.
Record t (num : Numerics) : Type := {
  encoding : EncodingResult.t num;
  demodulation : DemodulationResult.t num;
  matrices : LDPCMatrices.t;
  logs : list log_entry
}.
Arguments encoding {num} _.
Arguments demodulation {num} _.
Arguments matrices {num} _.
Arguments logs {num} _.
End SimulationResult.

Module Pipeline.

Import Config.

Definition create_ldpc_matrices (env : Backends) (protocol : ProtocolConfig)
           (config : LDPCConfig) : result LDPCMatrices.t :=
  match make_ldpc env with
  | None => Raise (ImportError "pyldpc")
  | Some make =>
      let layout := frame_layout protocol in
      let k_message_bits := message_bits layout in
      let n_codeword_bits := codeword_bits layout in
      H <- make n_codeword_bits (dv config) (dc config) (seed config) ;;
      let P := NdArray.transpose (NdArray.take_cols k_message_bits H) in
      I_k <- NdArray.identity k_message_bits ;;
      GI <- NdArray.hconcat I_k P ;;
      let G := NdArray.mod2 GI in
      let '(r, c) := NdArray.shape G in
      check ((r =? k_message_bits) && (c =? n_codeword_bits))
        else_raise (ValueError (GeneratorShape r c k_message_bits n_codeword_bits)) ;;
      Ok {| LDPCMatrices.H := NdArray.astype_uint8 H;
            LDPCMatrices.G := NdArray.astype_uint8 G;
            LDPCMatrices.message_bits := k_message_bits;
            LDPCMatrices.codeword_bits := n_codeword_bits |}
  end.

(** [a << n]; a negative shift count is a [ValueError]. *)
Definition shl (a n : Z) : result Z :=
  check (0 <=? n) else_raise (ValueError NegativeShift) ;;
  Ok (Z.shiftl a n).

(** [bits_to_str(bits)] with its default limit: the first 32 entries. *)
Definition bits_to_str (bits : list Z) : list Z := slice_to bits 32.

(** [np.pad(chunk, (0, n))] *)
Definition pad_right (chunk : list Z) (n : Z) : list Z := chunk ++ repeat 0 (Z.to_nat n).

(** [(chunk @ G % 2).astype(np.uint8)] *)
Definition encode (message_chunk : list Z) (G : NdArray.t) : result (list Z) :=
  product <- NdArray.vecmat_uint8 message_chunk G ;;
  Ok (map (fun x => wrap8 (x mod 2)) product).

(** The body of the [for frame_idx in range(total_frames)] loop; the state
    is the list of frames built so far and the logger. *)
Definition frame_body (payload_bits : list Z) (protocol : ProtocolConfig)
           (matrices : LDPCMatrices.t) (total_frames : Z)
           (sync_bits target_id_bits : list Z)
           (state : list (list Z) * list log_entry) (frame_idx : Z)
  : result (list (list Z) * list log_entry) :=
  let '(frames, logger) := state in
  let layout := frame_layout protocol in
  let k := LDPCMatrices.message_bits matrices in
  cur <- shl frame_idx (current_frame_shift protocol) ;;
  tot <- shl total_frames (total_frames_shift protocol) ;;
  let command_type := Z.lor (Z.lor (command_opcode protocol) cur) tot in
  command_bits <- Utils.int_to_bitstream command_type (command_type_symbols layout * 2) ;;
  let start := frame_idx * k in
  let stop := (frame_idx + 1) * k in
  let message_chunk := slice payload_bits start stop in
  let message_chunk :=
    if len message_chunk <? k then pad_right message_chunk (k - len message_chunk)
    else message_chunk in
  codeword <- encode message_chunk (LDPCMatrices.G matrices) ;;
  let payload := slice_to codeword k in
  let ecc := slice_from codeword k in
  let logger :=
    if frame_idx <? 3
    then Utils.emit logger
           (LogTxFrame (frame_idx + 1) total_frames command_type
                       (bits_to_str payload) (bits_to_str ecc))
    else logger in
  let frame_bits := sync_bits ++ target_id_bits ++ command_bits ++ payload ++ ecc in
  Ok (frames ++ [frame_bits], logger).

Definition build_full_bitstream (payload_bits : list Z) (protocol : ProtocolConfig)
           (matrices : LDPCMatrices.t) (logger : option (list log_entry))
  : result (list Z * Z * list log_entry) :=
  let logger := match logger with None => [] | Some entries => entries end in
  let layout := frame_layout protocol in
  total_frames <-
    (if len payload_bits =? 0 then Ok 1
     else ceil_div (len payload_bits) (LDPCMatrices.message_bits matrices)) ;;
  check (negb (max_frames protocol <? total_frames))
    else_raise (ValueError (MessageTooLong total_frames (max_frames protocol))) ;;
  let logger := Utils.emit logger (LogPayloadFrames total_frames) in
  sync_bits <- Utils.hex_to_bitstream (sync_sequence_hex protocol) (sync_symbols layout * 2) ;;
  target_id_bits <-
    Utils.hex_to_bitstream (target_id_hex protocol) (target_id_symbols layout * 2) ;;
  '(frames, logger) <-
    foldM (frame_body payload_bits protocol matrices total_frames sync_bits target_id_bits)
          (range total_frames) ([], logger) ;;
  Ok (List.concat frames, total_frames, logger).

(* ------------------------------------------------------------------- *)
(** *** QPSK mapping and phase slicing *)

(** [np.angle(np.exp(1j * x))]: the representative of [x] in [(-π, π]]. *)
Definition wrap_angle (x : angle) : angle :=
  let r := (x - inject_Z (2 * Qfloor (x / 2)))%Q in
  if Qle_bool r 1 then r else (r - 2)%Q.

(** [np.argmin]: the first index holding the least value. *)
Fixpoint argmin_from (best_idx : Z) (best : Q) (idx : Z) (l : list Q) : Z :=
  match l with
  | [] => best_idx
  | x :: xs =>
      if negb (Qle_bool best x) then argmin_from idx x (idx + 1) xs
      else argmin_from best_idx best (idx + 1) xs
  end.

Definition argmin (l : list Q) : result Z :=
  match l with
  | [] => Raise (ValueError EmptySequence)
  | x :: xs => Ok (argmin_from 0 x 1 xs)
  end.

(** The dictionary [qpsk_symbol_map] of [generate_modulated_signal]. *)
Definition qpsk_symbol_map (pair : Z * Z) : result Z :=
  match pair with
  | (0, 0) => Ok 0
  | (0, 1) => Ok 1
  | (1, 1) => Ok 2
  | (1, 0) => Ok 3
  | _ => Raise KeyError
  end.

(** [(np.array([1, 0, 2, 3]) * np.pi / 2) + (np.pi / 4)] *)
Definition qpsk_phase_map : list angle :=
  map (fun m => (inject_Z m * (1 # 2) + (1 # 4))%Q) [1; 0; 2; 3].

(** The dictionary [qpsk_reverse_bit_map] of [demodulate_and_decode]. *)
Definition qpsk_reverse_bit_map (symbol_index : Z) : result (list Z) :=
  match symbol_index with
  | 0 => Ok [0; 1]
  | 1 => Ok [0; 0]
  | 2 => Ok [1; 1]
  | 3 => Ok [1; 0]
  | _ => Raise KeyError
  end.

(** [bits.reshape(-1, 2)] *)
Fixpoint reshape_pairs (bits : list Z) : result (list (Z * Z)) :=
  match bits with
  | [] => Ok []
  | [_] => Raise (ValueError ShapeMismatch)
  | a :: b :: rest =>
      match reshape_pairs rest with
      | Ok ps => Ok ((a, b) :: ps)
      | Raise e => Raise e
      end
  end.

(** [qpsk_phase_map[symbol]] for a symbol produced by [qpsk_symbol_map]. *)
Definition phase_of_symbol (phase_map : list angle) (symbol : Z) : angle :=
  nth (Z.to_nat symbol) phase_map 0%Q.

(** One turn of the slicing loop: the decision for one received phase. *)
Definition slice_phase (phase_map : list angle) (phase : angle) : result (list Z) :=
  let phase_diff := map (fun m => wrap_angle (phase - m)%Q) phase_map in
  symbol_index <- argmin (map Qabs phase_diff) ;;
  qpsk_reverse_bit_map symbol_index.

(* ------------------------------------------------------------------- *)
(** *** Matched filter support *)

(** The sample positions [np.arange(-num_taps // 2, num_taps // 2 + 1)] on
    which the root-raised-cosine taps are evaluated (one tap each). *)
Definition rrc_tap_positions (num_taps : Z) : list Z :=
  arange ((- num_taps) / 2) (num_taps / 2 + 1).

Definition num_taps : Z := 101.

(* ------------------------------------------------------------------- *)
(** *** Frame synchronisation *)

(** [np.array_equal] on one-dimensional arrays. *)
Fixpoint array_equal (a b : list Z) : bool :=
  match a, b with
  | [], [] => true
  | x :: a', y :: b' => (x =? y) && array_equal a' b'
  | _, _ => false
  end.

(** The search loop: the first index of [indices] at which the window
    equals [sync_bits], or [-1]. *)
Fixpoint first_sync (stream sync_bits : list Z) (indices : list Z) : Z :=
  match indices with
  | [] => -1
  | idx :: rest =>
      if array_equal (slice stream idx (idx + len sync_bits)) sync_bits then idx
      else first_sync stream sync_bits rest
  end.

Definition find_sync (demodulated_bitstream sync_bits : list Z) : result Z :=
  let limit := len demodulated_bitstream - len sync_bits in
  let sync_location := first_sync demodulated_bitstream sync_bits (range (Z.max limit 0)) in
  check (negb (sync_location =? -1))
    else_raise (RuntimeError "Frame sync sequence not found. Decoding failed.") ;;
  Ok sync_location.

(** [int(np.sum(a != b))]: elementwise on equal shapes, broadcast of a
    one-element array, an error on any other pair of shapes. *)
Definition count_ne (a b : list Z) : result Z :=
  let count := fun (l : list (Z * Z)) =>
    len (filter (fun xy => negb (fst xy =? snd xy)) l) in
  if Nat.eqb (List.length a) (List.length b) then Ok (count (combine a b))
  else match a, b with
       | [x], _ => Ok (count (map (fun y => (x, y)) b))
       | _, [y] => Ok (count (map (fun x => (x, y)) a))
       | _, _ => Raise (ValueError ShapeMismatch)
       end.

(** [s.rstrip("\x00")] *)
Fixpoint lstrip_nul (s : list Z) : list Z :=
  match s with
  | 0 :: rest => lstrip_nul rest
  | _ => s
  end.

Definition rstrip_nul (s : list Z) : list Z := rev (lstrip_nul (rev s)).

(* ------------------------------------------------------------------- *)
(** *** The three stages *)

Section Stages.

Variable env : Backends.
Variable num : Numerics.

Definition _ensure_signal_backend : result unit :=
  check (scipy_signal env) else_raise (ImportError "scipy") ;;
  Ok tt.

Definition generate_modulated_signal (sim_config : SimulationConfig)
           (protocol : ProtocolConfig) (matrices : LDPCMatrices.t)
           (plaintext : option (list Z)) (rng : option (generator num))
  : result (EncodingResult.t num) :=
  _ <- _ensure_signal_backend ;;
  let logger : list log_entry := [] in
  let plaintext :=
    match plaintext with None => plaintext_source sim_config | Some text => text end in
  payload_bits <- Utils.string_to_bitstream plaintext ;;
  let logger := Utils.emit logger (LogSourceLength (len plaintext) (len payload_bits)) in
  '(qpsk_bitstream, total_frames, logger) <-
    build_full_bitstream payload_bits protocol matrices (Some logger) ;;
  plan <- plan_signal num sim_config protocol total_frames payload_bits ;;
  let logger := Utils.emit logger (LogDuration (num_samples_of num plan)) in
  qpsk_pairs <- reshape_pairs qpsk_bitstream ;;
  qpsk_symbols <- mapM qpsk_symbol_map qpsk_pairs ;;
  let qpsk_phases := map (phase_of_symbol qpsk_phase_map) qpsk_symbols in
  let logger_after := Utils.emit (Utils.emit logger LogChannel) LogModulationComplete in
  '(clean_signal, noisy_signal) <- synthesize num sim_config protocol plan qpsk_phases rng ;;
  Ok {| EncodingResult.noisy_signal := noisy_signal;
        EncodingResult.clean_signal := clean_signal;
        EncodingResult.qpsk_bitstream := qpsk_bitstream;
        EncodingResult.payload_bits := payload_bits;
        EncodingResult.qpsk_phase_map := qpsk_phase_map;
        EncodingResult.total_frames := total_frames;
        EncodingResult.duration_and_samples := plan;
        EncodingResult.logs := logger_after |}.

(** The body of the per-frame decoding loop; the state is the list of
    decoded bits and the logger. *)
Definition decode_body
           (decode : NdArray.t -> list Z -> Q -> result (list Z))
           (aligned_bitstream : list Z) (frame_size_bits num_frames : Z)
           (matrices : LDPCMatrices.t) (sim_config : SimulationConfig)
           (protocol : ProtocolConfig)
           (state : list Z * list log_entry) (frame_idx : Z)
  : result (list Z * list log_entry) :=
  let '(decoded_payload_bits, logger) := state in
  let layout := frame_layout protocol in
  let start := frame_idx * frame_size_bits in
  let stop := (frame_idx + 1) * frame_size_bits in
  let frame := slice aligned_bitstream start stop in
  let payload_start :=
    (sync_symbols layout + target_id_symbols layout + command_type_symbols layout) * 2 in
  let payload_end := payload_start + LDPCMatrices.codeword_bits matrices in
  if len frame <? payload_end then Ok state
  else
    let noisy_codeword := slice frame payload_start payload_end in
    decoded_message <- decode (LDPCMatrices.H matrices) noisy_codeword (snr_db sim_config) ;;
    let logger :=
      if frame_idx <? 3
      then
        let payload := slice_to noisy_codeword (LDPCMatrices.message_bits matrices) in
        let ecc := slice_from noisy_codeword (LDPCMatrices.message_bits matrices) in
        Utils.emit logger
          (LogRxFrame (frame_idx + 1) num_frames (bits_to_str payload) (bits_to_str ecc)
                      (bits_to_str decoded_message))
      else logger in
    Ok (decoded_payload_bits ++ decoded_message, logger).

Definition demodulate_and_decode (encoding : EncodingResult.t num)
           (matrices : LDPCMatrices.t) (sim_config : SimulationConfig)
           (protocol : ProtocolConfig) (plot : bool)
  : result (DemodulationResult.t num) :=
  match ldpc_decode env with
  | None => Raise (ImportError "pyldpc")
  | Some decode =>
      _ <- _ensure_signal_backend ;;
      let logger : list log_entry := [] in
      '(received_phases, diag) <-
        receive num (EncodingResult.noisy_signal encoding) sim_config protocol ;;
      let logger := Utils.emit logger LogRecovery in
      (* [plot_demodulator_diagnostics] only prints *)
      decisions <- mapM (slice_phase (EncodingResult.qpsk_phase_map encoding))
                        received_phases ;;
      let demodulated_bitstream := List.concat decisions in
      let sent := EncodingResult.qpsk_bitstream encoding in
      let demodulated_bitstream :=
        if len demodulated_bitstream <? len sent
        then pad_right demodulated_bitstream (len sent - len demodulated_bitstream)
        else slice_to demodulated_bitstream (len sent) in
      pre_fec_errors <- count_ne sent demodulated_bitstream ;;
      pre_fec_ber <- truediv pre_fec_errors (len sent) ;;
      let logger := Utils.emit logger (LogPreFec pre_fec_errors) in
      sync_bits <- Utils.hex_to_bitstream (sync_sequence_hex protocol)
                                          (sync_symbols (frame_layout protocol) * 2) ;;
      let frame_size_bits := frame_bits (frame_layout protocol) in
      sync_location <- find_sync demodulated_bitstream sync_bits ;;
      let aligned_bitstream := slice_from demodulated_bitstream sync_location in
      check (negb (frame_size_bits =? 0)) else_raise ZeroDivisionError ;;
      let num_frames := len aligned_bitstream / frame_size_bits in
      '(decoded_payload_bits, logger) <-
        foldM (decode_body decode aligned_bitstream frame_size_bits num_frames
                           matrices sim_config protocol)
              (range num_frames) ([], logger) ;;
      let decoded_bitstream := map wrap8 decoded_payload_bits in
      let payload_bits := EncodingResult.payload_bits encoding in
      let trimmed_decoded := slice_to decoded_bitstream (len payload_bits) in
      post_fec_errors <- count_ne payload_bits trimmed_decoded ;;
      post_fec_ber <- truediv post_fec_errors (len payload_bits) ;;
      let logger := Utils.emit logger (LogPostFec post_fec_errors) in
      let recovered_bytes := Utils.packbits trimmed_decoded in
      let recovered_message := rstrip_nul (decode_utf8_ignore num recovered_bytes) in
      Ok {| DemodulationResult.demodulated_bitstream := demodulated_bitstream;
            DemodulationResult.decoded_bitstream := trimmed_decoded;
            DemodulationResult.recovered_message := recovered_message;
            DemodulationResult.pre_fec_errors := pre_fec_errors;
            DemodulationResult.pre_fec_ber := pre_fec_ber;
            DemodulationResult.post_fec_errors := post_fec_errors;
            DemodulationResult.post_fec_ber := post_fec_ber;
            DemodulationResult.diagnostics := diag;
            DemodulationResult.logs := logger |}
  end.

Definition run_simulation (sim_config : option SimulationConfig)
           (protocol : option ProtocolConfig) (ldpc_config : option LDPCConfig)
           (plaintext : option (list Z)) (rng : option (generator num))
  : result (SimulationResult.t num) :=
  let sim_config :=
    match sim_config with Some c => c | None => default_SimulationConfig end in
  let protocol :=
    match protocol with Some c => c | None => default_ProtocolConfig end in
  let ldpc_config :=
    match ldpc_config with Some c => c | None => default_LDPCConfig end in
  matrices <- create_ldpc_matrices env protocol ldpc_config ;;
  encoding <- generate_modulated_signal sim_config protocol matrices plaintext rng ;;
  plot <- getattr sim_config "generate_plots" ;;
  demodulation <-
    demodulate_and_decode encoding matrices sim_config protocol (truthy plot) ;;
  let combined_logs := EncodingResult.logs encoding ++ DemodulationResult.logs demodulation in
  Ok {| SimulationResult.encoding := encoding;
        SimulationResult.demodulation := demodulation;
        SimulationResult.matrices := matrices;
        SimulationResult.logs := combined_logs |}.

End Stages.

End Pipeline.

(* ===================================================================== *)
(** ** chimera/pipeline.py: the timing and carrier recovery loop *)
(* ===================================================================== *)

(** [_timing_and_carrier_recovery_impl] on IEEE-754 binary64 numbers.  A
    Python [float] and a [np.float64] are a primitive [float]; a
    [np.complex128] is a pair of them, with NumPy's product
    [(ar*br - ai*bi, ar*bi + ai*br)], to which a real operand contributes
    the imaginary part [+0].  The two library routines of the loop body,
    [np.exp] on a complex number and [np.arctan2], are the fields of [Libm].
    The [while] loop takes fuel: [None] means that the fuel ran out. *)
Module Recovery.

Definition complex : Type := (float * float)%type.
Definition real (z : complex) : float := fst z.
Definition imag (z : complex) : float := snd z.
Definition cadd (a b : complex) : complex := (real a + real b, imag a + imag b)%float.
Definition csub (a b : complex) : complex := (real a - real b, imag a - imag b)%float.
Definition cmul (a b : complex) : complex :=
  (real a * real b - imag a * imag b, real a * imag b + imag a * real b)%float.
Definition of_real (x : float) : complex := (x, zero).

Inductive error : Type :=
| CannotConvertNaN          (* ValueError: cannot convert float NaN to integer *)
| CannotConvertInfinity     (* OverflowError: cannot convert float infinity to integer *)
| IntTooLarge.              (* OverflowError: int too large to convert to float *)

Inductive outcome (A : Type) : Type :=
| Returns (a : A)
| Raises (e : error).
Arguments Returns {A} a.
Arguments Raises {A} e.

Definition bind {A B : Type} (c : outcome A) (k : A -> outcome B) : outcome B :=
  match c with Returns a => k a | Raises e => Raises e end.

(** The integer part [floor((-1)^s * m * 2^e)] of a finite number. *)
Definition floor_value (s : bool) (m : positive) (e : Z) : Z :=
  let v := cond_Zopp s (Z.pos m) in
  if 0 <=? e then v * 2 ^ e else v / 2 ^ (- e).

(** [int(np.floor(x))] *)
Definition floor_int (x : float) : outcome Z :=
  match Prim2SF x with
  | S754_nan => Raises CannotConvertNaN
  | S754_infinity _ => Raises CannotConvertInfinity
  | S754_zero _ => Returns 0
  | S754_finite s m e => Returns (floor_value s m e)
  end.

(** The conversion of an [int] operand of a float operation: the nearest
    double, ties to even. *)
Definition float_of_nat_int (z : Z) : outcome float :=
  if z <? 2 ^ 63 then Returns (of_uint63 (Uint63.of_Z z))
  else match binary_normalize prec emax z 0 false with
       | S754_infinity _ => Raises IntTooLarge
       | sf => Returns (SF2Prim sf)
       end.

Definition float_of_int (z : Z) : outcome float :=
  if 0 <=? z then float_of_nat_int z
  else match float_of_nat_int (- z) with
       | Returns f => Returns (- f)%float
       | Raises e => Raises e
       end.

Record Libm : Type := {
  np_exp : complex -> complex;
  np_arctan2 : float -> float -> float
}.

(** The four keyword arguments of the loop. *)
Record Gains : Type := {
  kp_carrier : float;
  ki_carrier : float;
  kp_timing : float;
  ki_timing : float
}.

(** Their default values: [0.000005], [0.000005**2 / 4.0], [0.0001] and
    [0.000001]. *)
Definition default_gains : Gains := {|
  kp_carrier := 0x1.4f8b588e368f1p-18%float;
  ki_carrier := 0x1.b7cdfd9d7bdbcp-38%float;
  kp_timing := 0x1.a36e2eb1c432dp-14%float;
  ki_timing := 0x1.0c6f7a0b5ed8dp-20%float
|}.

(** The local variables of the loop. *)
Record state : Type := {
  nco_phase : float;
  nco_freq_rad : float;
  integrator_carrier : float;
  timing_error : float;
  integrator_timing : float;
  out_symbols : list complex;
  out_nco_freq : list float;
  out_timing_error : list float;
  i_in : float
}.

Definition np_pi : float := 0x1.921fb54442d18p+1%float.

Section Loop.
Variable lib : Libm.
Variable baseband_signal : list complex.
Variable samples_per_symbol : float.
Variable sample_rate : Z.
Variable gains : Gains.

Definition signal_len : Z := Z.of_nat (List.length baseband_signal).

(** [baseband_signal[idx]], read only at indices the body has checked. *)
Definition item (idx : Z) : complex := nth (Z.to_nat idx) baseband_signal (zero, zero).

(** One pass through the body of the [while] loop: [Returns None] is a
    [break], [Returns (Some s')] the state at the end of the body. *)
Definition body (s : state) : outcome (option state) :=
  bind (floor_int (i_in s)) (fun idx =>
  bind (float_of_int idx) (fun idx_f =>
  let frac := (i_in s - idx_f)%float in
  if (idx <? 1) || (signal_len <=? idx + 1) then Returns None
  else
    let mid_interp :=
      cadd (item idx) (cmul (of_real frac) (csub (item (idx + 1)) (item idx))) in
    let half := (i_in s - samples_per_symbol / two)%float in
    bind (floor_int half) (fun half_idx =>
    bind (float_of_int half_idx) (fun half_idx_f =>
    let half_frac := (half - half_idx_f)%float in
    if (half_idx <? 1) || (signal_len <=? half_idx + 1) then Returns None
    else
      let half_interp :=
        cadd (item half_idx)
             (cmul (of_real half_frac) (csub (item (half_idx + 1)) (item half_idx))) in
      let nco_output := np_exp lib (cmul (neg_zero, (-1)%float) (of_real (nco_phase s))) in
      let corrected_mid := cmul mid_interp nco_output in
      let corrected_half := cmul half_interp nco_output in
      let timing_error :=
        match out_symbols s with
        | [] => timing_error s
        | _ :: _ =>
            let prev_mid := last (out_symbols s) (zero, zero) in
            (real corrected_half * (real corrected_mid - real prev_mid)
             + imag corrected_half * (imag corrected_mid - imag prev_mid))%float
        end in
      let integrator_timing := (integrator_timing s + ki_timing gains * timing_error)%float in
      let i_in' :=
        (i_in s + (samples_per_symbol
                   - (kp_timing gains * timing_error + integrator_timing)))%float in
      let phase_error := np_arctan2 lib (imag corrected_mid) (real corrected_mid) in
      let integrator_carrier :=
        (integrator_carrier s + ki_carrier gains * phase_error)%float in
      let nco_freq_rad :=
        (nco_freq_rad s + (kp_carrier gains * phase_error + integrator_carrier))%float in
      let nco_phase := (nco_phase s + nco_freq_rad)%float in
      bind (float_of_int sample_rate) (fun sample_rate_f =>
      Returns (Some {|
        nco_phase := nco_phase;
        nco_freq_rad := nco_freq_rad;
        integrator_carrier := integrator_carrier;
        timing_error := timing_error;
        integrator_timing := integrator_timing;
        out_symbols := out_symbols s ++ [corrected_mid];
        out_nco_freq := out_nco_freq s ++ [(nco_freq_rad * sample_rate_f / (two * np_pi))%float];
        out_timing_error := out_timing_error s ++ [timing_error];
        i_in := i_in' |})))))).

(** The returned triple: symbols, timing errors, NCO frequencies. *)
Definition outputs (s : state) : list complex * list float * list float :=
  (out_symbols s, out_timing_error s, out_nco_freq s).

(** [while i_in < limit: body] *)
Fixpoint while (limit : float) (fuel : nat) (s : state)
  : option (outcome (list complex * list float * list float)) :=
  match fuel with
  | O => None
  | S fuel =>
      if (i_in s <? limit)%float
      then match body s with
           | Raises e => Some (Raises e)
           | Returns None => Some (Returns (outputs s))
           | Returns (Some s') => while limit fuel s'
           end
      else Some (Returns (outputs s))
  end.

Definition initial : state := {|
  nco_phase := zero;
  nco_freq_rad := zero;
  integrator_carrier := zero;
  timing_error := zero;
  integrator_timing := zero;
  out_symbols := [];
  out_nco_freq := [];
  out_timing_error := [];
  i_in := samples_per_symbol
|}.

Definition _timing_and_carrier_recovery_impl (fuel : nat)
  : option (outcome (list complex * list float * list float)) :=
  match float_of_int signal_len with
  | Raises e => Some (Raises e)
  | Returns len_f => while (len_f - samples_per_symbol - 1)%float fuel initial
  end.

End Loop.

(** [timing_and_carrier_recovery]: the loop with its default gains (the
    Numba branch compiles the same function). *)
Definition timing_and_carrier_recovery
    (lib : Libm) (baseband_signal : list complex) (samples_per_symbol : float)
    (sample_rate : Z) (fuel : nat)
  : option (outcome (list complex * list float * list float)) :=
  _timing_and_carrier_recovery_impl lib baseband_signal samples_per_symbol sample_rate
                                    default_gains fuel.

End Recovery.

(* ===================================================================== *)
(** ** [docs/encoder.py]: the stand-alone encoder script *)
(* ===================================================================== *)

Module DocsEncoder.

(** The frame structure constants of the script, in symbols. *)
Definition FRAME_TOTAL_SYMBOLS : Z := 128.
Definition SYNC_SYMBOLS : Z := 16.
Definition TARGET_ID_SYMBOLS : Z := 16.
Definition COMMAND_TYPE_SYMBOLS : Z := 16.
Definition DATA_PAYLOAD_SYMBOLS : Z := 64.
Definition ECC_SYMBOLS : Z := 16.

(** The four arrays returned by [generate_frame_components]: draws of
    [np.random.RandomState(seed=42)], kept as they come. *)
Record FrameComponents : Type := {
  sync_bits : list Z;
  target_id_bits : list Z;
  command_type_bits : list Z;
  ecc_bits : list Z
}.

(** [np.tile(a, reps)] on a one-dimensional array *)
Definition tile (a : list Z) (reps : Z) : list Z := List.concat (repeat a (Z.to_nat reps)).

(** [np.concatenate(arrays)]: an empty list of arrays is a [ValueError]. *)
Definition concatenate (arrays : list (list Z)) : result (list Z) :=
  match arrays with
  | [] => Raise (ValueError EmptySequence)
  | _ => Ok (List.concat arrays)
  end.

Definition build_full_bitstream (components : FrameComponents)
           (payload_bits : list Z) (num_frames : Z) : result (list Z) :=
  let payload_bits_per_frame := DATA_PAYLOAD_SYMBOLS * 2 in
  payload_bits <-
    (if len payload_bits <? payload_bits_per_frame * num_frames
     then
       repeats_needed <- ceil_div (payload_bits_per_frame * num_frames) (len payload_bits) ;;
       Ok (tile payload_bits repeats_needed)
     else Ok payload_bits) ;;
  let frame := fun i : Z =>
    let start := i * payload_bits_per_frame in
    let stop := start + payload_bits_per_frame in
    let current_payload := slice payload_bits start stop in
    sync_bits components ++ target_id_bits components ++ command_type_bits components
      ++ current_payload ++ ecc_bits components in
  concatenate (map frame (range num_frames)).

(** The dictionary [qpsk_symbol_map] of [generate_modulated_audio]. *)
Definition qpsk_symbol_map (pair : Z * Z) : result Z :=
  match pair with
  | (0, 0) => Ok 1
  | (0, 1) => Ok 0
  | (1, 1) => Ok 2
  | (1, 0) => Ok 3
  | _ => Raise KeyError
  end.

(** [(np.array([1, 0, 2, 3]) * (np.pi / 2)) + (np.pi / 4)], in units of [π] *)
Definition qpsk_phase_map : list angle :=
  map (fun m => (inject_Z m * (1 # 2) + (1 # 4))%Q) [1; 0; 2; 3].

End DocsEncoder.

(* ===================================================================== *)
(** ** Test fixtures *)
(* ===================================================================== *)

Module Fixtures.

Import Config.

(** A parity-check matrix in standard form [[A | I_32]] for the default
    layout: row [i] checks the message bits [i], [i+32], [i+64], [i+96]
    and the parity bit [i]. *)
Definition systematic_H : NdArray.t := {|
  NdArray.nrows := 32;
  NdArray.ncols := 160;
  NdArray.rows :=
    map (fun i => map (fun j => if (j <? 128) then (if (j mod 32 =? i) then 1 else 0)
                                else (if (j - 128 =? i) then 1 else 0))
                      (range 160))
        (range 32)
|}.

(** The only (2, 4)-regular parity-check matrix on four columns: every
    row has weight four, so every entry is a one. *)
Definition all_ones_2x4 : NdArray.t := {|
  NdArray.nrows := 2;
  NdArray.ncols := 4;
  NdArray.rows := [[1; 1; 1; 1]; [1; 1; 1; 1]]
|}.

(** A decoder that trusts its input: the first [k] received bits. *)
Definition hard_decode (H : NdArray.t) (y : list Z) (snr : Q) : result (list Z) :=
  Ok (slice_to y (Z.of_nat (NdArray.ncols H) - Z.of_nat (NdArray.nrows H))).

Definition backends (H : NdArray.t) : Backends := {|
  make_ldpc := Some (fun _ _ _ _ => Ok H);
  ldpc_decode := Some hard_decode;
  scipy_signal := true
|}.

(** A noiseless stand-in for the analogue path: the "signal" is the list
    of transmitted phases and the receiver applies [channel] to each. *)
Definition numerics (channel : angle -> angle) : Numerics := {|
  signal := list angle;
  generator := unit;
  timing := unit;
  diagnostics := unit;
  plan_signal := fun _ _ _ _ => Ok tt;
  num_samples_of := fun _ => 0;
  synthesize := fun _ _ _ phases _ => Ok (phases, phases);
  receive := fun s _ _ => Ok (map channel s, tt);
  decode_utf8_ignore := fun bytes => bytes
|}.

(** The channel under which the slicer of [demodulate_and_decode] returns
    the transmitted pairs: it exchanges the phases [π/4] and [3π/4]. *)
Definition swap_01 (phase : angle) : angle :=
  if Qeq_bool phase (3 # 4) then (1 # 4)%Q
  else if Qeq_bool phase (1 # 4) then (3 # 4)%Q
  else phase.

Definition layout_k2_n4 : FrameLayout := {|
  total_symbols := 50;
  sync_symbols := 16;
  target_id_symbols := 16;
  command_type_symbols := 16;
  data_payload_symbols := 1;
  ecc_symbols := 1
|}.

Definition protocol_k2_n4 : ProtocolConfig := {|
  carrier_freq_hz := carrier_freq_hz default_ProtocolConfig;
  qpsk_symbol_rate := qpsk_symbol_rate default_ProtocolConfig;
  qpsk_bandwidth_hz := qpsk_bandwidth_hz default_ProtocolConfig;
  fsk_bit_rate := fsk_bit_rate default_ProtocolConfig;
  fsk_freq_zero_hz := fsk_freq_zero_hz default_ProtocolConfig;
  fsk_freq_one_hz := fsk_freq_one_hz default_ProtocolConfig;
  command_opcode := command_opcode default_ProtocolConfig;
  frame_layout := layout_k2_n4;
  sync_sequence_hex := sync_sequence_hex default_ProtocolConfig;
  target_id_hex := target_id_hex default_ProtocolConfig;
  max_frames := max_frames default_ProtocolConfig;
  current_frame_shift := current_frame_shift default_ProtocolConfig;
  total_frames_shift := total_frames_shift default_ProtocolConfig
|}.

Definition ldpc_2_4 : LDPCConfig := {| dv := 2; dc := 4; seed := Some 42 |}.

Definition sync_bits : list Z :=
  [1;0;1;0;0;1;0;1; 1;0;1;0;0;1;0;1; 1;0;1;0;0;1;0;1; 1;0;1;0;0;1;0;1].

End Fixtures.

(* ===================================================================== *)
(** ** Definitions used to state the properties *)
(* ===================================================================== *)

(** What the transmitter and the receiver do to one bit pair when the
    received phase is exactly the transmitted one. *)
Definition qpsk_round_trip (pair : Z * Z) : result (list Z) :=
  symbol <- Pipeline.qpsk_symbol_map pair ;;
  Pipeline.slice_phase Pipeline.qpsk_phase_map
                       (Pipeline.phase_of_symbol Pipeline.qpsk_phase_map symbol).

(** A demodulated stream of one frame length whose only occurrence of the
    sync pattern is at the last possible position, [256 - 32 = 224]. *)
Definition sync_at_last_position : list Z := repeat 0 224 ++ Fixtures.sync_bits.

(** Matrices of the default layout around any pair [(H, G)]. *)
Definition default_matrices (H G : NdArray.t) : LDPCMatrices.t := {|
  LDPCMatrices.H := H;
  LDPCMatrices.G := G;
  LDPCMatrices.message_bits := 128;
  LDPCMatrices.codeword_bits := 160
|}.

Definition is_bit (b : Z) : Prop := b = 0 \/ b = 1.

(** The generator matrix as [create_ldpc_matrices] assembles it from the
    parity-check matrix [H0] returned by the backend:
    [concatenate((I_k, H0[:, :k].T), axis=1) % 2], converted to [uint8]. *)
Definition generator_of (k : nat) (H0 : NdArray.t) : NdArray.t :=
  NdArray.astype_uint8
    (NdArray.mod2
       {| NdArray.nrows := k;
          NdArray.ncols := k + NdArray.nrows H0;
          NdArray.rows :=
            map (fun rr => fst rr ++ snd rr)
                (combine
                   (map (fun i => map (fun j => if Nat.eqb i j then 1 else 0) (seq 0 k))
                        (seq 0 k))
                   (NdArray.rows (NdArray.transpose (NdArray.take_cols (Z.of_nat k) H0)))) |}).

(** The [j]-th unit vector on the index range [a, a + n). *)
Definition unit_vector (j a n : nat) : list Z :=
  map (fun i => if Nat.eqb i j then 1 else 0) (seq a n).

(** The message "Hi" padded to 128 bits, on the default layout. *)
Definition message_Hi : list Z :=
  [0;1;0;0;1;0;0;0; 0;1;1;0;1;0;0;1] ++ repeat 0 112.

(** The matrices built on [Fixtures.systematic_H] for the default layout. *)
Definition systematic_matrices : LDPCMatrices.t := {|
  LDPCMatrices.H := NdArray.astype_uint8 Fixtures.systematic_H;
  LDPCMatrices.G := generator_of 128 Fixtures.systematic_H;
  LDPCMatrices.message_bits := 128;
  LDPCMatrices.codeword_bits := 160
|}.

Definition all_bits (l : list Z) : bool := forallb (fun b => (b =? 0) || (b =? 1)) l.

(** The value of a bit list read most significant bit first. *)
Definition big_endian_value (bits : list Z) : Z :=
  fold_left (fun acc b => 2 * acc + b) bits 0.

(** [bits] is the big-endian rendering of [value] on [width] bits. *)
Definition renders (width value : Z) (bits : list Z) : Prop :=
  len bits = width /\ Forall is_bit bits /\ big_endian_value bits = value.

(** The binary digits of a positive number as integers, most significant
    first: what [int] makes of each character of [bin_pos]. *)
Fixpoint pos_bits (p : positive) : list Z :=
  match p with
  | xH => [1]
  | xO q => pos_bits q ++ [0]
  | xI q => pos_bits q ++ [1]
  end.

(** The frame count of the specification: [⌈n / 128⌉], and 1 for [n = 0]. *)
Definition frames_needed (n : Z) : Z := if n =? 0 then 1 else (n + 127) / 128.

(** The command word of frame [i] out of [total]. *)
Definition command_word (i total : Z) : Z :=
  Z.lor (Z.lor 1 (Z.shiftl i 16)) (Z.shiftl total 24).

(** The 32 bits of [DEADBEEF]. *)
Definition target_id_bits : list Z :=
  [1;1;0;1;1;1;1;0; 1;0;1;0;1;1;0;1; 1;0;1;1;1;1;1;0; 1;1;1;0;1;1;1;1].

(** The 16 payload bits of the plaintext "Hi". *)
Definition payload_Hi : list Z := [0;1;0;0;1;0;0;0; 0;1;1;0;1;0;0;1].

(** The assembler's answer on that payload: one frame. *)
Definition stream_Hi : list Z :=
  Eval vm_compute in
    match Pipeline.build_full_bitstream payload_Hi Config.default_ProtocolConfig
                                        systematic_matrices None with
    | Ok (stream, _, _) => stream
    | Raise _ => []
    end.

Definition entries_Hi : list log_entry :=
  Eval vm_compute in
    match Pipeline.build_full_bitstream payload_Hi Config.default_ProtocolConfig
                                        systematic_matrices None with
    | Ok (_, _, entries) => entries
    | Raise _ => []
    end.

(** [H] is in standard form [[A | I]] after [k] leading columns. *)
Definition standard_form (k : nat) (H : NdArray.t) : Prop :=
  forall t, (t < List.length (NdArray.rows H))%nat ->
    exists A, nth t (NdArray.rows H) [] = A ++ unit_vector t 0 (List.length (NdArray.rows H)) /\
              List.length A = k.

(** Every entry of [G · Hᵀ] is even. *)
Definition orthogonal_mod2 (G H : NdArray.t) : Prop :=
  Forall (Forall (fun x => x mod 2 = 0)) (NdArray.mul_transpose G H).

Definition is_byte (b : Z) : Prop := 0 <= b < 256.

(** A Unicode code point, and the range reserved for surrogates. *)
Definition valid_code_point (cp : Z) : Prop := 0 <= cp < 1114112.
Definition is_surrogate (cp : Z) : Prop := 55296 <= cp <= 57343.

(** The brute-force check behind the facts on single bytes. *)
Definition byte_bits_checked (b : Z) : bool :=
  (big_endian_value (Utils.byte_bits b) =? b) && (Utils.pack_byte 8 (Utils.byte_bits b) =? b).

Definition is_hex_digit (c : ascii) : Prop := exists v, Utils.hex_value c = Some v.

Definition hex_digit_value (c : ascii) : Z :=
  match Utils.hex_value c with Some v => v | None => 0 end.

(** The number a string of hexadecimal digits denotes. *)
Definition hex_string_value (cs : list ascii) : Z :=
  fold_left (fun acc c => 16 * acc + hex_digit_value c) cs 0.

(** The message chunk of frame [i] as [build_full_bitstream] prepares it for
    the default layout: [payload[128 i : 128 (i + 1)]], padded with zeros to
    128 entries. *)
Definition padded_chunk (payload_bits : list Z) (i : Z) : list Z :=
  let chunk := slice payload_bits (i * 128) ((i + 1) * 128) in
  if len chunk <? 128 then Pipeline.pad_right chunk (128 - len chunk) else chunk.

(** The encoding and the demodulation of the plaintext "Hi" over the
    channel of the fixtures, evaluated once. *)
Definition run_Hi :
  result (EncodingResult.t (Fixtures.numerics Fixtures.swap_01) *
          DemodulationResult.t (Fixtures.numerics Fixtures.swap_01)) :=
  Eval vm_compute in
    (encoding <- Pipeline.generate_modulated_signal
                   (Fixtures.backends Fixtures.systematic_H)
                   (Fixtures.numerics Fixtures.swap_01) Config.default_SimulationConfig
                   Config.default_ProtocolConfig systematic_matrices
                   (Some (Config.str "Hi")) None ;;
     demodulation <- Pipeline.demodulate_and_decode
                   (Fixtures.backends Fixtures.systematic_H)
                   (Fixtures.numerics Fixtures.swap_01) encoding systematic_matrices
                   Config.default_SimulationConfig Config.default_ProtocolConfig false ;;
     Ok (encoding, demodulation)).

Definition encoding_Hi : EncodingResult.t (Fixtures.numerics Fixtures.swap_01) :=
  Eval vm_compute in
    match run_Hi as r return match r with Ok _ => _ | Raise _ => unit end with
    | Ok run => fst run
    | Raise _ => tt
    end.

Definition demodulation_Hi : DemodulationResult.t (Fixtures.numerics Fixtures.swap_01) :=
  Eval vm_compute in
    match run_Hi as r return match r with Ok _ => _ | Raise _ => unit end with
    | Ok run => snd run
    | Raise _ => tt
    end.

(** The phases received for [encoding_Hi] and the slicer's decisions on them. *)
Definition received_phases_Hi : list angle :=
  Eval vm_compute in map Fixtures.swap_01 (EncodingResult.noisy_signal encoding_Hi).

Definition decisions_Hi : list (list Z) :=
  Eval vm_compute in
    match mapM (Pipeline.slice_phase Pipeline.qpsk_phase_map) received_phases_Hi with
    | Ok decisions => decisions
    | Raise _ => []
    end.

(** What the slicer returns for a transmitted stream when every received
    phase is exactly the transmitted one: in each pair that starts with 0
    the second bit is inverted. *)
Fixpoint received_on_exact_phases (bits : list Z) : list Z :=
  match bits with
  | a :: b :: rest =>
      a :: (if a =? 0 then 1 - b else b) :: received_on_exact_phases rest
  | _ => bits
  end.

(** The payload block of frame [i] of the stand-alone encoder: 128 entries
    read from the payload, starting at [128 i] and wrapping around. *)
Definition cyclic_block (payload_bits : list Z) (i : Z) : list Z :=
  map (fun j => nth ((128 * Z.to_nat i + j) mod List.length payload_bits) payload_bits 0)
      (seq 0 128).

(** The number of entries of one frame of the stand-alone encoder. *)
Definition docs_frame_length (components : DocsEncoder.FrameComponents) : nat :=
  (List.length (DocsEncoder.sync_bits components)
   + List.length (DocsEncoder.target_id_bits components)
   + List.length (DocsEncoder.command_type_bits components)
   + 128
   + List.length (DocsEncoder.ecc_bits components))%nat.

(** Frame components of the expected widths, for the examples. *)
Definition components_example : DocsEncoder.FrameComponents := {|
  DocsEncoder.sync_bits := Fixtures.sync_bits;
  DocsEncoder.target_id_bits := target_id_bits;
  DocsEncoder.command_type_bits := repeat 0 32;
  DocsEncoder.ecc_bits := repeat 1 32
|}.

(** *** Binary64 numbers and the recovery loop on silence *)

(** The number of low bits that rounding [m * 2 ^ e] to 53 bits drops. *)
Definition nshift (m e : Z) : Z := Z.max 0 (fexp prec emax (Zdigits2 m + e) - e).

(** The integer part of [m * 2 ^ e]. *)
Definition vfloor (m e : Z) : Z := if 0 <=? e then m * 2 ^ e else m / 2 ^ (- e).

(** A zero, or a finite number of exponent at most [B]. *)
Definition finite_sf (B : Z) (x : spec_float) : Prop :=
  match x with
  | S754_zero _ => True
  | S754_finite _ _ e => e <= B
  | _ => False
  end.

(** [+0] or a positive finite number. *)
Definition nonneg_finite (x : float) : Prop :=
  match Prim2SF x with
  | S754_zero s => s = false
  | S754_finite s _ _ => s = false
  | _ => False
  end.

(** Neither a NaN nor an infinity. *)
Definition finite (x : float) : Prop :=
  match Prim2SF x with
  | S754_zero _ | S754_finite _ _ _ => True
  | _ => False
  end.

(** [+0] or [-0]. *)
Definition is_a_zero (x : float) : Prop := x = zero \/ x = neg_zero.

(** A finite number in the interval [1, 2 ^ 53). *)
Definition small_positive (x : float) : Prop :=
  exists m e, Prim2SF x = S754_finite false m e /\ 1 <= vfloor (Z.pos m) e < 2 ^ 53.

(** A complex sample whose two parts are zeros, of either sign. *)
Definition zero_sample (z : Recovery.complex) : Prop := is_a_zero (fst z) /\ is_a_zero (snd z).

(** The four loop gains are finite numbers. *)
Definition finite_gains (g : Recovery.Gains) : Prop :=
  finite (Recovery.kp_carrier g) /\ finite (Recovery.ki_carrier g) /\
  finite (Recovery.kp_timing g) /\ finite (Recovery.ki_timing g).

(** [np.exp] at a zero: the real part is 1 and the imaginary part a zero
    (C99 Annex G: [cexp(+-0 +- 0i) = 1 +- 0i]). *)
Definition exp_of_zero (lib : Recovery.Libm) : Prop :=
  forall z, zero_sample z ->
    fst (Recovery.np_exp lib z) = one /\ is_a_zero (snd (Recovery.np_exp lib z)).

(** [np.arctan2(+0, +0) = +0]. *)
Definition arctan2_of_zero (lib : Recovery.Libm) : Prop :=
  Recovery.np_arctan2 lib zero zero = zero.

(** The loop invariant on an all-zero input: the loop filters hold [+0],
    every emitted value is a zero, and the read position [i_in] is [+infinity]
    or a positive finite number at or beyond sample [k]. *)
Definition zero_state (sps : float) (k : Z) (s : Recovery.state) : Prop :=
  Recovery.nco_phase s = zero /\ Recovery.nco_freq_rad s = zero /\
  Recovery.integrator_carrier s = zero /\ Recovery.timing_error s = zero /\
  Recovery.integrator_timing s = zero /\
  Forall (eq (zero, zero)) (Recovery.out_symbols s) /\
  Forall is_a_zero (Recovery.out_nco_freq s) /\
  Forall (eq zero) (Recovery.out_timing_error s) /\
  (Prim2SF (Recovery.i_in s) = S754_infinity false \/
   exists m e, Prim2SF (Recovery.i_in s) = S754_finite false m e /\ k <= vfloor (Z.pos m) e) /\
  (Recovery.i_in s = sps \/ small_positive sps).

(** A complex number without NaN or infinity. *)
Definition finite_complex (z : Recovery.complex) : Prop :=
  finite (Recovery.real z) /\ finite (Recovery.imag z).

(** A stand-in for the two library routines, exact at the origin: the
    first-order expansions [exp z = (1 + re z) + i * im z] and
    [arctan2 y x = y]. *)
Definition first_order_libm : Recovery.Libm := {|
  Recovery.np_exp := fun z => ((one + Recovery.real z)%float, Recovery.imag z);
  Recovery.np_arctan2 := fun y _ => y
|}.

(** Thirty samples of silence. *)
Definition silence : list Recovery.complex := repeat (zero, zero) 30.

(* ===================================================================== *)
(** ** Sanity checks of the embedding *)
(* ===================================================================== *)

(** The smoke tests of [tests/test_utils.py].  For [0xAB] on 12 bits the
    function returns [0000 1010 1011]; the list expected by the test file,
    [0010 1010 1011], is the rendering of [0x2AB]. *)
Example test_int_to_bitstream_fixed_width :
  Utils.int_to_bitstream 171 12 = Ok [0; 0; 0; 0; 1; 0; 1; 0; 1; 0; 1; 1].
Proof. reflexivity. Qed.

Example test_hex_to_bitstream_expected_width :
  Utils.hex_to_bitstream "A5A5" 16 = Ok [1; 0; 1; 0; 0; 1; 0; 1; 1; 0; 1; 0; 0; 1; 0; 1].
Proof. reflexivity. Qed.

Example test_string_roundtrip :
  (* "Chimera" *)
  match Utils.string_to_bitstream [67; 104; 105; 109; 101; 114; 97] with
  | Ok bits => len bits = 56 /\ Utils.packbits bits = [67; 104; 105; 109; 101; 114; 97]
  | Raise _ => False
  end.
Proof. vm_compute. split; reflexivity. Qed.

(** The constellation, in units of [π]: [3π/4], [π/4], [5π/4], [7π/4]. *)
Example qpsk_phase_map_values :
  Forall2 Qeq Pipeline.qpsk_phase_map [3 # 4; 1 # 4; 5 # 4; 7 # 4]%Q.
Proof. repeat constructor. Qed.


(** The two stages run one after the other on the plaintext "Hi", over a
    channel that hands every transmitted bit back: one frame, no bit error,
    and the message is recovered. *)
Example noiseless_run_recovers_Hi :
  (encoding <- Pipeline.generate_modulated_signal
                 (Fixtures.backends Fixtures.systematic_H)
                 (Fixtures.numerics Fixtures.swap_01) Config.default_SimulationConfig
                 Config.default_ProtocolConfig systematic_matrices
                 (Some (Config.str "Hi")) None ;;
   demodulation <- Pipeline.demodulate_and_decode
                 (Fixtures.backends Fixtures.systematic_H)
                 (Fixtures.numerics Fixtures.swap_01) encoding systematic_matrices
                 Config.default_SimulationConfig Config.default_ProtocolConfig false ;;
   Ok (EncodingResult.total_frames encoding,
       DemodulationResult.pre_fec_errors demodulation,
       DemodulationResult.post_fec_errors demodulation,
       DemodulationResult.recovered_message demodulation))
  = Ok (1, 0, 0, Config.str "Hi").
Proof. vm_compute. reflexivity. Qed.

(* ===================================================================== *)
(** ** General lemmas on the error monad *)
(* ===================================================================== *)

Lemma bind_Ok_inv {A B : Type} (c : result A) (k : A -> result B) (b : B) :
  Py.bind c k = Ok b -> exists a, c = Ok a /\ k a = Ok b.
Proof.
  destruct c as [a | e]; simpl; intros Hk; [exists a; split; trivial | discriminate].
Qed.

Lemma is_ok_bind_false {A B : Type} (c : result A) (k : A -> result B) :
  (forall a, c = Ok a -> is_ok (k a) = false) -> is_ok (Py.bind c k) = false.
Proof.
  destruct c as [a | e]; simpl; intros Hk; [apply Hk; reflexivity | reflexivity].
Qed.

(** Splits the hypothesis [H : (x <- c ;; k) = Ok b] into its two halves. *)
Ltac bind_inv H :=
  let a := fresh "a" in
  let Ha := fresh "Hstep" in
  apply bind_Ok_inv in H; destruct H as [a [Ha H]].

(* ===================================================================== *)
(** ** QPSK tables (claim C3) *)
(* ===================================================================== *)

(** On an exact phase the slicer returns the index of the transmitted symbol. *)
Lemma slicer_recovers_symbol_index :
  forall symbol, In symbol [0; 1; 2; 3] ->
    Pipeline.argmin
      (map Qabs
           (map (fun m => Pipeline.wrap_angle
                            (Pipeline.phase_of_symbol Pipeline.qpsk_phase_map symbol - m)%Q)
                Pipeline.qpsk_phase_map)) = Ok symbol.
Proof.
  intros symbol Hin; simpl in Hin.
  destruct Hin as [<- | [<- | [<- | [<- | []]]]]; vm_compute; reflexivity.
Qed.

(** C3 (the code departs from the claim): the pair (0,0) is mapped to symbol 0 and
    phase 3π/4, the slicer returns index 0 for that exact phase, and
    [qpsk_reverse_bit_map] sends index 0 to (0,1), not back to (0,0);
    likewise (0,1) comes back as (0,0).  Only (1,1) and (1,0) survive the
    round trip. *)
Theorem qpsk_round_trip_swaps_00_and_01 :
  qpsk_round_trip (0, 0) = Ok [0; 1] /\
  qpsk_round_trip (0, 1) = Ok [0; 0] /\
  qpsk_round_trip (1, 1) = Ok [1; 1] /\
  qpsk_round_trip (1, 0) = Ok [1; 0].
Proof. repeat split; vm_compute; reflexivity. Qed.

(* ===================================================================== *)
(** ** Matched filter length (claim C9) *)
(* ===================================================================== *)

(** C9 (the code departs from the claim): with [num_taps = 101] the filter is
    evaluated on [np.arange(-51, 51)], because [-num_taps // 2] is
    [(-101) // 2 = -51]; the tap vector therefore has 102 entries, from
    position -51 to position 50, and is not symmetric about 0. *)
Theorem rrc_filter_has_102_taps :
  len (Pipeline.rrc_tap_positions Pipeline.num_taps) = 102 /\
  Pipeline.rrc_tap_positions Pipeline.num_taps = arange (-51) 51 /\
  hd 0 (Pipeline.rrc_tap_positions Pipeline.num_taps) = -51 /\
  last (Pipeline.rrc_tap_positions Pipeline.num_taps) 0 = 50.
Proof. repeat split; vm_compute; reflexivity. Qed.

(* ===================================================================== *)
(** ** Frame synchronisation search (claim C6) *)
(* ===================================================================== *)

Lemma array_equal_true_iff (a b : list Z) : Pipeline.array_equal a b = true <-> a = b.
Proof.
  revert b; induction a as [| x a IH]; intros [| y b]; simpl; split; intros Heq;
    try reflexivity; try discriminate.
  - apply andb_true_iff in Heq as [Hxy Hab]. apply Z.eqb_eq in Hxy.
    apply IH in Hab. congruence.
  - injection Heq as -> ->. rewrite Z.eqb_refl. simpl. apply IH. reflexivity.
Qed.

(** The search loop over [range(n)], started at any offset: either no
    window matches and the result is [-1], or the result is the least
    matching index. *)
Lemma first_sync_seq (stream sync : list Z) (m a : nat) :
  let window := fun i : nat => slice stream (Z.of_nat i) (Z.of_nat i + len sync) in
  let r := Pipeline.first_sync stream sync (map Z.of_nat (seq a m)) in
  (r = -1 /\ forall i, (a <= i < a + m)%nat -> window i <> sync) \/
  (exists i, r = Z.of_nat i /\ (a <= i < a + m)%nat /\ window i = sync /\
             forall j, (a <= j < i)%nat -> window j <> sync).
Proof.
  revert a; induction m as [| m IH]; intros a; simpl.
  - left. split; [reflexivity | intros i Hi; lia].
  - destruct (Pipeline.array_equal (slice stream (Z.of_nat a) (Z.of_nat a + len sync)) sync)
      eqn:Hwin.
    + right. exists a. apply array_equal_true_iff in Hwin.
      repeat split; try lia; trivial.
    + assert (Hne : slice stream (Z.of_nat a) (Z.of_nat a + len sync) <> sync).
      { intros Heq. apply array_equal_true_iff in Heq. congruence. }
      destruct (IH (S a)) as [[Hr Hall] | [i [Hr [Hi [Hw Hfirst]]]]].
      * left. split; [exact Hr |]. intros i Hi.
        destruct (Nat.eq_dec i a) as [-> | Hia]; [exact Hne | apply Hall; lia].
      * right. exists i. repeat split; try lia; trivial.
        intros j Hj. destruct (Nat.eq_dec j a) as [-> | Hja]; [exact Hne | apply Hfirst; lia].
Qed.

(** What [find_sync] computes: it fails exactly when no index strictly
    below [len stream - len sync] starts a copy of the pattern, and
    otherwise returns the least such index. *)
Lemma find_sync_spec (stream sync : list Z) :
  let window := fun p : Z => slice stream p (p + len sync) in
  match Pipeline.find_sync stream sync with
  | Ok p => 0 <= p < len stream - len sync /\ window p = sync /\
            forall q, 0 <= q < p -> window q <> sync
  | Raise e => e = RuntimeError "Frame sync sequence not found. Decoding failed." /\
               forall q, 0 <= q < len stream - len sync -> window q <> sync
  end.
Proof.
  unfold Pipeline.find_sync, range. cbv zeta.
  set (n := Z.to_nat (Z.max (len stream - len sync) 0)).
  destruct (first_sync_seq stream sync n 0) as [[Hr Hall] | [i [Hr [Hi [Hw Hfirst]]]]];
    cbv zeta in *; rewrite Hr.
  - simpl. split; [reflexivity |]. intros q Hq.
    specialize (Hall (Z.to_nat q)). rewrite Z2Nat.id in Hall by lia. apply Hall. lia.
  - replace (Z.of_nat i =? -1) with false by (symmetry; apply Z.eqb_neq; lia).
    simpl. repeat split; try lia; trivial.
    intros q Hq. specialize (Hfirst (Z.to_nat q)).
    rewrite Z2Nat.id in Hfirst by lia. apply Hfirst. lia.
Qed.

(** The search fails exactly when no window starting strictly below
    [len stream - len sync] equals the pattern. *)
Lemma find_sync_raises_iff (stream sync : list Z) :
  is_ok (Pipeline.find_sync stream sync) = false <->
  forall q, 0 <= q < len stream - len sync -> slice stream q (q + len sync) <> sync.
Proof.
  pose proof (find_sync_spec stream sync) as Hspec. cbv zeta in Hspec.
  destruct (Pipeline.find_sync stream sync) as [p | e]; simpl.
  - destruct Hspec as (Hp & Hwin & _). split; [discriminate |].
    intros Hnone. exfalso. apply (Hnone p Hp). exact Hwin.
  - destruct Hspec as (_ & Hnone). split; [intros _; exact Hnone | reflexivity].
Qed.

(** C6 (the code departs from the claim): the loop runs over
    [range(len(stream) - 32)], which stops one short of the last window.
    On a 256-bit stream whose bits 224..255 are the sync pattern the
    pattern is present at p = length - 32, yet the search raises "Frame
    sync sequence not found". *)
Theorem find_sync_misses_last_position :
  len sync_at_last_position = 256 /\
  Utils.hex_to_bitstream "A5A5A5A5" 32 = Ok Fixtures.sync_bits /\
  slice sync_at_last_position 224 (224 + 32) = Fixtures.sync_bits /\
  Pipeline.find_sync sync_at_last_position Fixtures.sync_bits
    = Raise (RuntimeError "Frame sync sequence not found. Decoding failed.").
Proof. repeat split; vm_compute; reflexivity. Qed.

(* ===================================================================== *)
(** ** Frame count limit (claim C4) *)
(* ===================================================================== *)

(** C4 (the code departs from the claim): a payload of 32768 bits needs
    exactly 256 frames, which passes the guard [total_frames > max_frames]
    with [max_frames = 256]; the command word of frame 0 is then
    [1 | 0 << 16 | 256 << 24 = 2^32 + 1], which [int_to_bitstream] refuses
    to render on 32 bits.  The assembler raises although the frame count
    does not exceed [max_frames]. *)
Theorem build_full_bitstream_rejects_256_frames :
  forall (H G : NdArray.t) (logger : option (list log_entry)),
    ceil_div (len (repeat 0 (Z.to_nat 32768))) 128 = Ok 256 /\
    Pipeline.build_full_bitstream (repeat 0 (Z.to_nat 32768)) Config.default_ProtocolConfig
                                  (default_matrices H G) logger
      = Raise (ValueError (WontFit 4294967297 32)).
Proof.
  intros H G logger. split; [vm_compute; reflexivity |].
  destruct logger; vm_compute; reflexivity.
Qed.

(* ===================================================================== *)
(** ** End-to-end run (claim C1) *)
(* ===================================================================== *)

Lemma getattr_generate_plots (sim_config : Config.SimulationConfig) :
  Config.getattr sim_config "generate_plots" = Raise (AttributeError "generate_plots").
Proof. reflexivity. Qed.

(** C1 (the code departs from the claim): [run_simulation] reads
    [sim_config.generate_plots] while building the arguments of
    [demodulate_and_decode], and [SimulationConfig] has no such field.
    Whatever the configuration, the plaintext and the backends, the run
    returns no result: it fails as the matrix construction or the modulator
    fails, and otherwise with [AttributeError], which is none of the error
    kinds of the specification. *)
Theorem run_simulation_raises_AttributeError :
  forall (env : Backends) (num : Numerics)
         (sim_config : option Config.SimulationConfig)
         (protocol : option Config.ProtocolConfig)
         (ldpc_config : option Config.LDPCConfig)
         (plaintext : option (list Z)) (rng : option (generator num)),
    let sim := match sim_config with Some c => c | None => Config.default_SimulationConfig end in
    let pro := match protocol with Some c => c | None => Config.default_ProtocolConfig end in
    let cfg := match ldpc_config with Some c => c | None => Config.default_LDPCConfig end in
    Pipeline.run_simulation env num sim_config protocol ldpc_config plaintext rng
      = (matrices <- Pipeline.create_ldpc_matrices env pro cfg ;;
         _ <- Pipeline.generate_modulated_signal env num sim pro matrices plaintext rng ;;
         Raise (AttributeError "generate_plots"))
    /\ is_ok (Pipeline.run_simulation env num sim_config protocol ldpc_config plaintext rng)
       = false.
Proof.
  intros env num sim_config protocol ldpc_config plaintext rng sim pro cfg.
  assert (Heq : Pipeline.run_simulation env num sim_config protocol ldpc_config plaintext rng
                = (matrices <- Pipeline.create_ldpc_matrices env pro cfg ;;
                   _ <- Pipeline.generate_modulated_signal env num sim pro matrices plaintext rng ;;
                   Raise (AttributeError "generate_plots"))).
  { unfold Pipeline.run_simulation. fold sim pro cfg.
    destruct (Pipeline.create_ldpc_matrices env pro cfg) as [matrices | e]; simpl; trivial. }
  split; [exact Heq |].
  rewrite Heq.
  destruct (Pipeline.create_ldpc_matrices env pro cfg) as [matrices | e]; simpl; trivial.
  destruct (Pipeline.generate_modulated_signal env num sim pro matrices plaintext rng);
    reflexivity.
Qed.

(** The default run on a backend whose stages all succeed. *)
Example run_simulation_default :
  Pipeline.run_simulation (Fixtures.backends Fixtures.systematic_H)
                          (Fixtures.numerics Fixtures.swap_01) None None None None None
    = Raise (AttributeError "generate_plots").
Proof. vm_compute. reflexivity. Qed.

(* ===================================================================== *)
(** ** Empty payload (claim C5) *)
(* ===================================================================== *)

Lemma len_nonneg {A : Type} (l : list A) : 0 <= len l.
Proof. unfold len. lia. Qed.

Lemma slice_to_0 {A : Type} (l : list A) : slice_to l 0 = [].
Proof.
  unfold slice_to, clamp_index. simpl.
  pose proof (len_nonneg l). rewrite Z.min_l by lia. reflexivity.
Qed.

(** The frame assembler reports one frame for an empty payload, whatever
    the protocol and the matrices. *)
Lemma build_full_bitstream_empty_total_frames
      (protocol : Config.ProtocolConfig) (matrices : LDPCMatrices.t)
      (logger : option (list log_entry)) (stream : list Z) (total_frames : Z)
      (entries : list log_entry) :
  Pipeline.build_full_bitstream [] protocol matrices logger = Ok (stream, total_frames, entries) ->
  total_frames = 1.
Proof.
  unfold Pipeline.build_full_bitstream. simpl. intros Hrun.
  destruct (negb (Config.max_frames protocol <? 1)); [| discriminate].
  bind_inv Hrun. bind_inv Hrun. bind_inv Hrun.
  destruct a1 as [frames logger']. injection Hrun as _ Htf _. congruence.
Qed.

Lemma generate_modulated_signal_empty
      (env : Backends) (num : Numerics) (sim_config : Config.SimulationConfig)
      (protocol : Config.ProtocolConfig) (matrices : LDPCMatrices.t)
      (rng : option (generator num)) (encoding : EncodingResult.t num) :
  Pipeline.generate_modulated_signal env num sim_config protocol matrices (Some []) rng
    = Ok encoding ->
  EncodingResult.payload_bits encoding = [] /\ EncodingResult.total_frames encoding = 1.
Proof.
  unfold Pipeline.generate_modulated_signal. intros Hrun.
  bind_inv Hrun. simpl in Hrun.
  bind_inv Hrun. destruct a0 as [[stream total_frames] entries].
  apply build_full_bitstream_empty_total_frames in Hstep0. subst total_frames.
  bind_inv Hrun. bind_inv Hrun. bind_inv Hrun. bind_inv Hrun.
  destruct a3 as [clean noisy]. injection Hrun as <-. simpl. split; reflexivity.
Qed.

(** With no payload bit to compare, the post-FEC bit error rate is the
    quotient [0 / 0]. *)
Lemma demodulate_and_decode_empty_payload
      (env : Backends) (num : Numerics) (encoding : EncodingResult.t num)
      (matrices : LDPCMatrices.t) (sim_config : Config.SimulationConfig)
      (protocol : Config.ProtocolConfig) (plot : bool) :
  EncodingResult.payload_bits encoding = [] ->
  is_ok (Pipeline.demodulate_and_decode env num encoding matrices sim_config protocol plot)
    = false.
Proof.
  intros Hempty. unfold Pipeline.demodulate_and_decode.
  destruct (ldpc_decode env) as [decode |]; [| reflexivity].
  apply is_ok_bind_false; intros _ _.
  apply is_ok_bind_false; intros [received_phases diag] _.
  apply is_ok_bind_false; intros decisions _.
  apply is_ok_bind_false; intros pre_fec_errors _.
  apply is_ok_bind_false; intros pre_fec_ber _.
  apply is_ok_bind_false; intros sync_bits _.
  apply is_ok_bind_false; intros sync_location _.
  destruct (negb (Config.frame_bits (Config.frame_layout protocol) =? 0)); [| reflexivity].
  apply is_ok_bind_false; intros [decoded logger] _.
  rewrite Hempty. change (len (@nil Z)) with 0. rewrite slice_to_0. reflexivity.
Qed.

(** C5 (the code departs from the claim): with the empty plaintext the
    modulator does report [total_frames = 1], but the run never completes.
    [demodulate_and_decode] computes
    [post_fec_ber = post_fec_errors / len(encoding.payload_bits)], and the
    payload has length 0: every run that finds the sync pattern ends in
    [ZeroDivisionError], and no run returns a recovered message. *)
Theorem empty_plaintext_run_never_completes :
  forall (env : Backends) (num : Numerics) (sim_config : Config.SimulationConfig)
         (protocol : Config.ProtocolConfig) (matrices : LDPCMatrices.t)
         (rng : option (generator num)) (plot : bool),
    match Pipeline.generate_modulated_signal env num sim_config protocol matrices (Some []) rng
    with
    | Ok encoding =>
        EncodingResult.total_frames encoding = 1 /\
        EncodingResult.payload_bits encoding = [] /\
        is_ok (Pipeline.demodulate_and_decode env num encoding matrices sim_config protocol plot)
          = false
    | Raise _ => True
    end.
Proof.
  intros env num sim_config protocol matrices rng plot.
  destruct (Pipeline.generate_modulated_signal env num sim_config protocol matrices (Some []) rng)
    as [encoding | e] eqn:Hgen; [| exact I].
  apply generate_modulated_signal_empty in Hgen as [Hpayload Hframes].
  repeat split; trivial.
  apply demodulate_and_decode_empty_payload. exact Hpayload.
Qed.

(** The empty plaintext on a backend whose stages all succeed and whose
    channel returns every transmitted bit. *)
Example empty_plaintext_run :
  (matrices <- Pipeline.create_ldpc_matrices (Fixtures.backends Fixtures.systematic_H)
                 Config.default_ProtocolConfig Config.default_LDPCConfig ;;
   encoding <- Pipeline.generate_modulated_signal (Fixtures.backends Fixtures.systematic_H)
                 (Fixtures.numerics Fixtures.swap_01) Config.default_SimulationConfig
                 Config.default_ProtocolConfig matrices (Some []) None ;;
   Pipeline.demodulate_and_decode (Fixtures.backends Fixtures.systematic_H)
                 (Fixtures.numerics Fixtures.swap_01) encoding matrices
                 Config.default_SimulationConfig Config.default_ProtocolConfig false)
  = Raise ZeroDivisionError.
Proof. vm_compute. reflexivity. Qed.

(* ===================================================================== *)
(** ** Systematic encoding (claim C8) *)
(* ===================================================================== *)

Lemma slice_to_firstn {A : Type} (l : list A) (k : Z) :
  0 <= k -> slice_to l k = firstn (Z.to_nat k) l.
Proof.
  intros Hk. unfold slice_to, clamp_index.
  replace (k <? 0) with false by (symmetry; apply Z.ltb_ge; lia).
  destruct (Z.le_gt_cases k (len l)) as [Hle | Hgt].
  - rewrite Z.min_l by lia. reflexivity.
  - rewrite Z.min_r by lia. unfold len in *. rewrite Nat2Z.id.
    rewrite !firstn_all2; trivial; lia.
Qed.

Lemma slice_from_skipn {A : Type} (l : list A) (k : Z) :
  0 <= k -> slice_from l k = skipn (Z.to_nat k) l.
Proof.
  intros Hk. unfold slice_from, clamp_index.
  replace (k <? 0) with false by (symmetry; apply Z.ltb_ge; lia).
  destruct (Z.le_gt_cases k (len l)) as [Hle | Hgt].
  - rewrite Z.min_l by lia. reflexivity.
  - rewrite Z.min_r by lia. unfold len in *. rewrite Nat2Z.id.
    rewrite !skipn_all2; trivial; lia.
Qed.

Lemma nth_map_default {A B : Type} (f : A -> B) (l : list A) (n : nat) (d : A) (d' : B) :
  f d = d' -> nth n (map f l) d' = f (nth n l d).
Proof. intros <-. apply map_nth. Qed.

Lemma nth_map_lt {A B : Type} (f : A -> B) (l : list A) (n : nat) (d : A) (d' : B) :
  (n < List.length l)%nat -> nth n (map f l) d' = f (nth n l d).
Proof.
  intros Hn. rewrite nth_indep with (d' := f d) by (rewrite length_map; exact Hn).
  apply map_nth.
Qed.

Lemma wrap8_bit (b : Z) : is_bit b -> wrap8 b = b.
Proof. intros [-> | ->]; reflexivity. Qed.

(** What [create_ldpc_matrices] returns when it returns. *)
Lemma create_ldpc_matrices_inv
      (env : Backends) (protocol : Config.ProtocolConfig) (config : Config.LDPCConfig)
      (matrices : LDPCMatrices.t) :
  Pipeline.create_ldpc_matrices env protocol config = Ok matrices ->
  exists (H0 : NdArray.t) (k : nat),
    Config.message_bits (Config.frame_layout protocol) = Z.of_nat k /\
    Config.codeword_bits (Config.frame_layout protocol) = Z.of_nat (k + NdArray.nrows H0) /\
    NdArray.ncols (NdArray.take_cols (Z.of_nat k) H0) = k /\
    LDPCMatrices.message_bits matrices = Z.of_nat k /\
    LDPCMatrices.codeword_bits matrices = Z.of_nat (k + NdArray.nrows H0) /\
    LDPCMatrices.H matrices = NdArray.astype_uint8 H0 /\
    LDPCMatrices.G matrices = generator_of k H0.
Proof.
  unfold Pipeline.create_ldpc_matrices. intros Hrun.
  destruct (make_ldpc env) as [make |]; [| discriminate].
  bind_inv Hrun. rename a into H0.
  unfold NdArray.identity in Hrun.
  set (kz := Config.message_bits (Config.frame_layout protocol)) in *.
  destruct (0 <=? kz) eqn:Hk; [| discriminate]. apply Z.leb_le in Hk.
  simpl in Hrun. unfold NdArray.hconcat in Hrun. simpl in Hrun.
  destruct (Nat.eqb (Z.to_nat kz)
                    (Z.to_nat (clamp_index (Z.of_nat (NdArray.ncols H0)) kz))) eqn:Hrows;
    [| discriminate].
  apply Nat.eqb_eq in Hrows. simpl in Hrun.
  destruct ((Z.of_nat (Z.to_nat kz) =? kz)
            && (Z.of_nat (Z.to_nat kz + NdArray.nrows H0)
                =? Config.codeword_bits (Config.frame_layout protocol))) eqn:Hshape;
    [| discriminate].
  apply andb_true_iff in Hshape as [_ Hn]. apply Z.eqb_eq in Hn.
  injection Hrun as <-. exists H0, (Z.to_nat kz).
  unfold generator_of. simpl. rewrite !Z2Nat.id by lia.
  repeat split; try (symmetry; assumption); trivial.
Qed.

Lemma generator_of_shape (k : nat) (H0 : NdArray.t) :
  NdArray.nrows (generator_of k H0) = k /\
  NdArray.ncols (generator_of k H0) = (k + NdArray.nrows H0)%nat.
Proof. split; reflexivity. Qed.

(** The first [k] columns of the generator are the unit vectors. *)
Lemma generator_of_column (k : nat) (H0 : NdArray.t) (j : nat) :
  NdArray.ncols (NdArray.take_cols (Z.of_nat k) H0) = k ->
  (j < k)%nat ->
  NdArray.column (generator_of k H0) j = unit_vector j 0 k.
Proof.
  intros Hcols Hj. unfold NdArray.column, generator_of, unit_vector. simpl.
  rewrite !map_map.
  set (I := map (fun i => map (fun j0 => if Nat.eqb i j0 then 1 else 0) (seq 0 k)) (seq 0 k)).
  set (P := map (fun j0 => map (fun r => nth j0 r 0)
                               (map (fun r => slice_to r (Z.of_nat k)) (NdArray.rows H0)))
                (seq 0 (Z.to_nat (clamp_index (Z.of_nat (NdArray.ncols H0)) (Z.of_nat k))))).
  assert (HlenI : List.length I = k) by (unfold I; rewrite length_map, length_seq; reflexivity).
  assert (HlenP : List.length P = k).
  { unfold P. rewrite length_map, length_seq. exact Hcols. }
  apply nth_ext with (d := 0) (d' := 0).
  - rewrite !length_map, length_combine, length_seq, HlenI, HlenP. lia.
  - intros i Hi.
    rewrite length_map, length_combine, HlenI, HlenP, Nat.min_id in Hi.
    rewrite nth_map_default with (d := ([], [])) by (simpl; destruct j; reflexivity).
    rewrite combine_nth by congruence. simpl.
    assert (HrowI : nth i I [] = map (fun j0 => if Nat.eqb i j0 then 1 else 0) (seq 0 k)).
    { unfold I. rewrite nth_map_lt with (d := O) by (rewrite length_seq; lia).
      rewrite seq_nth by lia. reflexivity. }
    rewrite HrowI.
    rewrite nth_map_default with (d := 0) by reflexivity.
    rewrite nth_map_default with (d := 0) by reflexivity.
    rewrite app_nth1 by (rewrite length_map, length_seq; lia).
    rewrite nth_map_lt with (d := O) by (rewrite length_seq; lia).
    rewrite seq_nth by lia.
    rewrite nth_map_lt with (d := O) by (rewrite length_seq; lia).
    rewrite seq_nth by lia. simpl.
    destruct (Nat.eqb i j); reflexivity.
Qed.

(** Past the selected index the accumulator of the wrapped inner product
    does not move. *)
Lemma dot_uint8_unit_after (j : nat) (v : list Z) :
  forall (a n : nat) (acc : Z),
    (j < a)%nat -> is_bit acc ->
    fold_left (fun acc ab => wrap8 (acc + wrap8 (fst ab * snd ab)))
              (combine v (unit_vector j a n)) acc = acc.
Proof.
  induction v as [| x v IH]; intros a n acc Hja Hacc; [reflexivity |].
  destruct n as [| n]; [reflexivity |]. unfold unit_vector in *. simpl.
  replace (Nat.eqb a j) with false by (symmetry; apply Nat.eqb_neq; lia).
  rewrite Z.mul_0_r. change (wrap8 0) with 0. rewrite Z.add_0_r, wrap8_bit by exact Hacc.
  apply IH; [lia | exact Hacc].
Qed.

(** The wrapped inner product with a unit vector selects one entry. *)
Lemma dot_uint8_unit_from (j : nat) (v : list Z) :
  forall (a n : nat),
    Forall is_bit v -> List.length v = n -> (a <= j < a + n)%nat ->
    fold_left (fun acc ab => wrap8 (acc + wrap8 (fst ab * snd ab)))
              (combine v (unit_vector j a n)) 0 = nth (j - a) v 0.
Proof.
  induction v as [| x v IH]; intros a n Hbits Hlen Hj; simpl in Hlen; [lia |].
  destruct n as [| n]; [lia |]. injection Hlen as Hlen.
  inversion Hbits as [| x' v' Hx Hv]; subst.
  unfold unit_vector in *. simpl.
  destruct (Nat.eqb a j) eqn:Haj.
  - apply Nat.eqb_eq in Haj. subst a. rewrite Z.mul_1_r, Nat.sub_diag. simpl.
    rewrite (wrap8_bit x), (wrap8_bit x) by exact Hx.
    apply (dot_uint8_unit_after j v (S j) (List.length v) x); [lia | exact Hx].
  - apply Nat.eqb_neq in Haj. rewrite Z.mul_0_r. change (wrap8 (0 + wrap8 0)) with 0.
    rewrite IH by (trivial; lia).
    replace (j - a)%nat with (S (j - S a)) by lia. reflexivity.
Qed.

Lemma dot_uint8_unit (j k : nat) (m : list Z) :
  Forall is_bit m -> List.length m = k -> (j < k)%nat ->
  NdArray.dot_uint8 m (unit_vector j 0 k) = nth j m 0.
Proof.
  intros Hbits Hlen Hj. unfold NdArray.dot_uint8.
  rewrite dot_uint8_unit_from by (trivial; lia). rewrite Nat.sub_0_r. reflexivity.
Qed.

Lemma Forall_nth_bit (m : list Z) (j : nat) : Forall is_bit m -> is_bit (nth j m 0).
Proof.
  intros Hbits. destruct (Nat.lt_ge_cases j (List.length m)) as [Hlt | Hge].
  - apply Forall_forall with (x := nth j m 0) in Hbits; [exact Hbits | apply nth_In; exact Hlt].
  - rewrite nth_overflow by exact Hge. left. reflexivity.
Qed.

(** Encoding with the generator built from any parity-check matrix: the
    codeword has [k + nrows H0] bits and starts with the message. *)
Lemma encode_generator_of (k : nat) (H0 : NdArray.t) (m : list Z) :
  NdArray.ncols (NdArray.take_cols (Z.of_nat k) H0) = k ->
  Forall is_bit m -> List.length m = k ->
  exists c, Pipeline.encode m (generator_of k H0) = Ok c /\
            List.length c = (k + NdArray.nrows H0)%nat /\
            firstn k c = m.
Proof.
  intros Hcols Hbits Hlen.
  unfold Pipeline.encode, NdArray.vecmat_uint8.
  destruct (generator_of_shape k H0) as [-> ->].
  rewrite Hlen, Nat.eqb_refl. simpl. eexists. split; [reflexivity |].
  split; [rewrite !length_map, length_seq; reflexivity |].
  apply nth_ext with (d := 0) (d' := 0).
  - rewrite length_firstn, !length_map, length_seq. lia.
  - intros j Hj.
    rewrite length_firstn, !length_map, length_seq in Hj.
    rewrite nth_firstn. replace (j <? k)%nat with true by (symmetry; apply Nat.ltb_lt; lia).
    rewrite nth_map_lt with (d := 0) by (rewrite length_map, length_seq; lia).
    rewrite nth_map_lt with (d := O) by (rewrite length_seq; lia).
    rewrite seq_nth by lia. simpl.
    rewrite generator_of_column by (trivial; lia).
    rewrite dot_uint8_unit by (trivial; lia).
    destruct (Forall_nth_bit m j Hbits) as [-> | ->]; reflexivity.
Qed.

(** C8: for every generator matrix that [create_ldpc_matrices] returns and
    every message of [message_bits] bits, the encoder of
    [build_full_bitstream] succeeds and the first [message_bits] bits of
    the codeword are the message (128 bits for the default layout). *)
Theorem codeword_starts_with_message :
  forall (env : Backends) (protocol : Config.ProtocolConfig) (config : Config.LDPCConfig)
         (matrices : LDPCMatrices.t) (m : list Z),
    Pipeline.create_ldpc_matrices env protocol config = Ok matrices ->
    len m = LDPCMatrices.message_bits matrices ->
    Forall is_bit m ->
    exists c, Pipeline.encode m (LDPCMatrices.G matrices) = Ok c /\
              len c = LDPCMatrices.codeword_bits matrices /\
              slice_to c (LDPCMatrices.message_bits matrices) = m.
Proof.
  intros env protocol config matrices m Hcreate Hlen Hbits.
  apply create_ldpc_matrices_inv in Hcreate
    as (H0 & k & _ & _ & Hcols & Hk & Hn & _ & HG).
  rewrite HG, Hk, Hn. rewrite Hk in Hlen. unfold len in Hlen.
  apply Nat2Z.inj in Hlen.
  destruct (encode_generator_of k H0 m Hcols Hbits Hlen) as (c & Henc & Hclen & Hfirst).
  exists c. repeat split; trivial.
  - unfold len. rewrite Hclen. reflexivity.
  - rewrite slice_to_firstn by lia. rewrite Nat2Z.id. exact Hfirst.
Qed.

Lemma all_bits_Forall (l : list Z) : all_bits l = true -> Forall is_bit l.
Proof.
  unfold all_bits. rewrite forallb_forall. intros Hall. apply Forall_forall.
  intros b Hb. apply Hall in Hb. apply orb_true_iff in Hb as [Hb | Hb];
    apply Z.eqb_eq in Hb; [left | right]; exact Hb.
Qed.

Lemma create_systematic_matrices :
  Pipeline.create_ldpc_matrices (Fixtures.backends Fixtures.systematic_H)
                                Config.default_ProtocolConfig Config.default_LDPCConfig
    = Ok systematic_matrices.
Proof. vm_compute. reflexivity. Qed.

Lemma codeword_starts_with_message_witness :
  exists c, Pipeline.encode message_Hi (LDPCMatrices.G systematic_matrices) = Ok c /\
            len c = 160 /\ slice_to c 128 = message_Hi.
Proof.
  apply (codeword_starts_with_message
           (Fixtures.backends Fixtures.systematic_H) Config.default_ProtocolConfig
           Config.default_LDPCConfig systematic_matrices message_Hi).
  - vm_compute. reflexivity.
  - reflexivity.
  - apply all_bits_Forall. vm_compute. reflexivity.
Defined.

(* ===================================================================== *)
(** ** Frame layout (claim C7) *)
(* ===================================================================== *)

Lemma mapM_app {A B : Type} (f : A -> result B) (l1 l2 : list A) :
  mapM f (l1 ++ l2) =
  (r1 <- mapM f l1 ;; r2 <- mapM f l2 ;; Ok (r1 ++ r2)).
Proof.
  induction l1 as [| x l1 IH]; simpl.
  - destruct (mapM f l2); reflexivity.
  - destruct (f x) as [y | e]; [| reflexivity]. rewrite IH.
    destruct (mapM f l1) as [r1 | e]; [| reflexivity]. simpl.
    destruct (mapM f l2); reflexivity.
Qed.

Lemma mapM_int_of_char_zeros (n : nat) :
  mapM Utils.int_of_char (repeat "0"%char n) = Ok (repeat 0 n).
Proof.
  induction n as [| n IH]; [reflexivity |].
  simpl repeat. simpl mapM. rewrite IH. reflexivity.
Qed.

Lemma mapM_int_of_char_bin_pos (p : positive) :
  mapM Utils.int_of_char (Utils.bin_pos p) = Ok (pos_bits p).
Proof.
  induction p as [q IH | q IH |]; simpl; try reflexivity;
    rewrite mapM_app, IH; reflexivity.
Qed.

Lemma big_endian_value_snoc (bits : list Z) (b : Z) :
  big_endian_value (bits ++ [b]) = 2 * big_endian_value bits + b.
Proof. unfold big_endian_value. rewrite fold_left_app. reflexivity. Qed.

Lemma big_endian_value_zeros (n : nat) (bits : list Z) :
  big_endian_value (repeat 0 n ++ bits) = big_endian_value bits.
Proof.
  unfold big_endian_value. rewrite fold_left_app.
  replace (fold_left (fun acc b => 2 * acc + b) (repeat 0 n) 0) with 0; [reflexivity |].
  induction n as [| n IH]; [reflexivity | simpl; exact IH].
Qed.

Lemma pos_bits_value (p : positive) : big_endian_value (pos_bits p) = Zpos p.
Proof.
  induction p as [q IH | q IH |]; simpl; try reflexivity;
    rewrite big_endian_value_snoc, IH; lia.
Qed.

Lemma pos_bits_are_bits (p : positive) : Forall is_bit (pos_bits p).
Proof.
  induction p as [q IH | q IH |]; simpl.
  - apply Forall_app. split; [exact IH | constructor; [right; reflexivity | constructor]].
  - apply Forall_app. split; [exact IH | constructor; [left; reflexivity | constructor]].
  - constructor; [right; reflexivity | constructor].
Qed.

Lemma pos_bits_length_bound (p : positive) : 2 ^ len (pos_bits p) <= 2 * Zpos p.
Proof.
  unfold len. induction p as [q IH | q IH |]; simpl pos_bits;
    try (rewrite length_app, Nat2Z.inj_add; simpl List.length;
         rewrite Z.pow_add_r by lia; change (2 ^ Z.of_nat 1) with 2; lia).
  simpl. lia.
Qed.

Lemma pos_bits_fit (p : positive) (n : Z) : Zpos p < 2 ^ n -> len (pos_bits p) <= n.
Proof.
  intros Hlt. destruct (Z.le_gt_cases (len (pos_bits p)) n) as [Hle | Hgt]; [exact Hle |].
  pose proof (pos_bits_length_bound p) as Hb.
  assert (Hn : 0 <= n).
  { destruct (Z.le_gt_cases 0 n); [assumption |]. rewrite Z.pow_neg_r in Hlt by lia. lia. }
  assert (Hpow : 2 ^ (n + 1) <= 2 ^ len (pos_bits p)) by (apply Z.pow_le_mono_r; lia).
  rewrite Z.pow_add_r in Hpow by lia. lia.
Qed.

(** [int_to_bitstream], whenever it returns, returns the big-endian
    rendering of its argument. *)
Lemma int_to_bitstream_renders (value num_bits : Z) (bits : list Z) :
  Utils.int_to_bitstream value num_bits = Ok bits -> renders num_bits value bits.
Proof.
  unfold Utils.int_to_bitstream, Utils.format_0b.
  destruct (0 <? num_bits) eqn:Hn; [| discriminate]. apply Z.ltb_lt in Hn.
  destruct (value <? 2 ^ num_bits) eqn:Hfit; [| discriminate]. apply Z.ltb_lt in Hfit.
  destruct value as [| p | p]; simpl.
  - (* zero: one digit *)
    change ("0"%char :: nil) with (repeat "0"%char 1).
    rewrite <- repeat_app, mapM_int_of_char_zeros. intros Hbits. injection Hbits as <-.
    unfold renders, len. rewrite repeat_length. cbn [List.length]. repeat split.
    + lia.
    + apply Forall_forall. intros b Hb. apply repeat_spec in Hb. left. exact Hb.
    + rewrite <- (app_nil_r (repeat 0 _)). rewrite big_endian_value_zeros. reflexivity.
  - rewrite mapM_app, mapM_int_of_char_zeros, mapM_int_of_char_bin_pos. simpl.
    intros Hbits. injection Hbits as <-.
    assert (Hlen : len (Utils.bin_pos p) = len (pos_bits p)).
    { clear. unfold len. f_equal.
      induction p as [q IH | q IH |]; simpl; try reflexivity;
        rewrite !length_app, IH; reflexivity. }
    pose proof (pos_bits_fit p num_bits Hfit) as Hle.
    unfold renders. repeat split.
    + unfold len in *. rewrite length_app, repeat_length. cbn [List.length]. lia.
    + apply Forall_app. split; [| apply pos_bits_are_bits].
      apply Forall_forall. intros b Hb. apply repeat_spec in Hb. left. exact Hb.
    + rewrite big_endian_value_zeros. apply pos_bits_value.
  - discriminate.
Qed.

Lemma encode_length (m : list Z) (G : NdArray.t) (c : list Z) :
  Pipeline.encode m G = Ok c -> List.length c = NdArray.ncols G.
Proof.
  unfold Pipeline.encode, NdArray.vecmat_uint8.
  destruct (Nat.eqb (List.length m) (NdArray.nrows G)); [| discriminate].
  simpl. intros Hc. injection Hc as <-. rewrite !length_map, length_seq. reflexivity.
Qed.

(** One turn of the assembly loop under the default protocol: the frame
    appended is [sync ‖ target ‖ command ‖ codeword]. *)
Lemma frame_body_default
      (payload_bits : list Z) (matrices : LDPCMatrices.t) (total_frames : Z)
      (frames : list (list Z)) (logger : list log_entry) (frame_idx : Z)
      (state' : list (list Z) * list log_entry) :
  LDPCMatrices.message_bits matrices = 128 ->
  NdArray.ncols (LDPCMatrices.G matrices) = 160%nat ->
  Pipeline.frame_body payload_bits Config.default_ProtocolConfig matrices total_frames
                      Fixtures.sync_bits target_id_bits (frames, logger) frame_idx
    = Ok state' ->
  exists command_bits codeword,
    fst state' = frames ++ [Fixtures.sync_bits ++ target_id_bits ++ command_bits ++ codeword] /\
    Utils.int_to_bitstream (command_word frame_idx total_frames) 32 = Ok command_bits /\
    List.length codeword = 160%nat.
Proof.
  intros Hk Hn. unfold Pipeline.frame_body, Pipeline.shl.
  cbn [Config.current_frame_shift Config.total_frames_shift Config.default_ProtocolConfig
       Config.command_opcode Config.frame_layout Config.command_type_symbols
       Config.default_FrameLayout].
  change (0 <=? 16) with true. change (0 <=? 24) with true. cbn [Py.bind].
  change (16 * 2) with 32. rewrite Hk.
  intros Hrun. bind_inv Hrun. rename a into command_bits.
  bind_inv Hrun. rename a into codeword.
  apply encode_length in Hstep0. rewrite Hn in Hstep0.
  injection Hrun as <-. exists command_bits, codeword. cbn [fst].
  rewrite slice_to_firstn, slice_from_skipn by lia. rewrite firstn_skipn.
  repeat split; trivial.
Qed.

(** The whole loop, over the indices [a, a + m). *)
Lemma foldM_frame_body_default
      (payload_bits : list Z) (matrices : LDPCMatrices.t) (total_frames : Z) :
  LDPCMatrices.message_bits matrices = 128 ->
  NdArray.ncols (LDPCMatrices.G matrices) = 160%nat ->
  forall (m a : nat) (frames : list (list Z)) (logger : list log_entry)
         (state' : list (list Z) * list log_entry),
    foldM (Pipeline.frame_body payload_bits Config.default_ProtocolConfig matrices
                               total_frames Fixtures.sync_bits target_id_bits)
          (map Z.of_nat (seq a m)) (frames, logger) = Ok state' ->
    exists new_frames,
      fst state' = frames ++ new_frames /\
      List.length new_frames = m /\
      forall i, (i < m)%nat ->
        exists command_bits codeword,
          nth i new_frames [] =
            Fixtures.sync_bits ++ target_id_bits ++ command_bits ++ codeword /\
          Utils.int_to_bitstream (command_word (Z.of_nat (a + i)) total_frames) 32
            = Ok command_bits /\
          List.length codeword = 160%nat.
Proof.
  intros Hk Hn. induction m as [| m IH]; intros a frames logger state' Hrun.
  - simpl in Hrun. injection Hrun as <-. exists []. simpl.
    rewrite app_nil_r. repeat split; trivial. intros i Hi; lia.
  - cbn [seq map foldM] in Hrun.
    destruct (Pipeline.frame_body payload_bits Config.default_ProtocolConfig matrices
                total_frames Fixtures.sync_bits target_id_bits (frames, logger) (Z.of_nat a))
      as [[frames1 logger1] | e] eqn:Hbody; [| discriminate].
    apply (frame_body_default _ _ _ _ _ _ _ Hk Hn) in Hbody
      as (command_bits & codeword & Hframes1 & Hcmd & Hlen).
    cbn [fst] in Hframes1. subst frames1.
    apply IH in Hrun as (rest & Hstate & Hrest & Hnth).
    exists ((Fixtures.sync_bits ++ target_id_bits ++ command_bits ++ codeword) :: rest).
    repeat split.
    + rewrite Hstate, <- app_assoc. reflexivity.
    + simpl. rewrite Hrest. reflexivity.
    + intros [| i] Hi.
      * exists command_bits, codeword. rewrite Nat.add_0_r. repeat split; trivial.
      * destruct (Hnth i) as (cb & cw & Hfr & Hc & Hl); [lia |].
        exists cb, cw. replace (a + S i)%nat with (S a + i)%nat by lia.
        repeat split; trivial.
Qed.

Lemma slice_at {A : Type} (stream pre x post : list A) (s e : Z) :
  stream = pre ++ x ++ post -> len pre = s -> s + len x = e -> slice stream s e = x.
Proof.
  intros -> <- <-. unfold slice, clamp_index, len.
  replace (Z.of_nat (List.length pre) <? 0) with false by (symmetry; apply Z.ltb_ge; lia).
  replace (Z.of_nat (List.length pre) + Z.of_nat (List.length x) <? 0) with false
    by (symmetry; apply Z.ltb_ge; lia).
  rewrite !length_app, !Nat2Z.inj_add, !Z.min_l by lia.
  replace (Z.of_nat (List.length pre) + Z.of_nat (List.length x) - Z.of_nat (List.length pre))
    with (Z.of_nat (List.length x)) by lia.
  rewrite !Nat2Z.id, skipn_app, skipn_all, Nat.sub_diag. simpl.
  rewrite firstn_app, firstn_all, Nat.sub_diag. simpl. apply app_nil_r.
Qed.

Lemma length_concat_uniform {A : Type} (c : nat) (l : list (list A)) :
  Forall (fun f => List.length f = c) l -> List.length (List.concat l) = (c * List.length l)%nat.
Proof.
  induction 1 as [| f l Hf Hl IH]; simpl; [lia |].
  rewrite length_app, IH, Hf. lia.
Qed.

Lemma ceil_div_128 (n : Z) : - ((- n) / 128) = (n + 127) / 128.
Proof.
  pose proof (Z.div_mod (- n) 128 ltac:(lia)) as H1.
  pose proof (Z.mod_pos_bound (- n) 128 ltac:(lia)) as H2.
  pose proof (Z.div_mod (n + 127) 128 ltac:(lia)) as H3.
  pose proof (Z.mod_pos_bound (n + 127) 128 ltac:(lia)) as H4.
  lia.
Qed.

Lemma renders_sync_bits : renders 32 2779096485 Fixtures.sync_bits.
Proof.
  split; [reflexivity | split; [apply all_bits_Forall |]; vm_compute; reflexivity].
Qed.

Lemma renders_target_id_bits : renders 32 3735928559 target_id_bits.
Proof.
  split; [reflexivity | split; [apply all_bits_Forall |]; vm_compute; reflexivity].
Qed.

(** C7: for the default protocol and any matrices returned by
    [create_ldpc_matrices], whenever the frame assembler returns, the
    stream has [total_frames · 256] bits, [total_frames] is [⌈|payload| / 128⌉]
    (1 for the empty payload), and in every frame [i] the bits [0, 32) are
    the big-endian rendering of [0xA5A5A5A5], the bits [32, 64) that of
    [0xDEADBEEF], and the bits [64, 96) that of
    [opcode | (i << 16) | (total_frames << 24)] with [opcode = 1]. *)
Theorem frame_header_layout :
  forall (env : Backends) (config : Config.LDPCConfig) (matrices : LDPCMatrices.t)
         (payload_bits : list Z) (logger : option (list log_entry))
         (stream : list Z) (total_frames : Z) (entries : list log_entry),
    Pipeline.create_ldpc_matrices env Config.default_ProtocolConfig config = Ok matrices ->
    Pipeline.build_full_bitstream payload_bits Config.default_ProtocolConfig matrices logger
      = Ok (stream, total_frames, entries) ->
    total_frames = frames_needed (len payload_bits) /\
    len stream = total_frames * 256 /\
    forall i, 0 <= i < total_frames ->
      renders 32 2779096485 (slice stream (i * 256) (i * 256 + 32)) /\
      renders 32 3735928559 (slice stream (i * 256 + 32) (i * 256 + 64)) /\
      renders 32 (command_word i total_frames) (slice stream (i * 256 + 64) (i * 256 + 96)).
Proof.
  intros env config matrices payload_bits logger stream total_frames entries Hcreate Hbuild.
  apply create_ldpc_matrices_inv in Hcreate
    as (H0 & k & Hk128 & Hn160 & _ & Hk & Hn & _ & HG).
  change (Config.message_bits (Config.frame_layout Config.default_ProtocolConfig))
    with 128 in Hk128.
  change (Config.codeword_bits (Config.frame_layout Config.default_ProtocolConfig))
    with 160 in Hn160.
  assert (Hmsg : LDPCMatrices.message_bits matrices = 128) by congruence.
  assert (Hcols : NdArray.ncols (LDPCMatrices.G matrices) = 160%nat).
  { rewrite HG. destruct (generator_of_shape k H0) as [_ ->]. lia. }
  unfold Pipeline.build_full_bitstream in Hbuild.
  bind_inv Hbuild. rename a into tf.
  assert (Htf : tf = frames_needed (len payload_bits)).
  { unfold frames_needed. destruct (len payload_bits =? 0).
    - injection Hstep as <-. reflexivity.
    - rewrite Hmsg in Hstep. unfold ceil_div in Hstep. simpl in Hstep.
      injection Hstep as <-. apply ceil_div_128. }
  assert (Hpos : 1 <= tf).
  { rewrite Htf. unfold frames_needed. destruct (len payload_bits =? 0) eqn:Hz; [lia |].
    apply Z.eqb_neq in Hz. pose proof (len_nonneg payload_bits).
    apply Z.div_le_lower_bound; lia. }
  destruct (negb (Config.max_frames Config.default_ProtocolConfig <? tf)); [| discriminate].
  change (Utils.hex_to_bitstream (Config.sync_sequence_hex Config.default_ProtocolConfig)
            (Config.sync_symbols (Config.frame_layout Config.default_ProtocolConfig) * 2))
    with (Ok Fixtures.sync_bits) in Hbuild.
  change (Utils.hex_to_bitstream (Config.target_id_hex Config.default_ProtocolConfig)
            (Config.target_id_symbols (Config.frame_layout Config.default_ProtocolConfig) * 2))
    with (Ok target_id_bits) in Hbuild.
  cbn [Py.bind] in Hbuild.
  bind_inv Hbuild. destruct a as [frames logger'].
  injection Hbuild as <- <- <-.
  unfold range in Hstep0.
  apply (foldM_frame_body_default _ _ _ Hmsg Hcols) in Hstep0
    as (new_frames & Hframes & Hcount & Hnth).
  cbn [fst app] in Hframes. subst frames.
  assert (Huniform : Forall (fun f => List.length f = 256%nat) new_frames).
  { apply Forall_forall. intros f Hf.
    apply In_nth with (d := []) in Hf as (i & Hi & <-).
    destruct (Hnth i) as (cb & cw & -> & Hcmd & Hlen); [lia |].
    apply int_to_bitstream_renders in Hcmd as (Hcb & _ & _).
    unfold len in Hcb. rewrite !length_app, Hlen.
    change (List.length Fixtures.sync_bits) with 32%nat.
    change (List.length target_id_bits) with 32%nat. lia. }
  split; [exact Htf |]. split.
  { unfold len. rewrite (length_concat_uniform 256 _ Huniform), Hcount. lia. }
  intros i Hi.
  assert (Hi' : (Z.to_nat i < List.length new_frames)%nat) by lia.
  destruct (nth_split new_frames [] Hi') as (before & after & Hsplit & Hbefore).
  destruct (Hnth (Z.to_nat i)) as (cb & cw & Hframe & Hcmd & Hlen); [lia |].
  simpl in Hcmd. rewrite Z2Nat.id in Hcmd by lia.
  apply int_to_bitstream_renders in Hcmd as Hrender.
  assert (Hpre : len (List.concat before) = i * 256).
  { rewrite Hsplit in Huniform. apply Forall_app in Huniform as [Hb _].
    unfold len. rewrite (length_concat_uniform 256 _ Hb), Hbefore. lia. }
  assert (Hstream : List.concat new_frames =
                    List.concat before
                    ++ (Fixtures.sync_bits ++ target_id_bits ++ cb ++ cw)
                    ++ List.concat after).
  { rewrite Hsplit at 1. rewrite concat_app. simpl. rewrite Hframe. reflexivity. }
  assert (Hsync : slice (List.concat new_frames) (i * 256) (i * 256 + 32)
                  = Fixtures.sync_bits).
  { apply slice_at with (pre := List.concat before)
                        (post := target_id_bits ++ cb ++ cw ++ List.concat after);
      [rewrite Hstream, <- !app_assoc; reflexivity | exact Hpre | reflexivity]. }
  assert (Htarget : slice (List.concat new_frames) (i * 256 + 32) (i * 256 + 64)
                    = target_id_bits).
  { apply slice_at with (pre := List.concat before ++ Fixtures.sync_bits)
                        (post := cb ++ cw ++ List.concat after);
      [rewrite Hstream, <- !app_assoc; reflexivity | | change (len target_id_bits) with 32; lia].
    unfold len in *. rewrite length_app.
    change (List.length Fixtures.sync_bits) with 32%nat. lia. }
  assert (Hcommand : slice (List.concat new_frames) (i * 256 + 64) (i * 256 + 96) = cb).
  { destruct Hrender as (Hcblen & _ & _).
    apply slice_at with (pre := List.concat before ++ Fixtures.sync_bits ++ target_id_bits)
                        (post := cw ++ List.concat after);
      [rewrite Hstream, <- !app_assoc; reflexivity | | lia].
    unfold len in *. rewrite !length_app.
    change (List.length Fixtures.sync_bits) with 32%nat.
    change (List.length target_id_bits) with 32%nat. lia. }
  rewrite Hsync, Htarget, Hcommand.
  split; [exact renders_sync_bits |]. split; [exact renders_target_id_bits | exact Hrender].
Qed.

Lemma frame_header_layout_witness :
  1 = frames_needed (len payload_Hi) /\
  len stream_Hi = 1 * 256 /\
  forall i, 0 <= i < 1 ->
    renders 32 2779096485 (slice stream_Hi (i * 256) (i * 256 + 32)) /\
    renders 32 3735928559 (slice stream_Hi (i * 256 + 32) (i * 256 + 64)) /\
    renders 32 (command_word i 1) (slice stream_Hi (i * 256 + 64) (i * 256 + 96)).
Proof.
  apply (frame_header_layout (Fixtures.backends Fixtures.systematic_H)
                             Config.default_LDPCConfig systematic_matrices payload_Hi None
                             stream_Hi 1 entries_Hi).
  - vm_compute. reflexivity.
  - vm_compute. reflexivity.
Defined.

(* ===================================================================== *)
(** ** Orthogonality of generator and parity checks (claim C2) *)
(* ===================================================================== *)

Lemma dot_acc (l : list (Z * Z)) (acc : Z) :
  fold_left (fun a ab => a + fst ab * snd ab) l acc
  = acc + fold_left (fun a ab => a + fst ab * snd ab) l 0.
Proof.
  revert acc. induction l as [| x l IH]; intros acc; simpl; [lia |].
  rewrite IH. rewrite (IH (fst x * snd x)). lia.
Qed.

Lemma dot_cons (x y : Z) (v w : list Z) :
  NdArray.dot (x :: v) (y :: w) = x * y + NdArray.dot v w.
Proof. unfold NdArray.dot. simpl. rewrite dot_acc. lia. Qed.

Lemma dot_app (v1 v2 w1 w2 : list Z) :
  List.length v1 = List.length w1 ->
  NdArray.dot (v1 ++ v2) (w1 ++ w2) = NdArray.dot v1 w1 + NdArray.dot v2 w2.
Proof.
  revert w1. induction v1 as [| x v1 IH]; intros [| y w1] Hlen; simpl in Hlen; try lia.
  - reflexivity.
  - simpl. rewrite !dot_cons, IH by lia. lia.
Qed.

Lemma dot_comm (v w : list Z) : NdArray.dot v w = NdArray.dot w v.
Proof.
  revert w. induction v as [| x v IH]; intros [| y w]; try reflexivity.
  rewrite !dot_cons, IH. lia.
Qed.

(** The exact inner product with a unit vector selects one entry. *)
Lemma dot_unit_vector (j : nat) (v : list Z) :
  forall a n, List.length v = n -> (a <= j < a + n)%nat ->
    NdArray.dot (unit_vector j a n) v = nth (j - a) v 0.
Proof.
  induction v as [| x v IH]; intros a n Hlen Hj; simpl in Hlen; [lia |].
  destruct n as [| n]; [lia |]. injection Hlen as Hlen.
  unfold unit_vector in *. simpl. rewrite dot_cons.
  destruct (Nat.eqb a j) eqn:Haj.
  - apply Nat.eqb_eq in Haj. subst a. rewrite Nat.sub_diag. cbn [nth].
    assert (Hrest : forall (u : list Z) b m, (j < b)%nat ->
               NdArray.dot (map (fun i => if Nat.eqb i j then 1 else 0) (seq b m)) u = 0).
    { clear. induction u as [| y u IHu]; intros b m Hb; destruct m as [| m]; try reflexivity.
      simpl. rewrite dot_cons.
      replace (Nat.eqb b j) with false by (symmetry; apply Nat.eqb_neq; lia).
      rewrite IHu by lia. lia. }
    rewrite Hrest by lia. lia.
  - apply Nat.eqb_neq in Haj. rewrite IH by (trivial; lia).
    replace (j - a)%nat with (S (j - S a)) by lia. cbn [nth]. lia.
Qed.

(** The rows of the generator: a unit vector followed by the parities of
    one column of the parity-check matrix. *)
Lemma generator_of_row (k : nat) (H0 : NdArray.t) (i : nat) :
  NdArray.ncols (NdArray.take_cols (Z.of_nat k) H0) = k ->
  (i < k)%nat ->
  nth i (NdArray.rows (generator_of k H0)) []
  = unit_vector i 0 k ++ map (fun r => (nth i r 0) mod 2) (NdArray.rows H0).
Proof.
  intros Hcols Hi. unfold generator_of. simpl. rewrite !map_map.
  set (I := map (fun i0 => map (fun j => if Nat.eqb i0 j then 1 else 0) (seq 0 k)) (seq 0 k)).
  set (P := map (fun j => map (fun r => nth j r 0)
                              (map (fun r => slice_to r (Z.of_nat k)) (NdArray.rows H0)))
                (seq 0 (Z.to_nat (clamp_index (Z.of_nat (NdArray.ncols H0)) (Z.of_nat k))))).
  assert (HlenI : List.length I = k) by (unfold I; rewrite length_map, length_seq; reflexivity).
  assert (HlenP : List.length P = k) by (unfold P; rewrite length_map, length_seq; exact Hcols).
  rewrite nth_map_lt with (d := ([], []))
    by (rewrite length_combine, HlenI, HlenP; lia).
  rewrite combine_nth by congruence. simpl.
  unfold I. rewrite nth_map_lt with (d := O) by (rewrite length_seq; lia).
  unfold P. rewrite nth_map_lt with (d := O) by (rewrite length_seq; simpl in Hcols; lia).
  rewrite !seq_nth by (simpl in Hcols; lia). simpl.
  rewrite !map_app, !map_map. f_equal.
  - unfold unit_vector. apply map_ext_in. intros j Hj.
    destruct (Nat.eqb i j) eqn:Hij.
    + apply Nat.eqb_eq in Hij. subst j. rewrite Nat.eqb_refl. reflexivity.
    + rewrite Nat.eqb_sym, Hij. reflexivity.
  - apply map_ext. intros r.
    rewrite slice_to_firstn by lia. rewrite Nat2Z.id, nth_firstn.
    replace (i <? k)%nat with true by (symmetry; apply Nat.ltb_lt; lia).
    unfold wrap8. pose proof (Z.mod_pos_bound (nth i r 0) 2 ltac:(lia)).
    apply Z.mod_small. lia.
Qed.

Lemma parity_wrap8 (a : Z) : (wrap8 a + a mod 2) mod 2 = 0.
Proof.
  unfold wrap8.
  pose proof (Z.div_mod a 256 ltac:(lia)) as H1.
  pose proof (Z.mod_pos_bound a 256 ltac:(lia)) as H2.
  pose proof (Z.div_mod a 2 ltac:(lia)) as H3.
  pose proof (Z.mod_pos_bound a 2 ltac:(lia)) as H4.
  replace (a mod 256 + a mod 2) with (2 * (a mod 2 + a / 2 - 128 * (a / 256))) by lia.
  rewrite Z.mul_comm. apply Z.mod_mul. lia.
Qed.

(** X9: When the parity-check matrix handed back by the backend is in standard
    form [[A | I]], the generator built by [create_ldpc_matrices] is
    orthogonal to it. *)
Lemma standard_form_orthogonal
      (env : Backends) (protocol : Config.ProtocolConfig) (config : Config.LDPCConfig)
      (matrices : LDPCMatrices.t) :
  Pipeline.create_ldpc_matrices env protocol config = Ok matrices ->
  standard_form (Z.to_nat (LDPCMatrices.message_bits matrices)) (LDPCMatrices.H matrices) ->
  orthogonal_mod2 (LDPCMatrices.G matrices) (LDPCMatrices.H matrices).
Proof.
  intros Hcreate Hstd.
  apply create_ldpc_matrices_inv in Hcreate
    as (H0 & k & _ & _ & Hcols & Hk & _ & HH & HG).
  rewrite Hk, Nat2Z.id in Hstd. rewrite HG, HH in *. clear HG HH Hk.
  unfold orthogonal_mod2, NdArray.mul_transpose.
  assert (HlenG : List.length (NdArray.rows (generator_of k H0)) = k).
  { unfold generator_of. simpl. rewrite !length_map, length_combine, !length_map, !length_seq.
    simpl in Hcols. lia. }
  apply Forall_forall. intros out Hout.
  apply in_map_iff in Hout as (g & <- & Hg).
  apply In_nth with (d := []) in Hg as (i & Hi & <-). rewrite HlenG in Hi.
  apply Forall_forall. intros x Hx.
  apply in_map_iff in Hx as (h & <- & Hh).
  apply In_nth with (d := []) in Hh as (t & Ht & <-).
  destruct (Hstd t Ht) as (A & Hrow & HlenA).
  rewrite generator_of_row by assumption. rewrite Hrow.
  rewrite dot_app by (unfold unit_vector; rewrite length_map, length_seq; lia).
  rewrite dot_unit_vector by (trivial; lia).
  rewrite dot_comm, dot_unit_vector
    by (trivial; simpl in *; rewrite !length_map in *; trivial; lia).
  rewrite !Nat.sub_0_r.
  (* both entries come from [H0[t][i]] *)
  assert (Hentry : nth i A 0 = wrap8 (nth i (nth t (NdArray.rows H0) []) 0)).
  { transitivity (nth i (nth t (NdArray.rows (NdArray.astype_uint8 H0)) []) 0).
    - rewrite Hrow, app_nth1 by lia. reflexivity.
    - simpl. simpl in Ht. rewrite length_map in Ht.
      rewrite nth_map_lt with (d := []) by exact Ht.
      destruct (Nat.lt_ge_cases i (List.length (nth t (NdArray.rows H0) []))) as [Hlt | Hge].
      + apply nth_map_lt. exact Hlt.
      + rewrite !nth_overflow; [reflexivity | exact Hge | rewrite length_map; exact Hge]. }
  simpl in Ht. rewrite length_map in Ht.
  rewrite nth_map_lt with (d := []) by exact Ht.
  rewrite Hentry. apply parity_wrap8.
Qed.

(** C2 (the code departs from the claim): for a frame layout with
    [k = 2], [n = 4] and a (2, 4)-regular code, every parity-check matrix
    has all entries equal to one; [create_ldpc_matrices] accepts it and
    returns [G = [[1,0,1,1],[0,1,1,1]]], and every entry of [G · Hᵀ] is
    3, which is odd.  The construction [[I_k | H[:, :k]ᵀ]] yields a
    generator only for a matrix in standard form
    ([standard_form_orthogonal]). *)
Theorem generator_not_orthogonal_all_ones :
  Pipeline.create_ldpc_matrices (Fixtures.backends Fixtures.all_ones_2x4)
                                Fixtures.protocol_k2_n4 Fixtures.ldpc_2_4
    = Ok {| LDPCMatrices.H := Fixtures.all_ones_2x4;
            LDPCMatrices.G := {| NdArray.nrows := 2; NdArray.ncols := 4;
                                 NdArray.rows := [[1; 0; 1; 1]; [0; 1; 1; 1]] |};
            LDPCMatrices.message_bits := 2;
            LDPCMatrices.codeword_bits := 4 |} /\
  map (map (fun x => x mod 2))
      (NdArray.mul_transpose {| NdArray.nrows := 2; NdArray.ncols := 4;
                                NdArray.rows := [[1; 0; 1; 1]; [0; 1; 1; 1]] |}
                             Fixtures.all_ones_2x4)
    = [[1; 1]; [1; 1]].
Proof. split; vm_compute; reflexivity. Qed.

(* ===================================================================== *)
(** ** Acceptance by the frame assembler (claims C4 and C7) *)
(* ===================================================================== *)

Lemma lor_below_pow2 (a b n : Z) :
  0 <= n -> 0 <= a < 2 ^ n -> 0 <= b < 2 ^ n -> 0 <= Z.lor a b < 2 ^ n.
Proof.
  intros Hn Ha Hb. split; [apply Z.lor_nonneg; lia |].
  destruct (Z.eq_dec (Z.lor a b) 0) as [-> | Hnz]; [lia |].
  assert (Hnpos : 0 < n).
  { destruct (Z.eq_dec n 0) as [-> | Hn0]; [| lia].
    change (2 ^ 0) with 1 in *. replace a with 0 in Hnz by lia.
    replace b with 0 in Hnz by lia. contradiction Hnz. reflexivity. }
  apply Z.log2_lt_pow2; [pose proof (proj2 (Z.lor_nonneg a b) (conj (proj1 Ha) (proj1 Hb))); lia |].
  rewrite Z.log2_lor by lia.
  apply Z.max_lub_lt.
  - destruct (Z.eq_dec a 0) as [-> | Ha0]; [simpl; lia | apply Z.log2_lt_pow2; lia].
  - destruct (Z.eq_dec b 0) as [-> | Hb0]; [simpl; lia | apply Z.log2_lt_pow2; lia].
Qed.

Lemma command_word_fits (i total : Z) :
  0 <= i < 256 -> 0 <= total < 256 -> 0 <= command_word i total < 2 ^ 32.
Proof.
  intros Hi Ht. unfold command_word.
  assert (Hs16 : 0 <= Z.shiftl i 16 < 2 ^ 32).
  { rewrite Z.shiftl_mul_pow2 by lia. change (2 ^ 16) with 65536.
    change (2 ^ 32) with 4294967296. lia. }
  assert (Hs24 : 0 <= Z.shiftl total 24 < 2 ^ 32).
  { rewrite Z.shiftl_mul_pow2 by lia. change (2 ^ 24) with 16777216.
    change (2 ^ 32) with 4294967296. lia. }
  apply lor_below_pow2; [lia | | exact Hs24].
  apply lor_below_pow2; [lia | | exact Hs16].
  change (2 ^ 32) with 4294967296. lia.
Qed.

(** [int_to_bitstream] returns on every value that fits. *)
Lemma int_to_bitstream_ok (value num_bits : Z) :
  0 < num_bits -> 0 <= value < 2 ^ num_bits ->
  exists bits, Utils.int_to_bitstream value num_bits = Ok bits.
Proof.
  intros Hn [Hlo Hhi]. unfold Utils.int_to_bitstream, Utils.format_0b.
  replace (0 <? num_bits) with true by (symmetry; apply Z.ltb_lt; lia).
  replace (value <? 2 ^ num_bits) with true by (symmetry; apply Z.ltb_lt; lia).
  destruct value as [| p | p]; [| | lia]; simpl.
  - change ("0"%char :: nil) with (repeat "0"%char 1).
    rewrite <- repeat_app, mapM_int_of_char_zeros. eexists. reflexivity.
  - rewrite mapM_app, mapM_int_of_char_zeros, mapM_int_of_char_bin_pos. simpl.
    eexists. reflexivity.
Qed.

Lemma slice_length_le {A : Type} (l : list A) (s e : Z) :
  0 <= s <= e -> len (slice l s e) <= e - s.
Proof.
  intros Hse. unfold slice, clamp_index, len.
  replace (s <? 0) with false by (symmetry; apply Z.ltb_ge; lia).
  replace (e <? 0) with false by (symmetry; apply Z.ltb_ge; lia).
  rewrite length_firstn, length_skipn. lia.
Qed.

(** One turn of the assembly loop returns as long as the frame index and
    the frame count fit their 8-bit fields. *)
Lemma frame_body_default_ok
      (payload_bits : list Z) (matrices : LDPCMatrices.t) (total_frames : Z)
      (state : list (list Z) * list log_entry) (frame_idx : Z) :
  LDPCMatrices.message_bits matrices = 128 ->
  NdArray.nrows (LDPCMatrices.G matrices) = 128%nat ->
  0 <= frame_idx < total_frames -> total_frames <= 255 ->
  exists state',
    Pipeline.frame_body payload_bits Config.default_ProtocolConfig matrices total_frames
                        Fixtures.sync_bits target_id_bits state frame_idx = Ok state'.
Proof.
  intros Hk Hrows Hi Htf. destruct state as [frames logger].
  unfold Pipeline.frame_body, Pipeline.shl.
  cbn [Config.current_frame_shift Config.total_frames_shift Config.default_ProtocolConfig
       Config.command_opcode Config.frame_layout Config.command_type_symbols
       Config.default_FrameLayout].
  change (0 <=? 16) with true. change (0 <=? 24) with true. cbn [Py.bind].
  change (16 * 2) with 32. rewrite Hk.
  destruct (int_to_bitstream_ok (command_word frame_idx total_frames) 32) as [cb Hcb];
    [lia | apply command_word_fits; lia |].
  unfold command_word in Hcb. rewrite Hcb. cbn [Py.bind].
  set (chunk := slice payload_bits (frame_idx * 128) ((frame_idx + 1) * 128)).
  assert (Hchunk : len chunk <= 128).
  { pose proof (slice_length_le payload_bits (frame_idx * 128) ((frame_idx + 1) * 128)) as Hle.
    fold chunk in Hle. lia. }
  set (padded := if len chunk <? 128 then Pipeline.pad_right chunk (128 - len chunk) else chunk).
  assert (Hpadded : List.length padded = 128%nat).
  { unfold padded. destruct (len chunk <? 128) eqn:Hshort.
    - apply Z.ltb_lt in Hshort. unfold Pipeline.pad_right, len in *.
      rewrite length_app, repeat_length. lia.
    - apply Z.ltb_ge in Hshort. unfold len in *. lia. }
  unfold Pipeline.encode, NdArray.vecmat_uint8.
  rewrite Hpadded, Hrows. cbn [Nat.eqb Py.bind]. eexists. reflexivity.
Qed.

Lemma foldM_frame_body_default_ok
      (payload_bits : list Z) (matrices : LDPCMatrices.t) (total_frames : Z) :
  LDPCMatrices.message_bits matrices = 128 ->
  NdArray.nrows (LDPCMatrices.G matrices) = 128%nat ->
  total_frames <= 255 ->
  forall (m a : nat) (state : list (list Z) * list log_entry),
    Z.of_nat (a + m) <= total_frames ->
    exists state',
      foldM (Pipeline.frame_body payload_bits Config.default_ProtocolConfig matrices
                                 total_frames Fixtures.sync_bits target_id_bits)
            (map Z.of_nat (seq a m)) state = Ok state'.
Proof.
  intros Hk Hrows Htf. induction m as [| m IH]; intros a state Ham.
  - exists state. reflexivity.
  - cbn [seq map foldM].
    destruct (frame_body_default_ok payload_bits matrices total_frames state (Z.of_nat a)
                Hk Hrows) as [state1 ->]; [lia | lia |].
    apply IH. lia.
Qed.

(** For the default protocol the assembler returns on every payload that
    needs at most 255 frames. *)
Lemma build_full_bitstream_accepts
      (env : Backends) (config : Config.LDPCConfig) (matrices : LDPCMatrices.t)
      (payload_bits : list Z) (logger : option (list log_entry)) :
  Pipeline.create_ldpc_matrices env Config.default_ProtocolConfig config = Ok matrices ->
  frames_needed (len payload_bits) <= 255 ->
  exists stream entries,
    Pipeline.build_full_bitstream payload_bits Config.default_ProtocolConfig matrices logger
      = Ok (stream, frames_needed (len payload_bits), entries).
Proof.
  intros Hcreate Hfit.
  apply create_ldpc_matrices_inv in Hcreate
    as (H0 & k & Hk128 & _ & _ & Hk & _ & _ & HG).
  change (Config.message_bits (Config.frame_layout Config.default_ProtocolConfig))
    with 128 in Hk128.
  assert (Hmsg : LDPCMatrices.message_bits matrices = 128) by congruence.
  assert (Hrows : NdArray.nrows (LDPCMatrices.G matrices) = 128%nat).
  { rewrite HG. destruct (generator_of_shape k H0) as [-> _]. lia. }
  unfold Pipeline.build_full_bitstream.
  assert (Htf : (if len payload_bits =? 0 then Ok 1
                 else ceil_div (len payload_bits) (LDPCMatrices.message_bits matrices))
                = Ok (frames_needed (len payload_bits))).
  { unfold frames_needed. destruct (len payload_bits =? 0); [reflexivity |].
    rewrite Hmsg. unfold ceil_div. simpl. rewrite ceil_div_128. reflexivity. }
  rewrite Htf. cbn [Py.bind].
  set (tf := frames_needed (len payload_bits)) in *.
  assert (Hpos : 0 <= tf).
  { unfold tf, frames_needed. destruct (len payload_bits =? 0); [lia |].
    pose proof (len_nonneg payload_bits). apply Z.div_pos; lia. }
  replace (Config.max_frames Config.default_ProtocolConfig <? tf) with false
    by (symmetry; apply Z.ltb_ge; simpl; lia).
  cbn [negb].
  change (Utils.hex_to_bitstream (Config.sync_sequence_hex Config.default_ProtocolConfig)
            (Config.sync_symbols (Config.frame_layout Config.default_ProtocolConfig) * 2))
    with (Ok Fixtures.sync_bits).
  change (Utils.hex_to_bitstream (Config.target_id_hex Config.default_ProtocolConfig)
            (Config.target_id_symbols (Config.frame_layout Config.default_ProtocolConfig) * 2))
    with (Ok target_id_bits).
  cbn [Py.bind]. unfold range.
  destruct (foldM_frame_body_default_ok payload_bits matrices tf Hmsg Hrows Hfit
              (Z.to_nat tf) 0
              ([], Utils.emit match logger with None => [] | Some entries => entries end
                              (LogPayloadFrames tf)))
    as [[frames logger'] Hfold]; [lia |].
  eexists. eexists. rewrite Hfold. cbn [Py.bind]. reflexivity.
Qed.

(** From 256 frames on the assembler raises: above 256 by its own guard,
    at exactly 256 because the command word of frame 0 needs 33 bits. *)
Lemma build_full_bitstream_rejects_from_256
      (matrices : LDPCMatrices.t) (payload_bits : list Z)
      (logger : option (list log_entry)) :
  LDPCMatrices.message_bits matrices = 128 ->
  256 <= frames_needed (len payload_bits) ->
  is_ok (Pipeline.build_full_bitstream payload_bits Config.default_ProtocolConfig
                                       matrices logger) = false.
Proof.
  intros Hmsg Hbig. unfold Pipeline.build_full_bitstream.
  assert (Htf : (if len payload_bits =? 0 then Ok 1
                 else ceil_div (len payload_bits) (LDPCMatrices.message_bits matrices))
                = Ok (frames_needed (len payload_bits))).
  { unfold frames_needed. destruct (len payload_bits =? 0); [reflexivity |].
    rewrite Hmsg. unfold ceil_div. simpl. rewrite ceil_div_128. reflexivity. }
  rewrite Htf. cbn [Py.bind].
  destruct (Config.max_frames Config.default_ProtocolConfig
            <? frames_needed (len payload_bits)) eqn:Hguard; [reflexivity |].
  apply Z.ltb_ge in Hguard. simpl in Hguard.
  assert (H256 : frames_needed (len payload_bits) = 256) by lia.
  rewrite H256. cbn [negb].
  change (Utils.hex_to_bitstream (Config.sync_sequence_hex Config.default_ProtocolConfig)
            (Config.sync_symbols (Config.frame_layout Config.default_ProtocolConfig) * 2))
    with (Ok Fixtures.sync_bits).
  change (Utils.hex_to_bitstream (Config.target_id_hex Config.default_ProtocolConfig)
            (Config.target_id_symbols (Config.frame_layout Config.default_ProtocolConfig) * 2))
    with (Ok target_id_bits).
  cbn [Py.bind].
  assert (Hbody : forall state,
             Pipeline.frame_body payload_bits Config.default_ProtocolConfig matrices 256
                                 Fixtures.sync_bits target_id_bits state 0
             = Raise (ValueError (WontFit 4294967297 32))).
  { intros [frames entries]. reflexivity. }
  unfold range. change (Z.to_nat 256) with 256%nat.
  change (seq 0 256) with (0%nat :: seq 1 255). cbn [map foldM].
  change (Z.of_nat 0) with 0. rewrite Hbody. reflexivity.
Qed.

(** X11: For the default protocol, the assembler returns exactly on the
    payloads that need at most 255 frames. *)
Lemma build_full_bitstream_returns_iff
      (env : Backends) (config : Config.LDPCConfig) (matrices : LDPCMatrices.t)
      (payload_bits : list Z) (logger : option (list log_entry)) :
  Pipeline.create_ldpc_matrices env Config.default_ProtocolConfig config = Ok matrices ->
  (is_ok (Pipeline.build_full_bitstream payload_bits Config.default_ProtocolConfig
                                        matrices logger) = true
   <-> frames_needed (len payload_bits) <= 255).
Proof.
  intros Hcreate. split.
  - intros Hok. destruct (Z.le_gt_cases (frames_needed (len payload_bits)) 255) as [Hle | Hgt];
      [exact Hle |].
    apply create_ldpc_matrices_inv in Hcreate as (H0 & k & Hk128 & _ & _ & Hk & _).
    change (Config.message_bits (Config.frame_layout Config.default_ProtocolConfig))
      with 128 in Hk128.
    rewrite build_full_bitstream_rejects_from_256 in Hok by (congruence || lia).
    discriminate.
  - intros Hle.
    destruct (build_full_bitstream_accepts env config matrices payload_bits logger Hcreate Hle)
      as (stream & entries & ->). reflexivity.
Qed.

Example systematic_matrices_orthogonal :
  forallb (forallb (fun x => x mod 2 =? 0))
          (NdArray.mul_transpose (LDPCMatrices.G systematic_matrices)
                                 (LDPCMatrices.H systematic_matrices)) = true.
Proof. vm_compute. reflexivity. Qed.

(* ===================================================================== *)
(** ** Bit primitives of [chimera/utils.py] *)
(* ===================================================================== *)

(** X1: [int_to_bitstream] in full: it returns exactly on [0 < num_bits] and
    [0 <= value < 2 ^ num_bits], and then gives the big-endian rendering of
    [value] on [num_bits] bits; it refuses a non-positive width, a value
    that is too large and (through the conversion of the ['-'] character)
    every negative value. *)
Theorem int_to_bitstream_cases (value num_bits : Z) :
  match Utils.int_to_bitstream value num_bits with
  | Ok bits => 0 < num_bits /\ 0 <= value < 2 ^ num_bits /\ renders num_bits value bits
  | Raise e =>
      (num_bits <= 0 /\ e = ValueError NumBitsNotPositive) \/
      (0 < num_bits /\ 2 ^ num_bits <= value /\ e = ValueError (WontFit value num_bits)) \/
      (0 < num_bits /\ value < 0 /\ e = ValueError InvalidLiteral)
  end.
Proof.
  destruct (Utils.int_to_bitstream value num_bits) as [bits | e] eqn:Hrun.
  - pose proof (int_to_bitstream_renders _ _ _ Hrun) as Hrender.
    unfold Utils.int_to_bitstream in Hrun.
    destruct (0 <? num_bits) eqn:Hn; [| discriminate]. apply Z.ltb_lt in Hn.
    destruct (value <? 2 ^ num_bits) eqn:Hfit; [| discriminate]. apply Z.ltb_lt in Hfit.
    destruct value as [| p | p];
      [split; [lia | split; [lia | exact Hrender]]
      | split; [lia | split; [lia | exact Hrender]] |].
    simpl in Hrun. discriminate.
  - unfold Utils.int_to_bitstream in Hrun.
    destruct (0 <? num_bits) eqn:Hn.
    + apply Z.ltb_lt in Hn. right.
      destruct (value <? 2 ^ num_bits) eqn:Hfit.
      * apply Z.ltb_lt in Hfit. right.
        destruct (Z.lt_ge_cases value 0) as [Hneg | Hnonneg].
        -- destruct value as [| p | p]; try lia. simpl in Hrun.
           injection Hrun as <-. repeat split; trivial.
        -- destruct (int_to_bitstream_ok value num_bits Hn (conj Hnonneg Hfit)) as [bits Hok].
           unfold Utils.int_to_bitstream in Hok.
           replace (0 <? num_bits) with true in Hok by (symmetry; apply Z.ltb_lt; lia).
           replace (value <? 2 ^ num_bits) with true in Hok by (symmetry; apply Z.ltb_lt; lia).
           congruence.
      * apply Z.ltb_ge in Hfit. left. injection Hrun as <-. repeat split; trivial.
    + apply Z.ltb_ge in Hn. left. injection Hrun as <-. split; trivial.
Qed.

Lemma in_range (n b : Z) : 0 <= b < n -> In b (range n).
Proof.
  intros Hb. unfold range. apply in_map_iff. exists (Z.to_nat b).
  split; [lia | apply in_seq; lia].
Qed.

Lemma byte_bits_checked_all : forallb byte_bits_checked (range 256) = true.
Proof. vm_compute. reflexivity. Qed.

Lemma byte_bits_value (b : Z) : is_byte b -> big_endian_value (Utils.byte_bits b) = b.
Proof.
  intros Hb. pose proof byte_bits_checked_all as Hall. rewrite forallb_forall in Hall.
  specialize (Hall b (in_range 256 b Hb)). unfold byte_bits_checked in Hall.
  apply andb_true_iff in Hall as [Hv _]. apply Z.eqb_eq. exact Hv.
Qed.

Lemma pack_byte_byte_bits (b : Z) : is_byte b -> Utils.pack_byte 8 (Utils.byte_bits b) = b.
Proof.
  intros Hb. pose proof byte_bits_checked_all as Hall. rewrite forallb_forall in Hall.
  specialize (Hall b (in_range 256 b Hb)). unfold byte_bits_checked in Hall.
  apply andb_true_iff in Hall as [_ Hv]. apply Z.eqb_eq. exact Hv.
Qed.

Lemma byte_bits_length (b : Z) : List.length (Utils.byte_bits b) = 8%nat.
Proof. reflexivity. Qed.

Lemma byte_bits_are_bits (b : Z) : Forall is_bit (Utils.byte_bits b).
Proof.
  unfold Utils.byte_bits. apply Forall_forall. intros x Hx.
  apply in_map_iff in Hx as (j & <- & _).
  destruct (Z.testbit b (7 - j)); [right | left]; reflexivity.
Qed.

Lemma unpackbits_length (bytes : list Z) : len (Utils.unpackbits bytes) = 8 * len bytes.
Proof.
  unfold len, Utils.unpackbits. induction bytes as [| b bytes IH]; [reflexivity |].
  cbn [flat_map]. rewrite length_app, byte_bits_length. cbn [List.length]. lia.
Qed.

Lemma unpackbits_are_bits (bytes : list Z) : Forall is_bit (Utils.unpackbits bytes).
Proof.
  unfold Utils.unpackbits. induction bytes as [| b bytes IH]; [constructor |].
  cbn [flat_map]. apply Forall_app. split; [apply byte_bits_are_bits | exact IH].
Qed.

Lemma pack_byte_app (w : nat) (l rest : list Z) :
  List.length l = w -> Utils.pack_byte w (l ++ rest) = Utils.pack_byte w l.
Proof.
  revert l. induction w as [| w IH]; intros l Hlen; [reflexivity |].
  destruct l as [| x l]; [discriminate |]. simpl in Hlen. injection Hlen as Hlen.
  cbn [Utils.pack_byte app]. rewrite IH by exact Hlen. reflexivity.
Qed.

Lemma packbits_fuel_step (fuel : nat) (bits : list Z) :
  bits <> [] ->
  Utils.packbits_fuel (S fuel) bits
  = Utils.pack_byte 8 bits :: Utils.packbits_fuel fuel (skipn 8 bits).
Proof. destruct bits; [congruence | reflexivity]. Qed.

Lemma packbits_fuel_unpackbits (bytes : list Z) :
  Forall is_byte bytes ->
  forall fuel, (List.length bytes <= fuel)%nat ->
    Utils.packbits_fuel fuel (Utils.unpackbits bytes) = bytes.
Proof.
  induction 1 as [| b bytes Hb Hbytes IH]; intros fuel Hfuel.
  - destruct fuel; reflexivity.
  - destruct fuel as [| fuel]; [simpl in Hfuel; lia |].
    unfold Utils.unpackbits. cbn [flat_map]. fold (Utils.unpackbits bytes).
    rewrite packbits_fuel_step.
    + rewrite pack_byte_app by apply byte_bits_length.
      rewrite pack_byte_byte_bits by exact Hb. f_equal.
      rewrite skipn_app, byte_bits_length. change (8 - 8)%nat with 0%nat.
      rewrite skipn_all2 by (rewrite byte_bits_length; lia).
      apply IH. simpl in Hfuel. lia.
    + intros Hnil. apply (f_equal (@List.length Z)) in Hnil.
      rewrite length_app, byte_bits_length in Hnil. simpl in Hnil. lia.
Qed.

Lemma packbits_unpackbits_id (bytes : list Z) :
  Forall is_byte bytes -> Utils.packbits (Utils.unpackbits bytes) = bytes.
Proof.
  intros Hbytes. unfold Utils.packbits. apply packbits_fuel_unpackbits; [exact Hbytes |].
  pose proof (unpackbits_length bytes) as Hlen. unfold len in Hlen. lia.
Qed.

(** X5: Round trip of the bit packing: [np.unpackbits] gives eight bits per
    byte, and [np.packbits] gives the bytes back. *)
Theorem packbits_unpackbits (bytes : list Z) :
  Forall is_byte bytes ->
  len (Utils.unpackbits bytes) = 8 * len bytes /\
  Forall is_bit (Utils.unpackbits bytes) /\
  Utils.packbits (Utils.unpackbits bytes) = bytes.
Proof.
  intros Hbytes. split; [apply unpackbits_length |].
  split; [apply unpackbits_are_bits | apply packbits_unpackbits_id; exact Hbytes].
Qed.

Lemma packbits_unpackbits_witness :
  Forall is_byte [67; 104; 105] /\
  len (Utils.unpackbits [67; 104; 105]) = 8 * len [67; 104; 105] /\
  Forall is_bit (Utils.unpackbits [67; 104; 105]) /\
  Utils.packbits (Utils.unpackbits [67; 104; 105]) = [67; 104; 105].
Proof.
  assert (Hb : Forall is_byte [67; 104; 105])
    by (repeat constructor; unfold is_byte; lia).
  split; [exact Hb | apply (packbits_unpackbits [67; 104; 105] Hb)].
Defined.

Lemma utf8_encode_char_cases (cp : Z) :
  valid_code_point cp ->
  match Utils.utf8_encode_char cp with
  | Ok bytes => ~ is_surrogate cp /\ Forall is_byte bytes /\
                (1 <= List.length bytes <= 4)%nat
  | Raise e => e = UnicodeEncodeError /\ is_surrogate cp
  end.
Proof.
  unfold valid_code_point, is_surrogate, Utils.utf8_encode_char. intros Hcp.
  destruct (cp <? 128) eqn:H1.
  { apply Z.ltb_lt in H1. split; [lia |]. split; [| simpl; lia].
    repeat constructor; lia. }
  apply Z.ltb_ge in H1. destruct (cp <? 2048) eqn:H2.
  { apply Z.ltb_lt in H2. split; [lia |]. split; [| simpl; lia].
    repeat constructor; Z.div_mod_to_equations; lia. }
  apply Z.ltb_ge in H2.
  destruct ((55296 <=? cp) && (cp <=? 57343)) eqn:H3.
  { apply andb_true_iff in H3 as [Ha Hb]. apply Z.leb_le in Ha, Hb. split; [reflexivity | lia]. }
  assert (Hns : ~ 55296 <= cp <= 57343).
  { intros [Ha Hb]. apply Z.leb_le in Ha, Hb. rewrite Ha, Hb in H3. discriminate. }
  destruct (cp <? 65536) eqn:H4.
  { apply Z.ltb_lt in H4. split; [exact Hns |]. split; [| simpl; lia].
    repeat constructor; Z.div_mod_to_equations; lia. }
  apply Z.ltb_ge in H4. split; [exact Hns |]. split; [| simpl; lia].
  repeat constructor; Z.div_mod_to_equations; lia.
Qed.

Lemma utf8_encode_cases (text : list Z) :
  Forall valid_code_point text ->
  match Utils.utf8_encode text with
  | Ok bytes => Forall (fun cp => ~ is_surrogate cp) text /\ Forall is_byte bytes /\
                len text <= len bytes <= 4 * len text
  | Raise e => e = UnicodeEncodeError /\ Exists is_surrogate text
  end.
Proof.
  unfold Utils.utf8_encode, len.
  induction 1 as [| cp text Hcp Htext IH]; [simpl; repeat split; try constructor; lia |].
  cbn [mapM]. pose proof (utf8_encode_char_cases cp Hcp) as Hchar.
  destruct (Utils.utf8_encode_char cp) as [chunk | e].
  - destruct Hchar as (Hns & Hbytes & Hlen).
    destruct (mapM Utils.utf8_encode_char text) as [chunks | e]; cbn [Py.bind] in *.
    + destruct IH as (Hnone & Hall & Hbound). cbn [List.concat List.length].
      rewrite length_app. split; [constructor; assumption |].
      split; [apply Forall_app; split; assumption | lia].
    + destruct IH as (-> & Hex). split; [reflexivity | apply Exists_cons_tl; exact Hex].
  - destruct Hchar as (-> & Hs). cbn [Py.bind]. split; [reflexivity | apply Exists_cons_hd; exact Hs].
Qed.

(** X3: [string_to_bitstream] on any text: it fails exactly when the text holds a
    surrogate code point, with [UnicodeEncodeError]; otherwise the result is
    a list of bits, eight per UTF-8 byte (so between 8 and 32 per
    character), and packing it gives back the UTF-8 encoding. *)
Theorem string_to_bitstream_cases (text : list Z) :
  Forall valid_code_point text ->
  match Utils.string_to_bitstream text with
  | Ok bits =>
      Forall (fun cp => ~ is_surrogate cp) text /\
      Forall is_bit bits /\
      Utils.utf8_encode text = Ok (Utils.packbits bits) /\
      len bits mod 8 = 0 /\
      8 * len text <= len bits <= 32 * len text
  | Raise e => e = UnicodeEncodeError /\ Exists is_surrogate text
  end.
Proof.
  intros Hvalid. pose proof (utf8_encode_cases text Hvalid) as Henc.
  unfold Utils.string_to_bitstream.
  destruct (Utils.utf8_encode text) as [bytes | e]; cbn [Py.bind]; [| exact Henc].
  destruct Henc as (Hnone & Hbytes & Hbound).
  split; [exact Hnone |]. split; [apply unpackbits_are_bits |].
  split; [rewrite packbits_unpackbits_id by exact Hbytes; reflexivity |].
  rewrite unpackbits_length. split; [| lia].
  rewrite Z.mul_comm. apply Z.mod_mul. lia.
Qed.

Lemma string_to_bitstream_cases_witness :
  Forall valid_code_point [72; 233; 8364] /\
  match Utils.string_to_bitstream [72; 233; 8364] with
  | Ok bits =>
      Forall (fun cp => ~ is_surrogate cp) [72; 233; 8364] /\
      Forall is_bit bits /\
      Utils.utf8_encode [72; 233; 8364] = Ok (Utils.packbits bits) /\
      len bits mod 8 = 0 /\
      8 * len [72; 233; 8364] <= len bits <= 32 * len [72; 233; 8364]
  | Raise e => e = UnicodeEncodeError /\ Exists is_surrogate [72; 233; 8364]
  end.
Proof.
  assert (Hv : Forall valid_code_point [72; 233; 8364])
    by (repeat constructor; unfold valid_code_point; lia).
  split; [exact Hv | apply (string_to_bitstream_cases [72; 233; 8364] Hv)].
Defined.

(** X4: On ASCII text [string_to_bitstream] returns eight bits per character,
    the bits of the character codes themselves. *)
Theorem string_to_bitstream_ascii (text : list Z) :
  Forall (fun cp => 0 <= cp < 128) text ->
  Utils.string_to_bitstream text = Ok (Utils.unpackbits text) /\
  len (Utils.unpackbits text) = 8 * len text /\
  Utils.packbits (Utils.unpackbits text) = text.
Proof.
  intros Hascii.
  assert (Henc : Utils.utf8_encode text = Ok text).
  { unfold Utils.utf8_encode. induction Hascii as [| cp text Hcp Htext IH]; [reflexivity |].
    cbn [mapM]. unfold Utils.utf8_encode_char at 1.
    replace (cp <? 128) with true by (symmetry; apply Z.ltb_lt; lia).
    destruct (mapM Utils.utf8_encode_char text) as [chunks | e]; [| discriminate].
    cbn [Py.bind] in *. injection IH as IH. cbn [List.concat app]. rewrite IH. reflexivity. }
  unfold Utils.string_to_bitstream. rewrite Henc. cbn [Py.bind].
  split; [reflexivity |]. split; [apply unpackbits_length |].
  apply packbits_unpackbits_id. apply Forall_impl with (2 := Hascii).
  intros cp Hcp. unfold is_byte. lia.
Qed.

Lemma string_to_bitstream_ascii_witness :
  Forall (fun cp => 0 <= cp < 128) (Config.str "Chimera") /\
  Utils.string_to_bitstream (Config.str "Chimera") = Ok (Utils.unpackbits (Config.str "Chimera")).
Proof.
  assert (Ha : Forall (fun cp => 0 <= cp < 128) (Config.str "Chimera"))
    by (repeat constructor; lia).
  split; [exact Ha | apply (string_to_bitstream_ascii (Config.str "Chimera") Ha)].
Defined.

Lemma hex_value_range (c : ascii) (v : Z) : Utils.hex_value c = Some v -> 0 <= v < 16.
Proof.
  unfold Utils.hex_value. set (n := Z.of_N (N_of_ascii c)).
  destruct ((48 <=? n) && (n <=? 57)) eqn:H1.
  { apply andb_true_iff in H1 as [Ha Hb]. apply Z.leb_le in Ha, Hb.
    intros Hv. injection Hv as <-. lia. }
  destruct ((65 <=? n) && (n <=? 70)) eqn:H2.
  { apply andb_true_iff in H2 as [Ha Hb]. apply Z.leb_le in Ha, Hb.
    intros Hv. injection Hv as <-. lia. }
  destruct ((97 <=? n) && (n <=? 102)) eqn:H3; [| discriminate].
  apply andb_true_iff in H3 as [Ha Hb]. apply Z.leb_le in Ha, Hb.
  intros Hv. injection Hv as <-. lia.
Qed.

Lemma hex_digit_not_space (c : ascii) : is_hex_digit c -> Utils.is_space c = false.
Proof.
  intros [v Hv]. unfold Utils.hex_value, Utils.is_space in *.
  set (n := Z.of_N (N_of_ascii c)) in *.
  destruct (n =? 32) eqn:H32.
  { apply Z.eqb_eq in H32. rewrite H32 in Hv. discriminate. }
  destruct ((9 <=? n) && (n <=? 13)) eqn:Hws; [| reflexivity].
  apply andb_true_iff in Hws as [Ha Hb]. apply Z.leb_le in Ha, Hb.
  replace (48 <=? n) with false in Hv by (symmetry; apply Z.leb_gt; lia).
  replace (65 <=? n) with false in Hv by (symmetry; apply Z.leb_gt; lia).
  replace (97 <=? n) with false in Hv by (symmetry; apply Z.leb_gt; lia).
  discriminate.
Qed.

Lemma hex_digit_not_sign (c : ascii) :
  is_hex_digit c -> (Ascii.eqb c "+"%char || Ascii.eqb c "-"%char)%bool = false.
Proof.
  intros [v Hv]. apply orb_false_iff. split; apply Ascii.eqb_neq; intros ->; discriminate.
Qed.

Lemma zfill_hex_digits (cs : list ascii) (width : Z) :
  Forall is_hex_digit cs ->
  Utils.zfill cs width = repeat "0"%char (Z.to_nat (width - len cs)) ++ cs.
Proof.
  intros Hhex. unfold Utils.zfill. destruct cs as [| c rest].
  - rewrite app_nil_r. reflexivity.
  - inversion Hhex as [| c' rest' Hc Hrest]; subst.
    rewrite hex_digit_not_sign by exact Hc. reflexivity.
Qed.

Lemma bits_value_acc (bits : list Z) (acc : Z) :
  fold_left (fun a b => 2 * a + b) bits acc
  = acc * 2 ^ len bits + big_endian_value bits.
Proof.
  unfold big_endian_value, len. revert acc.
  induction bits as [| x bits IH]; intros acc; [simpl; lia |].
  cbn [fold_left List.length]. rewrite IH. rewrite (IH (2 * 0 + x)).
  rewrite Nat2Z.inj_succ, Z.pow_succ_r by lia. lia.
Qed.

Lemma big_endian_value_app (l1 l2 : list Z) :
  big_endian_value (l1 ++ l2) = big_endian_value l1 * 2 ^ len l2 + big_endian_value l2.
Proof.
  unfold big_endian_value at 1. rewrite fold_left_app.
  fold (big_endian_value l1). apply bits_value_acc.
Qed.

Lemma hex_string_value_acc (cs : list ascii) (acc : Z) :
  fold_left (fun a c => 16 * a + hex_digit_value c) cs acc
  = acc * 16 ^ len cs + hex_string_value cs.
Proof.
  unfold hex_string_value, len. revert acc.
  induction cs as [| c cs IH]; intros acc; [simpl; lia |].
  cbn [fold_left List.length]. rewrite IH. rewrite (IH (16 * 0 + hex_digit_value c)).
  rewrite Nat2Z.inj_succ, Z.pow_succ_r by lia. lia.
Qed.

Lemma list_pair_ind {A : Type} (P : list A -> Prop) :
  P [] -> (forall x, P [x]) -> (forall x y l, P l -> P (x :: y :: l)) -> forall l, P l.
Proof.
  intros Hnil Hone Hstep.
  assert (Hboth : forall l, P l /\ forall x, P (x :: l)).
  { induction l as [| y l [IHl IHxl]]; split; auto. }
  intros l. apply Hboth.
Qed.

(** [bytes.fromhex] on hexadecimal digits only: an odd number of digits is
    refused, an even number gives the bytes the digits denote. *)
Lemma fromhex_hex_digits (cs : list ascii) :
  Forall is_hex_digit cs ->
  match Utils.fromhex cs with
  | Ok bytes => Forall is_byte bytes /\ 2 * len bytes = len cs /\
                big_endian_value (Utils.unpackbits bytes) = hex_string_value cs
  | Raise e => e = ValueError NonHexadecimal /\ len cs mod 2 = 1
  end.
Proof.
  induction cs as [| c | c d cs IH] using list_pair_ind; intros Hhex.
  - simpl. repeat split; constructor.
  - inversion Hhex as [| c' l' Hc _]; subst. cbn [Utils.fromhex].
    rewrite hex_digit_not_space by exact Hc. split; reflexivity.
  - inversion Hhex as [| c' l' Hc Htail]; subst.
    inversion Htail as [| d' l'' Hd Hcs]; subst.
    specialize (IH Hcs). cbn [Utils.fromhex].
    rewrite hex_digit_not_space by exact Hc.
    destruct Hc as [hi Hhi], Hd as [lo Hlo]. rewrite Hhi, Hlo.
    pose proof (hex_value_range c hi Hhi) as Rhi.
    pose proof (hex_value_range d lo Hlo) as Rlo.
    destruct (Utils.fromhex cs) as [bytes | e].
    + destruct IH as (Hbytes & Hlen & Hval).
      split; [constructor; [unfold is_byte; lia | exact Hbytes] |].
      split; [unfold len in *; cbn [List.length]; lia |].
      unfold Utils.unpackbits. cbn [flat_map]. fold (Utils.unpackbits bytes).
      rewrite big_endian_value_app, byte_bits_value by (unfold is_byte; lia).
      rewrite Hval, unpackbits_length.
      unfold hex_string_value at 2. cbn [fold_left].
      rewrite hex_string_value_acc. unfold hex_digit_value. rewrite Hhi, Hlo.
      replace (2 ^ (8 * len bytes)) with (16 ^ len cs).
      * lia.
      * rewrite <- Hlen. replace (8 * len bytes) with (4 * (2 * len bytes)) by lia.
        rewrite (Z.pow_mul_r 2 4) by (unfold len; lia). reflexivity.
    + destruct IH as (-> & Hodd). split; [reflexivity |].
      unfold len in *. cbn [List.length].
      replace (Z.of_nat (S (S (List.length cs)))) with (Z.of_nat (List.length cs) + 1 * 2) by lia.
      rewrite Z.mod_add by lia. exact Hodd.
Qed.

Lemma hex_string_value_zeros (n : nat) (cs : list ascii) :
  hex_string_value (repeat "0"%char n ++ cs) = hex_string_value cs.
Proof.
  unfold hex_string_value. rewrite fold_left_app.
  replace (fold_left (fun acc c => 16 * acc + hex_digit_value c) (repeat "0"%char n) 0) with 0;
    [reflexivity |].
  induction n as [| n IH]; [reflexivity | simpl; exact IH].
Qed.

(** X2: [hex_to_bitstream] on a string of hexadecimal digits, for a width that
    is a multiple of 8.  The string is padded with zeros up to the width but
    never cut: the result has [max(expected_bits, 4 * digits)] bits and is
    the big-endian rendering of the number the string denotes.  The only
    failure is a string longer than the width with an odd number of
    digits. *)
Theorem hex_to_bitstream_hex_digits (hex_string : string) (expected_bits : Z) :
  let cs := list_ascii_of_string hex_string in
  Forall is_hex_digit cs ->
  expected_bits mod 8 = 0 ->
  match Utils.hex_to_bitstream hex_string expected_bits with
  | Ok bits => renders (Z.max expected_bits (4 * len cs)) (hex_string_value cs) bits /\
               (4 * len cs <= expected_bits \/ len cs mod 2 = 0)
  | Raise e => e = ValueError NonHexadecimal /\
               expected_bits < 4 * len cs /\ len cs mod 2 = 1
  end.
Proof.
  intros cs Hhex Hwidth. unfold Utils.hex_to_bitstream. fold cs.
  rewrite Hwidth. cbn [Z.eqb]. rewrite zfill_hex_digits by exact Hhex.
  set (pad := Z.to_nat (expected_bits / 4 - len cs)).
  assert (Hpadded : Forall is_hex_digit (repeat "0"%char pad ++ cs)).
  { apply Forall_app. split; [| exact Hhex]. apply Forall_forall. intros c Hc.
    apply repeat_spec in Hc. subst c. exists 0. reflexivity. }
  pose proof (fromhex_hex_digits _ Hpadded) as Hfrom.
  assert (Hq : expected_bits = 4 * (expected_bits / 4) /\ (expected_bits / 4) mod 2 = 0)
    by (Z.div_mod_to_equations; lia).
  assert (Hplen : len (repeat "0"%char pad ++ cs) = Z.max (expected_bits / 4) (len cs)).
  { unfold len, pad. rewrite length_app, repeat_length. unfold len. lia. }
  destruct (Utils.fromhex (repeat "0"%char pad ++ cs)) as [bytes | e]; cbn [Py.bind].
  - destruct Hfrom as (Hbytes & Hlen & Hval). rewrite Hplen in Hlen. split.
    + split; [rewrite unpackbits_length; lia |].
      split; [apply unpackbits_are_bits |].
      rewrite Hval. apply hex_string_value_zeros.
    + destruct (Z.le_gt_cases (4 * len cs) expected_bits) as [Hle | Hgt]; [left; exact Hle |].
      right. rewrite Z.max_r in Hlen by lia. rewrite <- Hlen.
      rewrite Z.mul_comm. apply Z.mod_mul. lia.
  - destruct Hfrom as (-> & Hodd). rewrite Hplen in Hodd. split; [reflexivity |].
    destruct (Z.le_gt_cases (len cs) (expected_bits / 4)) as [Hle | Hgt].
    + rewrite Z.max_l in Hodd by lia. lia.
    + rewrite Z.max_r in Hodd by lia. split; [lia | exact Hodd].
Qed.

Lemma hex_to_bitstream_hex_digits_witness :
  Forall is_hex_digit (list_ascii_of_string "BEEF") /\
  40 mod 8 = 0 /\
  match Utils.hex_to_bitstream "BEEF" 40 with
  | Ok bits => renders (Z.max 40 (4 * len (list_ascii_of_string "BEEF")))
                       (hex_string_value (list_ascii_of_string "BEEF")) bits /\
               (4 * len (list_ascii_of_string "BEEF") <= 40 \/
                len (list_ascii_of_string "BEEF") mod 2 = 0)
  | Raise e => e = ValueError NonHexadecimal /\
               40 < 4 * len (list_ascii_of_string "BEEF") /\
               len (list_ascii_of_string "BEEF") mod 2 = 1
  end.
Proof.
  assert (Hh : Forall is_hex_digit (list_ascii_of_string "BEEF"))
    by (repeat constructor; eexists; reflexivity).
  split; [exact Hh |]. split; [reflexivity |].
  apply (hex_to_bitstream_hex_digits "BEEF" 40 Hh). reflexivity.
Defined.

Lemma slice_firstn_skipn {A : Type} (l : list A) (s e : Z) :
  0 <= s <= e -> slice l s e = firstn (Z.to_nat (e - s)) (skipn (Z.to_nat s) l).
Proof.
  intros Hse. unfold slice, clamp_index.
  replace (s <? 0) with false by (symmetry; apply Z.ltb_ge; lia).
  replace (e <? 0) with false by (symmetry; apply Z.ltb_ge; lia).
  pose proof (len_nonneg l) as Hn. unfold len in *.
  destruct (Z.le_gt_cases s (Z.of_nat (List.length l))) as [Hs | Hs].
  - rewrite (Z.min_l s) by lia.
    destruct (Z.le_gt_cases e (Z.of_nat (List.length l))) as [He | He].
    + rewrite Z.min_l by lia. reflexivity.
    + rewrite Z.min_r by lia.
      rewrite !firstn_all2; trivial; rewrite length_skipn; lia.
  - rewrite !Z.min_r by lia. rewrite Z.sub_diag. cbn [Z.to_nat firstn].
    rewrite (skipn_all2 l) by lia. destruct (Z.to_nat (e - s)); reflexivity.
Qed.

Lemma firstn_plus {A : Type} (x y : nat) (l : list A) :
  firstn (x + y) l = firstn x l ++ firstn y (skipn x l).
Proof.
  revert l. induction x as [| x IH]; intros l; [reflexivity |].
  destruct l as [| a l]; [destruct y; reflexivity |].
  cbn [Nat.add firstn skipn app]. rewrite IH. reflexivity.
Qed.

Lemma concat_consecutive_chunks {A : Type} (c : nat) (l : list A) (m a : nat) :
  List.concat (map (fun i => firstn c (skipn (i * c) l)) (seq a m))
  = firstn (m * c) (skipn (a * c) l).
Proof.
  revert a. induction m as [| m IH]; intros a; [reflexivity |].
  cbn [seq map List.concat]. rewrite IH.
  replace (S m * c)%nat with (c + m * c)%nat by lia.
  rewrite firstn_plus, skipn_skipn.
  replace (c + a * c)%nat with (S a * c)%nat by lia. reflexivity.
Qed.

(** X6: [chunk_array] with a positive chunk size: the chunks put end to end are
    the array, there are [⌈len / chunk_size⌉] of them, none is empty, and
    all but the last have exactly [chunk_size] elements. *)
Theorem chunk_array_partitions {A : Type} (array : list A) (chunk_size : Z) :
  0 < chunk_size ->
  exists chunks,
    Utils.chunk_array array chunk_size = inl chunks /\
    List.concat chunks = array /\
    len chunks = (len array + chunk_size - 1) / chunk_size /\
    forall i, (i < List.length chunks)%nat ->
      0 < len (nth i chunks []) <= chunk_size /\
      ((S i < List.length chunks)%nat -> len (nth i chunks []) = chunk_size).
Proof.
  intros Hc. unfold Utils.chunk_array, Utils.range_step.
  replace (chunk_size <=? 0) with false by (symmetry; apply Z.leb_gt; lia).
  set (n := len array). set (m := Z.to_nat ((n + chunk_size - 1) / chunk_size)).
  set (c := Z.to_nat chunk_size).
  assert (Hn : 0 <= n) by apply len_nonneg.
  assert (Hm : Z.of_nat m = (n + chunk_size - 1) / chunk_size).
  { unfold m. rewrite Z2Nat.id; [reflexivity | apply Z.div_pos; lia]. }
  assert (Hcover : n <= Z.of_nat m * chunk_size /\ (Z.of_nat m - 1) * chunk_size < n \/ (m = 0%nat /\ n = 0)).
  { rewrite Hm. destruct (Z.eq_dec n 0) as [Hz | Hz].
    - right. split; [| exact Hz]. unfold m. rewrite Hz.
      rewrite Z.div_small by lia. reflexivity.
    - left. Z.div_mod_to_equations. nia. }
  rewrite map_map.
  assert (Hchunks : map (fun i => slice array (Z.of_nat i * chunk_size)
                                      (Z.of_nat i * chunk_size + chunk_size)) (seq 0 m)
                    = map (fun i => firstn c (skipn (i * c) array)) (seq 0 m)).
  { apply map_ext. intros i. rewrite slice_firstn_skipn by nia. unfold c.
    f_equal; [f_equal; lia | f_equal; nia]. }
  rewrite Hchunks. eexists. split; [reflexivity |].
  split.
  { rewrite concat_consecutive_chunks. cbn [Nat.mul skipn].
    apply firstn_all2. unfold n, len, c in *. nia. }
  split.
  { unfold len at 1. rewrite length_map, length_seq. exact Hm. }
  intros i Hi. rewrite length_map, length_seq in Hi.
  rewrite nth_map_lt with (d := O) by (rewrite length_seq; exact Hi).
  rewrite seq_nth by exact Hi. cbn [Nat.add].
  assert (Hlen : List.length (firstn c (skipn (i * c) array))
                 = Nat.min c (List.length array - i * c))
    by (rewrite length_firstn, length_skipn; reflexivity).
  rewrite length_map, length_seq. unfold len. rewrite Hlen.
  destruct Hcover as [[Hup Hlow] | [Hm0 _]]; [| lia].
  unfold n, len, c in *.
  assert (Hic : (i * Z.to_nat chunk_size < List.length array)%nat) by nia.
  split; [lia |]. intros Hnext.
  assert (Hic' : (S i * Z.to_nat chunk_size < List.length array)%nat) by nia.
  lia.
Qed.

Lemma chunk_array_partitions_witness :
  0 < 3 /\
  exists chunks,
    Utils.chunk_array [1; 0; 1; 1; 0; 0; 1] 3 = inl chunks /\
    List.concat chunks = [1; 0; 1; 1; 0; 0; 1] /\
    len chunks = (len [1; 0; 1; 1; 0; 0; 1] + 3 - 1) / 3 /\
    forall i, (i < List.length chunks)%nat ->
      0 < len (nth i chunks []) <= 3 /\
      ((S i < List.length chunks)%nat -> len (nth i chunks []) = 3).
Proof.
  split; [lia | apply (chunk_array_partitions [1; 0; 1; 1; 0; 0; 1] 3); lia].
Defined.

(* ===================================================================== *)
(** ** Matrix construction: [create_ldpc_matrices] *)
(* ===================================================================== *)

(** X8: [create_ldpc_matrices] in full.  With [k] and [n] the message and
    codeword widths of the layout and [H0] the matrix the backend returns,
    the function returns exactly when [0 <= k <= ncols H0] and
    [nrows H0 = n - k], and then with [H0] converted to [uint8] and the
    generator [[I_k | H0[:, :k]ᵀ] mod 2]; the number of columns of [H0] is
    not compared with [n].  Every failure is a missing backend, the
    backend's own error, a negative [k], fewer than [k] columns, or a
    wrong number of rows. *)
Theorem create_ldpc_matrices_cases
        (env : Backends) (protocol : Config.ProtocolConfig) (config : Config.LDPCConfig) :
  let k := Config.message_bits (Config.frame_layout protocol) in
  let n := Config.codeword_bits (Config.frame_layout protocol) in
  match make_ldpc env with
  | None =>
      Pipeline.create_ldpc_matrices env protocol config = Raise (ImportError "pyldpc")
  | Some make =>
      match make n (Config.dv config) (Config.dc config) (Config.seed config) with
      | Raise e => Pipeline.create_ldpc_matrices env protocol config = Raise e
      | Ok H0 =>
          (k < 0 /\
           Pipeline.create_ldpc_matrices env protocol config
           = Raise (ValueError NegativeDimension)) \/
          (0 <= k /\ Z.of_nat (NdArray.ncols H0) < k /\
           Pipeline.create_ldpc_matrices env protocol config
           = Raise (ValueError ShapeMismatch)) \/
          (0 <= k <= Z.of_nat (NdArray.ncols H0) /\ k + Z.of_nat (NdArray.nrows H0) <> n /\
           Pipeline.create_ldpc_matrices env protocol config
           = Raise (ValueError (GeneratorShape k (k + Z.of_nat (NdArray.nrows H0)) k n))) \/
          (0 <= k <= Z.of_nat (NdArray.ncols H0) /\ k + Z.of_nat (NdArray.nrows H0) = n /\
           Pipeline.create_ldpc_matrices env protocol config
           = Ok {| LDPCMatrices.H := NdArray.astype_uint8 H0;
                   LDPCMatrices.G := generator_of (Z.to_nat k) H0;
                   LDPCMatrices.message_bits := k;
                   LDPCMatrices.codeword_bits := n |})
      end
  end.
Proof.
  intros k n. unfold Pipeline.create_ldpc_matrices. fold k n.
  destruct (make_ldpc env) as [make |]; [| reflexivity].
  destruct (make n (Config.dv config) (Config.dc config) (Config.seed config)) as [H0 | e];
    [| reflexivity].
  cbn [Py.bind]. unfold NdArray.identity.
  destruct (0 <=? k) eqn:Hk.
  2:{ apply Z.leb_gt in Hk. left. split; [exact Hk | reflexivity]. }
  apply Z.leb_le in Hk. right. cbn [Py.bind]. unfold NdArray.hconcat.
  cbn [NdArray.nrows NdArray.ncols NdArray.rows NdArray.transpose NdArray.take_cols].
  unfold clamp_index. replace (k <? 0) with false by (symmetry; apply Z.ltb_ge; lia).
  destruct (Z.le_gt_cases k (Z.of_nat (NdArray.ncols H0))) as [Hcols | Hcols].
  2:{ left. split; [exact Hk |]. split; [exact Hcols |].
      rewrite Z.min_r by lia. rewrite Nat2Z.id.
      replace (Nat.eqb (Z.to_nat k) (NdArray.ncols H0)) with false
        by (symmetry; apply Nat.eqb_neq; lia).
      reflexivity. }
  right. rewrite Z.min_l by lia. rewrite Nat.eqb_refl. cbn [Py.bind].
  unfold NdArray.shape, NdArray.mod2, NdArray.map_entries.
  cbn [NdArray.nrows NdArray.ncols].
  rewrite Nat2Z.inj_add, Z2Nat.id by lia. rewrite Z.eqb_refl. cbn [andb].
  destruct (k + Z.of_nat (NdArray.nrows H0) =? n) eqn:Hn.
  - apply Z.eqb_eq in Hn. right. split; [lia |]. split; [exact Hn |].
    unfold generator_of, NdArray.mod2, NdArray.astype_uint8, NdArray.map_entries.
    cbn [NdArray.nrows NdArray.ncols NdArray.rows NdArray.transpose NdArray.take_cols].
    unfold clamp_index. rewrite Z2Nat.id by lia.
    replace (k <? 0) with false by (symmetry; apply Z.ltb_ge; lia).
    rewrite Z.min_l by lia. reflexivity.
  - apply Z.eqb_neq in Hn. left. split; [lia |]. split; [exact Hn | reflexivity].
Qed.

Lemma systematic_H_standard_form :
  standard_form (Z.to_nat (LDPCMatrices.message_bits systematic_matrices))
                (LDPCMatrices.H systematic_matrices).
Proof.
  unfold standard_form.
  change (List.length (NdArray.rows (LDPCMatrices.H systematic_matrices))) with 32%nat.
  intros t Ht.
  exists (firstn 128 (nth t (NdArray.rows (LDPCMatrices.H systematic_matrices)) [])).
  do 32 (destruct t as [| t]; [split; vm_compute; reflexivity |]).
  lia.
Qed.

Lemma standard_form_orthogonal_witness :
  orthogonal_mod2 (LDPCMatrices.G systematic_matrices) (LDPCMatrices.H systematic_matrices).
Proof.
  apply (standard_form_orthogonal (Fixtures.backends Fixtures.systematic_H)
           Config.default_ProtocolConfig Config.default_LDPCConfig systematic_matrices).
  - vm_compute. reflexivity.
  - exact systematic_H_standard_form.
Defined.

(* ===================================================================== *)
(** ** Frame assembly: [build_full_bitstream] *)
(* ===================================================================== *)

Lemma Forall_firstn {A : Type} (P : A -> Prop) (n : nat) (l : list A) :
  Forall P l -> Forall P (firstn n l).
Proof.
  intros Hl. rewrite <- (firstn_skipn n l) in Hl. apply Forall_app in Hl. apply Hl.
Qed.

Lemma Forall_skipn {A : Type} (P : A -> Prop) (n : nat) (l : list A) :
  Forall P l -> Forall P (skipn n l).
Proof.
  intros Hl. rewrite <- (firstn_skipn n l) in Hl. apply Forall_app in Hl. apply Hl.
Qed.

Lemma Forall_slice {A : Type} (P : A -> Prop) (l : list A) (s e : Z) :
  Forall P l -> Forall P (slice l s e).
Proof. intros Hl. unfold slice. apply Forall_firstn, Forall_skipn, Hl. Qed.

Lemma hex_to_bitstream_bits (hex_string : string) (expected_bits : Z) (bits : list Z) :
  Utils.hex_to_bitstream hex_string expected_bits = Ok bits -> Forall is_bit bits.
Proof.
  unfold Utils.hex_to_bitstream.
  destruct (expected_bits mod 8 =? 0); [| discriminate].
  intros Hrun. bind_inv Hrun. injection Hrun as <-. apply unpackbits_are_bits.
Qed.

Lemma encode_bits (m : list Z) (G : NdArray.t) (c : list Z) :
  Pipeline.encode m G = Ok c -> Forall is_bit c.
Proof.
  unfold Pipeline.encode. intros Hrun. bind_inv Hrun. injection Hrun as <-.
  apply Forall_forall. intros x Hx. apply in_map_iff in Hx as (y & <- & _).
  pose proof (Z.mod_pos_bound y 2 ltac:(lia)) as Hy. unfold wrap8.
  rewrite Z.mod_small by lia. unfold is_bit. lia.
Qed.

(** One turn of the assembly loop appends one frame made of bits. *)
Lemma frame_body_bits
      (payload_bits : list Z) (protocol : Config.ProtocolConfig)
      (matrices : LDPCMatrices.t) (total_frames : Z) (sync_bits target_bits : list Z)
      (state state' : list (list Z) * list log_entry) (frame_idx : Z) :
  Forall is_bit sync_bits -> Forall is_bit target_bits ->
  Forall (Forall is_bit) (fst state) ->
  Pipeline.frame_body payload_bits protocol matrices total_frames sync_bits target_bits
                      state frame_idx = Ok state' ->
  Forall (Forall is_bit) (fst state').
Proof.
  intros Hsync Htarget Hframes. destruct state as [frames logger].
  unfold Pipeline.frame_body. intros Hrun.
  bind_inv Hrun. bind_inv Hrun. bind_inv Hrun. bind_inv Hrun.
  rename a1 into command_bits, a2 into codeword.
  injection Hrun as <-. cbn [fst] in *.
  apply int_to_bitstream_renders in Hstep1 as (_ & Hcmd & _).
  apply encode_bits in Hstep2.
  apply Forall_app. split; [exact Hframes |]. constructor; [| constructor].
  repeat (apply Forall_app; split); trivial.
  - unfold slice_to. apply Forall_firstn. exact Hstep2.
  - unfold slice_from. apply Forall_skipn. exact Hstep2.
Qed.

Lemma foldM_frame_body_bits
      (payload_bits : list Z) (protocol : Config.ProtocolConfig)
      (matrices : LDPCMatrices.t) (total_frames : Z) (sync_bits target_bits : list Z) :
  Forall is_bit sync_bits -> Forall is_bit target_bits ->
  forall (indices : list Z) (state state' : list (list Z) * list log_entry),
    Forall (Forall is_bit) (fst state) ->
    foldM (Pipeline.frame_body payload_bits protocol matrices total_frames
                               sync_bits target_bits) indices state = Ok state' ->
    Forall (Forall is_bit) (fst state').
Proof.
  intros Hsync Htarget. induction indices as [| idx indices IH]; intros state state' Hst Hrun.
  - simpl in Hrun. injection Hrun as <-. exact Hst.
  - cbn [foldM] in Hrun.
    destruct (Pipeline.frame_body payload_bits protocol matrices total_frames
                sync_bits target_bits state idx) as [state1 | e] eqn:Hbody; [| discriminate].
    apply IH with (state := state1); [| exact Hrun].
    apply (frame_body_bits _ _ _ _ _ _ _ _ _ Hsync Htarget Hst Hbody).
Qed.

Lemma build_full_bitstream_stream_bits
        (payload_bits : list Z) (protocol : Config.ProtocolConfig)
        (matrices : LDPCMatrices.t) (logger : option (list log_entry))
        (stream : list Z) (total_frames : Z) (entries : list log_entry) :
  Pipeline.build_full_bitstream payload_bits protocol matrices logger
    = Ok (stream, total_frames, entries) ->
  Forall is_bit stream.
Proof.
  unfold Pipeline.build_full_bitstream. intros Hrun.
  bind_inv Hrun.
  destruct (negb (Config.max_frames protocol <? a)); [| discriminate].
  bind_inv Hrun. bind_inv Hrun. bind_inv Hrun. destruct a2 as [frames logger'].
  injection Hrun as <- _ _.
  apply hex_to_bitstream_bits in Hstep0, Hstep1.
  apply Forall_concat.
  change frames with (fst (frames, logger')).
  eapply (foldM_frame_body_bits _ _ _ _ _ _ Hstep0 Hstep1); [| exact Hstep2].
  constructor.
Qed.

(** X10: Whatever the protocol, the matrices and the values in the payload
    array, every entry of the stream that [build_full_bitstream] returns is
    0 or 1. *)
Theorem build_full_bitstream_bits
        (payload_bits : list Z) (protocol : Config.ProtocolConfig)
        (matrices : LDPCMatrices.t) (logger : option (list log_entry))
        (stream : list Z) (total_frames : Z) (entries : list log_entry) :
  Pipeline.build_full_bitstream payload_bits protocol matrices logger
    = Ok (stream, total_frames, entries) ->
  Forall is_bit stream.
Proof. apply build_full_bitstream_stream_bits. Qed.

Lemma build_full_bitstream_bits_witness : Forall is_bit stream_Hi.
Proof.
  apply (build_full_bitstream_bits payload_Hi Config.default_ProtocolConfig
           systematic_matrices None stream_Hi 1 entries_Hi).
  vm_compute. reflexivity.
Defined.

Lemma build_full_bitstream_returns_iff_witness :
  is_ok (Pipeline.build_full_bitstream payload_Hi Config.default_ProtocolConfig
                                       systematic_matrices None) = true
  <-> frames_needed (len payload_Hi) <= 255.
Proof.
  apply (build_full_bitstream_returns_iff (Fixtures.backends Fixtures.systematic_H)
           Config.default_LDPCConfig systematic_matrices payload_Hi None).
  vm_compute. reflexivity.
Defined.

Lemma padded_chunk_length (payload_bits : list Z) (i : Z) :
  0 <= i -> List.length (padded_chunk payload_bits i) = 128%nat.
Proof.
  intros Hi. unfold padded_chunk. cbv zeta.
  pose proof (slice_length_le payload_bits (i * 128) ((i + 1) * 128) ltac:(lia)) as Hle.
  destruct (len (slice payload_bits (i * 128) ((i + 1) * 128)) <? 128) eqn:Hshort.
  - apply Z.ltb_lt in Hshort. unfold Pipeline.pad_right, len in *.
    rewrite length_app, repeat_length. lia.
  - apply Z.ltb_ge in Hshort. unfold len in *. lia.
Qed.

Lemma padded_chunk_bits (payload_bits : list Z) (i : Z) :
  Forall is_bit payload_bits -> Forall is_bit (padded_chunk payload_bits i).
Proof.
  intros Hbits. unfold padded_chunk. cbv zeta.
  destruct (len (slice payload_bits (i * 128) ((i + 1) * 128)) <? 128).
  - unfold Pipeline.pad_right. apply Forall_app. split; [apply Forall_slice; exact Hbits |].
    apply Forall_forall. intros x Hx. apply repeat_spec in Hx. left. exact Hx.
  - apply Forall_slice. exact Hbits.
Qed.

(** The frame count the assembler reports when the message width is 128. *)
Lemma build_full_bitstream_total_frames
      (protocol : Config.ProtocolConfig) (matrices : LDPCMatrices.t)
      (payload_bits : list Z) (logger : option (list log_entry))
      (stream : list Z) (total_frames : Z) (entries : list log_entry) :
  LDPCMatrices.message_bits matrices = 128 ->
  Pipeline.build_full_bitstream payload_bits protocol matrices logger
    = Ok (stream, total_frames, entries) ->
  total_frames = frames_needed (len payload_bits) /\ 1 <= total_frames.
Proof.
  intros Hmsg Hbuild. unfold Pipeline.build_full_bitstream in Hbuild.
  bind_inv Hbuild.
  destruct (negb (Config.max_frames protocol <? a)); [| discriminate].
  bind_inv Hbuild. bind_inv Hbuild. bind_inv Hbuild. destruct a2 as [frames logger'].
  injection Hbuild as _ <- _.
  assert (Htf : a = frames_needed (len payload_bits)).
  { unfold frames_needed. destruct (len payload_bits =? 0).
    - injection Hstep as <-. reflexivity.
    - rewrite Hmsg in Hstep. unfold ceil_div in Hstep. simpl in Hstep.
      injection Hstep as <-. apply ceil_div_128. }
  split; [exact Htf |]. rewrite Htf. unfold frames_needed.
  destruct (len payload_bits =? 0) eqn:Hz; [lia |].
  apply Z.eqb_neq in Hz. pose proof (len_nonneg payload_bits).
  apply Z.div_le_lower_bound; lia.
Qed.

(** One turn of the assembly loop under the default protocol, with the
    codeword identified. *)
Lemma frame_body_default_codeword
      (payload_bits : list Z) (matrices : LDPCMatrices.t) (total_frames : Z)
      (frames : list (list Z)) (logger : list log_entry) (frame_idx : Z)
      (state' : list (list Z) * list log_entry) :
  LDPCMatrices.message_bits matrices = 128 ->
  NdArray.ncols (LDPCMatrices.G matrices) = 160%nat ->
  Pipeline.frame_body payload_bits Config.default_ProtocolConfig matrices total_frames
                      Fixtures.sync_bits target_id_bits (frames, logger) frame_idx
    = Ok state' ->
  exists command_bits codeword,
    fst state' = frames ++ [Fixtures.sync_bits ++ target_id_bits ++ command_bits ++ codeword] /\
    Utils.int_to_bitstream (command_word frame_idx total_frames) 32 = Ok command_bits /\
    Pipeline.encode (padded_chunk payload_bits frame_idx) (LDPCMatrices.G matrices)
      = Ok codeword /\
    List.length codeword = 160%nat.
Proof.
  intros Hk Hn. unfold Pipeline.frame_body, Pipeline.shl.
  cbn [Config.current_frame_shift Config.total_frames_shift Config.default_ProtocolConfig
       Config.command_opcode Config.frame_layout Config.command_type_symbols
       Config.default_FrameLayout].
  change (0 <=? 16) with true. change (0 <=? 24) with true. cbn [Py.bind].
  change (16 * 2) with 32. rewrite Hk.
  intros Hrun. bind_inv Hrun. bind_inv Hrun. rename a into command_bits, a0 into codeword.
  pose proof (encode_length _ _ _ Hstep0) as Hlen. rewrite Hn in Hlen.
  injection Hrun as <-. exists command_bits, codeword. cbn [fst].
  rewrite slice_to_firstn, slice_from_skipn by lia. rewrite firstn_skipn.
  repeat split; trivial.
Qed.

(** The frames of a stream returned by the assembler for the default
    protocol, one by one. *)
Lemma build_full_bitstream_frames
      (env : Backends) (config : Config.LDPCConfig) (matrices : LDPCMatrices.t)
      (payload_bits : list Z) (logger : option (list log_entry))
      (stream : list Z) (total_frames : Z) (entries : list log_entry) :
  Pipeline.create_ldpc_matrices env Config.default_ProtocolConfig config = Ok matrices ->
  Pipeline.build_full_bitstream payload_bits Config.default_ProtocolConfig matrices logger
    = Ok (stream, total_frames, entries) ->
  exists frames,
    stream = List.concat frames /\
    Z.of_nat (List.length frames) = total_frames /\
    Forall (fun f => List.length f = 256%nat) frames /\
    forall i, (i < List.length frames)%nat ->
      exists command_bits codeword,
        nth i frames [] = Fixtures.sync_bits ++ target_id_bits ++ command_bits ++ codeword /\
        List.length command_bits = 32%nat /\
        Pipeline.encode (padded_chunk payload_bits (Z.of_nat i)) (LDPCMatrices.G matrices)
          = Ok codeword /\
        List.length codeword = 160%nat.
Proof.
  intros Hcreate Hbuild.
  apply create_ldpc_matrices_inv in Hcreate
    as (H0 & k & Hk128 & Hn160 & _ & Hk & Hn & _ & HG).
  change (Config.message_bits (Config.frame_layout Config.default_ProtocolConfig))
    with 128 in Hk128.
  change (Config.codeword_bits (Config.frame_layout Config.default_ProtocolConfig))
    with 160 in Hn160.
  assert (Hmsg : LDPCMatrices.message_bits matrices = 128) by congruence.
  assert (Hcols : NdArray.ncols (LDPCMatrices.G matrices) = 160%nat).
  { rewrite HG. destruct (generator_of_shape k H0) as [_ ->]. lia. }
  pose proof (build_full_bitstream_total_frames _ _ _ _ _ _ _ Hmsg Hbuild) as (Htf & Hpos).
  unfold Pipeline.build_full_bitstream in Hbuild.
  bind_inv Hbuild.
  destruct (negb (Config.max_frames Config.default_ProtocolConfig <? a)); [| discriminate].
  change (Utils.hex_to_bitstream (Config.sync_sequence_hex Config.default_ProtocolConfig)
            (Config.sync_symbols (Config.frame_layout Config.default_ProtocolConfig) * 2))
    with (Ok Fixtures.sync_bits) in Hbuild.
  change (Utils.hex_to_bitstream (Config.target_id_hex Config.default_ProtocolConfig)
            (Config.target_id_symbols (Config.frame_layout Config.default_ProtocolConfig) * 2))
    with (Ok target_id_bits) in Hbuild.
  cbn [Py.bind] in Hbuild.
  bind_inv Hbuild. destruct a0 as [frames logger'].
  injection Hbuild as <- -> <-. unfold range in Hstep0.
  assert (Hloop : forall (m s : nat) (fs : list (list Z)) (lg : list log_entry) st',
             foldM (Pipeline.frame_body payload_bits Config.default_ProtocolConfig matrices
                      total_frames Fixtures.sync_bits target_id_bits)
                   (map Z.of_nat (seq s m)) (fs, lg) = Ok st' ->
             exists new_frames,
               fst st' = fs ++ new_frames /\ List.length new_frames = m /\
               forall i, (i < m)%nat ->
                 exists command_bits codeword,
                   nth i new_frames [] =
                     Fixtures.sync_bits ++ target_id_bits ++ command_bits ++ codeword /\
                   List.length command_bits = 32%nat /\
                   Pipeline.encode (padded_chunk payload_bits (Z.of_nat (s + i)))
                                   (LDPCMatrices.G matrices) = Ok codeword /\
                   List.length codeword = 160%nat).
  { induction m as [| m IH]; intros s fs lg st' Hrun.
    - simpl in Hrun. injection Hrun as <-. exists []. simpl.
      rewrite app_nil_r. repeat split; trivial. intros i Hi; lia.
    - cbn [seq map foldM] in Hrun.
      destruct (Pipeline.frame_body payload_bits Config.default_ProtocolConfig matrices
                  total_frames Fixtures.sync_bits target_id_bits (fs, lg) (Z.of_nat s))
        as [[fs1 lg1] | e] eqn:Hbody; [| discriminate].
      apply (frame_body_default_codeword _ _ _ _ _ _ _ Hmsg Hcols) in Hbody
        as (cb & cw & Hfs1 & Hcmd & Henc & Hlen).
      cbn [fst] in Hfs1. subst fs1.
      apply int_to_bitstream_renders in Hcmd as (Hcblen & _ & _).
      apply IH in Hrun as (rest & Hstate & Hrest & Hnth).
      exists ((Fixtures.sync_bits ++ target_id_bits ++ cb ++ cw) :: rest).
      repeat split.
      + rewrite Hstate, <- app_assoc. reflexivity.
      + simpl. rewrite Hrest. reflexivity.
      + intros [| i] Hi.
        * exists cb, cw. rewrite Nat.add_0_r. unfold len in Hcblen.
          repeat split; trivial. lia.
        * destruct (Hnth i) as (cb' & cw' & Hfr & Hc & He & Hl); [lia |].
          exists cb', cw'. replace (s + S i)%nat with (S s + i)%nat by lia.
          repeat split; trivial. }
  apply Hloop in Hstep0 as (new_frames & Hframes & Hcount & Hnth).
  cbn [fst app] in Hframes. subst frames.
  exists new_frames. split; [reflexivity |]. split; [lia |]. split.
  - apply Forall_forall. intros f Hf.
    apply In_nth with (d := []) in Hf as (i & Hi & <-).
    destruct (Hnth i) as (cb & cw & -> & Hcb & _ & Hlen); [lia |].
    rewrite !length_app, Hlen, Hcb.
    change (List.length Fixtures.sync_bits) with 32%nat.
    change (List.length target_id_bits) with 32%nat. lia.
  - intros i Hi. destruct (Hnth i) as (cb & cw & Hfr & Hcb & Henc & Hlen); [lia |].
    exists cb, cw. repeat split; trivial.
Qed.

(** X12: The payload in the stream.  For the default protocol and a payload made
    of bits, frame [i] of the assembled stream carries at offsets [96, 224)
    the [i]-th block of 128 payload bits, padded with zeros, and its bits
    [96, 256) are the codeword the generator matrix gives for that block. *)
Theorem frame_payload_layout :
  forall (env : Backends) (config : Config.LDPCConfig) (matrices : LDPCMatrices.t)
         (payload_bits : list Z) (logger : option (list log_entry))
         (stream : list Z) (total_frames : Z) (entries : list log_entry),
    Pipeline.create_ldpc_matrices env Config.default_ProtocolConfig config = Ok matrices ->
    Forall is_bit payload_bits ->
    Pipeline.build_full_bitstream payload_bits Config.default_ProtocolConfig matrices logger
      = Ok (stream, total_frames, entries) ->
    forall i, 0 <= i < total_frames ->
      slice stream (i * 256 + 96) (i * 256 + 224) = padded_chunk payload_bits i /\
      Pipeline.encode (padded_chunk payload_bits i) (LDPCMatrices.G matrices)
        = Ok (slice stream (i * 256 + 96) (i * 256 + 256)).
Proof.
  intros env config matrices payload_bits logger stream total_frames entries
         Hcreate Hbits Hbuild i Hi.
  destruct (build_full_bitstream_frames _ _ _ _ _ _ _ _ Hcreate Hbuild)
    as (frames & -> & Hcount & Huniform & Hnth).
  assert (Hi' : (Z.to_nat i < List.length frames)%nat) by lia.
  destruct (Hnth _ Hi') as (cb & cw & Hframe & Hcb & Henc & Hlen).
  rewrite Z2Nat.id in Henc by lia.
  destruct (nth_split frames [] Hi') as (before & after & Hsplit & Hbefore).
  assert (Hpre : len (List.concat before) = i * 256).
  { rewrite Hsplit in Huniform. apply Forall_app in Huniform as [Hb _].
    unfold len. rewrite (length_concat_uniform 256 _ Hb), Hbefore. lia. }
  assert (Hstream : List.concat frames =
                    List.concat before
                    ++ (Fixtures.sync_bits ++ target_id_bits ++ cb ++ cw)
                    ++ List.concat after).
  { rewrite Hsplit at 1. rewrite concat_app. simpl. rewrite Hframe. reflexivity. }
  assert (Hhead : len (List.concat before ++ Fixtures.sync_bits ++ target_id_bits ++ cb)
                  = i * 256 + 96).
  { unfold len in *. rewrite !length_app, Hcb.
    change (List.length Fixtures.sync_bits) with 32%nat.
    change (List.length target_id_bits) with 32%nat. lia. }
  assert (Hcodeword : slice (List.concat frames) (i * 256 + 96) (i * 256 + 256) = cw).
  { apply slice_at with (pre := List.concat before ++ Fixtures.sync_bits ++ target_id_bits ++ cb)
                        (post := List.concat after);
      [rewrite Hstream, <- !app_assoc; reflexivity | exact Hhead | unfold len; lia]. }
  (* the codeword starts with the chunk *)
  apply create_ldpc_matrices_inv in Hcreate
    as (H0 & k & Hk128 & _ & Hcols & _ & _ & _ & HG).
  change (Config.message_bits (Config.frame_layout Config.default_ProtocolConfig))
    with 128 in Hk128.
  assert (Hk : k = 128%nat) by lia. subst k. rewrite HG in Henc.
  destruct (encode_generator_of 128 H0 (padded_chunk payload_bits i) Hcols
              (padded_chunk_bits payload_bits i Hbits)
              (padded_chunk_length payload_bits i ltac:(lia)))
    as (c & Henc' & _ & Hfirst).
  rewrite Henc in Henc'. injection Henc' as <-.
  split; [| rewrite HG, Hcodeword; exact Henc].
  rewrite <- (firstn_skipn 128 cw) in Hstream.
  rewrite Hfirst in Hstream.
  apply slice_at with (pre := List.concat before ++ Fixtures.sync_bits ++ target_id_bits ++ cb)
                      (post := skipn 128 cw ++ List.concat after);
    [rewrite Hstream, <- !app_assoc; reflexivity | exact Hhead |].
  unfold len. rewrite padded_chunk_length by lia. lia.
Qed.

Lemma frame_payload_layout_witness :
  slice stream_Hi (0 * 256 + 96) (0 * 256 + 224) = padded_chunk payload_Hi 0 /\
  Pipeline.encode (padded_chunk payload_Hi 0) (LDPCMatrices.G systematic_matrices)
  = Ok (slice stream_Hi (0 * 256 + 96) (0 * 256 + 256)).
Proof.
  apply (frame_payload_layout (Fixtures.backends Fixtures.systematic_H)
           Config.default_LDPCConfig systematic_matrices payload_Hi None
           stream_Hi 1 entries_Hi).
  - vm_compute. reflexivity.
  - apply all_bits_Forall. vm_compute. reflexivity.
  - vm_compute. reflexivity.
  - lia.
Defined.

(* ===================================================================== *)
(** ** Symbol decision and demodulation: [demodulate_and_decode] *)
(* ===================================================================== *)

Lemma argmin_from_bounds (l : list Q) :
  forall (best_idx idx : Z) (best : Q),
    0 <= best_idx < idx ->
    0 <= Pipeline.argmin_from best_idx best idx l < idx + len l.
Proof.
  unfold len. induction l as [| x l IH]; intros best_idx idx best Hb.
  - simpl. lia.
  - cbn [Pipeline.argmin_from List.length].
    destruct (negb (Qle_bool best x)).
    + specialize (IH idx (idx + 1) x ltac:(lia)). lia.
    + specialize (IH best_idx (idx + 1) best ltac:(lia)). lia.
Qed.

Lemma argmin_cases (l : list Q) :
  match Pipeline.argmin l with
  | Ok idx => 0 <= idx < len l
  | Raise e => e = ValueError EmptySequence /\ l = []
  end.
Proof.
  destruct l as [| x l]; [split; reflexivity |].
  cbn [Pipeline.argmin]. pose proof (argmin_from_bounds l 0 1 x ltac:(lia)) as Hb.
  unfold len in *. cbn [List.length]. lia.
Qed.

Lemma qpsk_reverse_bit_map_bits (symbol_index : Z) (bits : list Z) :
  Pipeline.qpsk_reverse_bit_map symbol_index = Ok bits ->
  List.length bits = 2%nat /\ Forall is_bit bits.
Proof.
  unfold Pipeline.qpsk_reverse_bit_map.
  destruct symbol_index as [| p | p]; try discriminate.
  - intros Hb. injection Hb as <-. split; [reflexivity | apply all_bits_Forall; reflexivity].
  - destruct p as [[| |] | [| |] |]; try discriminate;
      intros Hb; injection Hb as <-;
      (split; [reflexivity | apply all_bits_Forall; reflexivity]).
Qed.

(** Every decision of the slicer is a pair of bits, whatever the phase map. *)
Lemma slice_phase_bits (phase_map : list angle) (phase : angle) (bits : list Z) :
  Pipeline.slice_phase phase_map phase = Ok bits ->
  List.length bits = 2%nat /\ Forall is_bit bits.
Proof.
  unfold Pipeline.slice_phase. intros Hrun. bind_inv Hrun.
  apply qpsk_reverse_bit_map_bits in Hrun. exact Hrun.
Qed.

(** X15: The slicer never fails on the transmitter's constellation: for every
    received phase it returns one of the four bit pairs. *)
Theorem slice_phase_total (phase : angle) :
  exists b1 b2, Pipeline.slice_phase Pipeline.qpsk_phase_map phase = Ok [b1; b2] /\
                is_bit b1 /\ is_bit b2.
Proof.
  unfold Pipeline.slice_phase.
  set (diffs := map Qabs (map (fun m => Pipeline.wrap_angle (phase - m)%Q)
                              Pipeline.qpsk_phase_map)).
  pose proof (argmin_cases diffs) as Harg.
  destruct (Pipeline.argmin diffs) as [idx | e].
  - assert (Hlen : len diffs = 4) by reflexivity. rewrite Hlen in Harg. cbn [Py.bind].
    assert (Hidx : idx = 0 \/ idx = 1 \/ idx = 2 \/ idx = 3) by lia.
    destruct Hidx as [-> | [-> | [-> | ->]]]; cbn [Pipeline.qpsk_reverse_bit_map];
      eexists; eexists; (split; [reflexivity | split; [(left; reflexivity) || (right; reflexivity)
                                                      | (left; reflexivity) || (right; reflexivity)]]).
  - destruct Harg as [_ Hnil]. discriminate.
Qed.

Lemma mapM_slice_phase_bits (phase_map : list angle) (phases : list angle)
      (decisions : list (list Z)) :
  mapM (Pipeline.slice_phase phase_map) phases = Ok decisions ->
  Forall is_bit (List.concat decisions) /\
  len (List.concat decisions) = 2 * len phases.
Proof.
  unfold len. revert decisions. induction phases as [| p phases IH]; intros decisions Hrun.
  - simpl in Hrun. injection Hrun as <-. split; [constructor | reflexivity].
  - cbn [mapM] in Hrun.
    destruct (Pipeline.slice_phase phase_map p) as [bits | e] eqn:Hp; [| discriminate].
    destruct (mapM (Pipeline.slice_phase phase_map) phases) as [rest | e]; [| discriminate].
    injection Hrun as <-. apply slice_phase_bits in Hp as [Hlen Hbits].
    destruct (IH rest eq_refl) as [Hall Hcount].
    cbn [List.concat List.length]. rewrite length_app, Hlen.
    split; [apply Forall_app; split; assumption | lia].
Qed.

Lemma count_ne_bounds (a b : list Z) (c : Z) :
  Pipeline.count_ne a b = Ok c -> 0 <= c <= Z.max (len a) (len b).
Proof.
  unfold Pipeline.count_ne, len.
  assert (Hfilter : forall l : list (Z * Z),
             (List.length (filter (fun xy => negb (fst xy =? snd xy)%Z) l) <= List.length l)%nat)
    by (intros l; apply filter_length_le).
  destruct (Nat.eqb (List.length a) (List.length b)) eqn:Hlen.
  - intros Hc. injection Hc as <-. specialize (Hfilter (combine a b)).
    rewrite length_combine in Hfilter. lia.
  - destruct a as [| x [| x' a]]; destruct b as [| y [| y' b]]; try discriminate;
      intros Hc; injection Hc as <-;
      repeat match goal with
             | |- context [if ?c then _ else _] => destruct c
             end;
      try match goal with
          | |- context [filter _ ?l] =>
              specialize (Hfilter l); rewrite ?length_map in Hfilter
          end;
      cbn [List.length] in *; lia.
Qed.

Lemma truediv_unit_interval (a b : Z) (q : Q) :
  0 <= a <= b -> truediv a b = Ok q -> 0 < b /\ (0 <= q <= 1)%Q.
Proof.
  intros Hab. unfold truediv. destruct (b =? 0) eqn:Hb; [discriminate |].
  apply Z.eqb_neq in Hb. replace (b <? 0) with false by (symmetry; apply Z.ltb_ge; lia).
  intros Hq. injection Hq as <-. split; [lia |].
  unfold Qle. cbn [Qnum Qden]. rewrite Z2Pos.id by lia. lia.
Qed.

(** The demodulated stream is brought to the length of the transmitted one,
    by zero padding or by truncation. *)
Lemma aligned_to_sent (demodulated sent : list Z) :
  let aligned :=
    if len demodulated <? len sent
    then Pipeline.pad_right demodulated (len sent - len demodulated)
    else slice_to demodulated (len sent) in
  len aligned = len sent /\ (Forall is_bit demodulated -> Forall is_bit aligned).
Proof.
  cbv zeta. pose proof (len_nonneg sent) as Hsent.
  destruct (len demodulated <? len sent) eqn:Hcmp.
  - apply Z.ltb_lt in Hcmp. unfold Pipeline.pad_right. split.
    + unfold len in *. rewrite length_app, repeat_length. lia.
    + intros Hbits. apply Forall_app. split; [exact Hbits |].
      apply Forall_forall. intros x Hx. apply repeat_spec in Hx. left. exact Hx.
  - apply Z.ltb_ge in Hcmp. rewrite slice_to_firstn by exact Hsent. split.
    + unfold len in *. rewrite length_firstn. lia.
    + apply Forall_firstn.
Qed.

(** X17: a run of [demodulate_and_decode] that returns has a non-empty
    transmitted stream and a non-empty payload; the demodulated stream has the
    length of the transmitted one and holds only bits; both error counts lie
    between zero and the length they are divided by, so both error rates are
    in [0, 1]; the decoded stream is no longer than the payload; and the sync
    pattern occurs in the demodulated stream strictly before the last
    position where it would fit. *)
Theorem demodulate_and_decode_result (env : Backends) (num : Numerics)
      (encoding : EncodingResult.t num) (matrices : LDPCMatrices.t)
      (sim_config : Config.SimulationConfig) (protocol : Config.ProtocolConfig) (plot : bool)
      (d : DemodulationResult.t num) :
  Pipeline.demodulate_and_decode env num encoding matrices sim_config protocol plot = Ok d ->
  let sent := EncodingResult.qpsk_bitstream encoding in
  let payload := EncodingResult.payload_bits encoding in
  let received := DemodulationResult.demodulated_bitstream d in
  (0 < len sent /\ 0 < len payload) /\
  (len received = len sent /\ Forall is_bit received) /\
  (0 <= DemodulationResult.pre_fec_errors d <= len sent /\
   (0 <= DemodulationResult.pre_fec_ber d <= 1)%Q) /\
  (0 <= DemodulationResult.post_fec_errors d <= len payload /\
   (0 <= DemodulationResult.post_fec_ber d <= 1)%Q) /\
  len (DemodulationResult.decoded_bitstream d) <= len payload /\
  exists sync p,
    Utils.hex_to_bitstream (Config.sync_sequence_hex protocol)
                           (Config.sync_symbols (Config.frame_layout protocol) * 2) = Ok sync /\
    0 <= p < len received - len sync /\
    slice received p (p + len sync) = sync.
Proof.
  unfold Pipeline.demodulate_and_decode. intros Hrun.
  destruct (ldpc_decode env) as [decode |]; [| discriminate].
  bind_inv Hrun. bind_inv Hrun. destruct a0 as [received_phases diag].
  bind_inv Hrun. rename a0 into decisions.
  apply mapM_slice_phase_bits in Hstep1 as [Hbits _].
  pose proof (aligned_to_sent (List.concat decisions)
                              (EncodingResult.qpsk_bitstream encoding)) as Halign.
  cbv zeta in Halign. cbv zeta in Hrun.
  set (received := if len (List.concat decisions) <? _ then _ else _) in *.
  destruct Halign as [Hlen Hrbits]. specialize (Hrbits Hbits).
  bind_inv Hrun. rename a0 into pre_fec_errors. rename Hstep1 into Hpre.
  bind_inv Hrun. rename a0 into pre_fec_ber. rename Hstep1 into Hber.
  bind_inv Hrun. rename a0 into sync. rename Hstep1 into Hsync.
  bind_inv Hrun. rename a0 into p. rename Hstep1 into Hfind.
  destruct (negb (Config.frame_bits (Config.frame_layout protocol) =? 0)); [| discriminate].
  bind_inv Hrun. destruct a0 as [decoded_payload_bits logger].
  bind_inv Hrun. rename a0 into post_fec_errors. rename Hstep2 into Hpost.
  bind_inv Hrun. rename a0 into post_fec_ber. rename Hstep2 into Hpber.
  injection Hrun as <-. cbn [DemodulationResult.demodulated_bitstream
    DemodulationResult.decoded_bitstream DemodulationResult.pre_fec_errors
    DemodulationResult.pre_fec_ber DemodulationResult.post_fec_errors
    DemodulationResult.post_fec_ber].
  apply count_ne_bounds in Hpre. rewrite Hlen, Z.max_id in Hpre.
  apply (truediv_unit_interval _ _ _ Hpre) in Hber as [Hsent Hber].
  pose proof (len_nonneg (EncodingResult.payload_bits encoding)) as Hpayload.
  assert (Htrim : len (slice_to (map wrap8 decoded_payload_bits)
                                (len (EncodingResult.payload_bits encoding)))
                  <= len (EncodingResult.payload_bits encoding)).
  { rewrite slice_to_firstn by exact Hpayload. unfold len in *.
    rewrite length_firstn. lia. }
  apply count_ne_bounds in Hpost. rewrite Z.max_l in Hpost by exact Htrim.
  apply (truediv_unit_interval _ _ _ Hpost) in Hpber as [Hpos Hpber].
  pose proof (find_sync_spec received sync) as Hspec. cbv zeta in Hspec.
  rewrite Hfind in Hspec. destruct Hspec as (Hp & Hwindow & _).
  repeat split; try assumption; try lia; try apply Hber; try apply Hpber.
  exists sync, p. repeat split; try assumption; lia.
Qed.

Lemma demodulate_and_decode_result_witness :
  let sent := EncodingResult.qpsk_bitstream encoding_Hi in
  let payload := EncodingResult.payload_bits encoding_Hi in
  let received := DemodulationResult.demodulated_bitstream demodulation_Hi in
  (0 < len sent /\ 0 < len payload) /\
  (len received = len sent /\ Forall is_bit received) /\
  (0 <= DemodulationResult.pre_fec_errors demodulation_Hi <= len sent /\
   (0 <= DemodulationResult.pre_fec_ber demodulation_Hi <= 1)%Q) /\
  (0 <= DemodulationResult.post_fec_errors demodulation_Hi <= len payload /\
   (0 <= DemodulationResult.post_fec_ber demodulation_Hi <= 1)%Q) /\
  len (DemodulationResult.decoded_bitstream demodulation_Hi) <= len payload /\
  exists sync p,
    Utils.hex_to_bitstream (Config.sync_sequence_hex Config.default_ProtocolConfig)
      (Config.sync_symbols (Config.frame_layout Config.default_ProtocolConfig) * 2)
    = Ok sync /\
    0 <= p < len received - len sync /\
    slice received p (p + len sync) = sync.
Proof.
  apply (demodulate_and_decode_result
           (Fixtures.backends Fixtures.systematic_H) (Fixtures.numerics Fixtures.swap_01)
           encoding_Hi systematic_matrices Config.default_SimulationConfig
           Config.default_ProtocolConfig false demodulation_Hi).
  vm_compute. reflexivity.
Defined.

(* ===================================================================== *)
(** ** Assembler and decoder, one after the other *)
(* ===================================================================== *)

Lemma foldM_app {A S : Type} (f : S -> A -> result S) (l1 l2 : list A) (s : S) :
  foldM f (l1 ++ l2) s = (s' <- foldM f l1 s ;; foldM f l2 s').
Proof.
  revert s. induction l1 as [| x l1 IH]; intros s; [reflexivity |].
  cbn [app foldM]. destruct (f s x) as [s' | e]; [apply IH | reflexivity].
Qed.

Lemma mapM_nth {A B : Type} (f : A -> result B) (l : list A) (r : list B) :
  mapM f l = Ok r ->
  List.length r = List.length l /\
  forall (i : nat) (d : A) (d' : B), (i < List.length l)%nat ->
    f (nth i l d) = Ok (nth i r d').
Proof.
  revert r. induction l as [| x l IH]; intros r Hrun.
  - injection Hrun as <-. split; [reflexivity |]. intros i d d' Hi. inversion Hi.
  - cbn [mapM] in Hrun. destruct (f x) as [y | e] eqn:Hx; [| discriminate].
    destruct (mapM f l) as [ys | e]; [| discriminate]. injection Hrun as <-.
    destruct (IH ys eq_refl) as [Hlen Hnth]. split; [simpl; lia |].
    intros [| i] d d' Hi; [exact Hx |]. cbn [nth]. apply Hnth. simpl in Hi. lia.
Qed.

Lemma firstn_S_nth {A : Type} (l : list A) (n : nat) (d : A) :
  (n < List.length l)%nat -> firstn (S n) l = firstn n l ++ [nth n l d].
Proof.
  revert n. induction l as [| x l IH]; intros n Hn; [inversion Hn |].
  destruct n as [| n]; [reflexivity |].
  cbn [firstn nth app]. rewrite <- IH by (simpl in Hn; lia). reflexivity.
Qed.

(** In a concatenation of frames of [c] entries, the slice
    [[i c : (i + 1) c]] is frame [i]. *)
Lemma slice_concat_uniform {A : Type} (c : nat) (frames : list (list A)) (i : nat) :
  Forall (fun f => List.length f = c) frames ->
  (i < List.length frames)%nat ->
  slice (List.concat frames) (Z.of_nat i * Z.of_nat c) ((Z.of_nat i + 1) * Z.of_nat c)
  = nth i frames [].
Proof.
  intros Hall Hi.
  destruct (nth_split frames [] Hi) as (l1 & l2 & Hsplit & Hlen1).
  assert (Hc : List.length (nth i frames []) = c).
  { rewrite Forall_forall in Hall. apply Hall, nth_In, Hi. }
  apply (slice_at _ (List.concat l1) _ (List.concat l2)).
  - rewrite Hsplit at 1. rewrite concat_app. reflexivity.
  - rewrite Hsplit in Hall. apply Forall_app in Hall as [Hall1 _].
    unfold len. rewrite (length_concat_uniform c l1 Hall1), Hlen1. lia.
  - unfold len. rewrite Hc. lia.
Qed.

(** The decoding loop over the frames of an error-free stream: frame [i]
    hands its codeword to the decoder, and the decoded messages are
    collected in order. *)
Lemma foldM_decode_body_frames
      (decode : NdArray.t -> list Z -> Q -> result (list Z))
      (matrices : LDPCMatrices.t) (sim_config : Config.SimulationConfig)
      (frames messages : list (list Z)) (num_frames : Z) :
  LDPCMatrices.codeword_bits matrices = 160 ->
  Forall (fun f => List.length f = 256%nat) frames ->
  List.length messages = List.length frames ->
  (forall i, (i < List.length frames)%nat ->
     exists header codeword,
       nth i frames [] = header ++ codeword /\
       List.length header = 96%nat /\ List.length codeword = 160%nat /\
       decode (LDPCMatrices.H matrices) codeword (Config.snr_db sim_config)
         = Ok (nth i messages [])) ->
  forall m, (m <= List.length frames)%nat ->
  forall logger, exists logger',
    foldM (Pipeline.decode_body decode (List.concat frames) 256 num_frames matrices
                                sim_config Config.default_ProtocolConfig)
          (map Z.of_nat (seq 0 m)) ([], logger)
    = Ok (List.concat (firstn m messages), logger').
Proof.
  intros Hcw Hall Hlen Hframes. induction m as [| m IH]; intros Hm logger.
  - exists logger. reflexivity.
  - destruct (IH ltac:(lia) logger) as [logger1 Hfold].
    rewrite seq_S, map_app, foldM_app, Hfold. cbn [Py.bind map foldM Nat.add].
    destruct (Hframes m ltac:(lia)) as (header & codeword & Hnth & Hh & Hc & Hdec).
    unfold Pipeline.decode_body.
    change (Config.frame_layout Config.default_ProtocolConfig) with Config.default_FrameLayout.
    cbn [Config.sync_symbols Config.target_id_symbols Config.command_type_symbols
         Config.default_FrameLayout].
    rewrite Hcw.
    assert (Hslice : slice (List.concat frames) (Z.of_nat m * 256) ((Z.of_nat m + 1) * 256)
                     = nth m frames [])
      by exact (slice_concat_uniform 256 frames m Hall ltac:(lia)).
    rewrite Hslice.
    assert (Hframe : len (nth m frames []) = 256).
    { rewrite Hnth. unfold len. rewrite length_app, Hh, Hc. reflexivity. }
    rewrite Hframe. change ((16 + 16 + 16) * 2 + 160) with 256.
    change ((16 + 16 + 16) * 2) with 96. rewrite Z.ltb_irrefl.
    rewrite (slice_at (nth m frames []) header codeword [] 96 256);
      [| rewrite app_nil_r; exact Hnth | unfold len; rewrite Hh; reflexivity
       | unfold len; rewrite Hc; reflexivity ].
    rewrite Hdec. cbn [Py.bind].
    rewrite (firstn_S_nth messages m []) by lia.
    rewrite concat_app. cbn [List.concat]. rewrite app_nil_r.
    eexists. reflexivity.
Qed.

Lemma firstn_skipn_repeat {A : Type} (x : A) (j k n : nat) :
  firstn j (skipn k (repeat x n)) = repeat x (Nat.min j (n - k)).
Proof.
  revert j k. induction n as [| n IH]; intros j k.
  - destruct k, j; reflexivity.
  - destruct k as [| k].
    + cbn [skipn Nat.sub]. destruct j as [| j]; [reflexivity |].
      cbn [repeat firstn Nat.min]. f_equal.
      specialize (IH j 0%nat). cbn [skipn] in IH. rewrite Nat.sub_0_r in IH. exact IH.
    + cbn [repeat skipn Nat.sub]. apply IH.
Qed.

(** The padded chunk of frame [i] is the [i]-th block of 128 entries of the
    payload followed by zeros. *)
Lemma padded_chunk_block (payload_bits : list Z) (m i : nat) :
  (i < m)%nat ->
  padded_chunk payload_bits (Z.of_nat i)
  = firstn 128 (skipn (i * 128) (payload_bits ++ repeat 0 (m * 128))).
Proof.
  intros Hi. unfold padded_chunk. cbv zeta.
  rewrite slice_firstn_skipn by lia.
  replace (Z.to_nat ((Z.of_nat i + 1) * 128 - Z.of_nat i * 128)) with 128%nat by lia.
  replace (Z.to_nat (Z.of_nat i * 128)) with (i * 128)%nat by lia.
  rewrite skipn_app, firstn_app, firstn_skipn_repeat.
  set (rest := skipn (i * 128) payload_bits).
  assert (Hrest : List.length rest = (List.length payload_bits - i * 128)%nat)
    by (unfold rest; apply length_skipn).
  unfold len, Pipeline.pad_right. rewrite length_firstn.
  destruct (Z.of_nat (Nat.min 128 (List.length rest)) <? 128) eqn:Hshort.
  - apply Z.ltb_lt in Hshort. rewrite (firstn_all2 rest) by lia.
    f_equal. f_equal. lia.
  - apply Z.ltb_ge in Hshort.
    replace (Nat.min (128 - List.length rest) _) with 0%nat by lia.
    cbn [repeat]. rewrite app_nil_r. reflexivity.
Qed.

(** The padded chunks of the frames, put end to end, start with the payload. *)
Lemma padded_chunks_start_with_payload (payload_bits : list Z) (m : nat) :
  (List.length payload_bits <= m * 128)%nat ->
  firstn (List.length payload_bits)
         (List.concat (map (padded_chunk payload_bits) (map Z.of_nat (seq 0 m))))
  = payload_bits.
Proof.
  intros Hfit. rewrite map_map.
  rewrite (map_ext_in _ (fun i => firstn 128 (skipn (i * 128)
                                   (payload_bits ++ repeat 0 (m * 128))))).
  - rewrite concat_consecutive_chunks. cbn [Nat.mul skipn].
    rewrite firstn_firstn, Nat.min_l by exact Hfit.
    rewrite firstn_app, firstn_all, Nat.sub_diag. cbn [firstn]. apply app_nil_r.
  - intros i Hin. apply in_seq in Hin. apply padded_chunk_block. lia.
Qed.

Lemma map_wrap8_bits (bits : list Z) : Forall is_bit bits -> map wrap8 bits = bits.
Proof.
  induction 1 as [| b bits Hb _ IH]; [reflexivity |].
  cbn [map]. rewrite IH. destruct Hb as [-> | ->]; reflexivity.
Qed.

Lemma count_ne_same (bits : list Z) : Pipeline.count_ne bits bits = Ok 0.
Proof.
  unfold Pipeline.count_ne. rewrite Nat.eqb_refl. f_equal.
  induction bits as [| b bits IH]; [reflexivity |].
  cbn [combine filter fst snd]. rewrite Z.eqb_refl. exact IH.
Qed.

(** A stream that starts with the sync pattern and is longer than it is
    synchronised at position 0. *)
Lemma find_sync_at_start (sync rest : list Z) :
  0 < len rest -> Pipeline.find_sync (sync ++ rest) sync = Ok 0.
Proof.
  intros Hrest.
  assert (Hwindow : slice (sync ++ rest) 0 (0 + len sync) = sync)
    by (apply (slice_at _ [] sync rest); reflexivity).
  assert (Hlen : len (sync ++ rest) - len sync = len rest)
    by (unfold len; rewrite length_app; lia).
  pose proof (find_sync_spec (sync ++ rest) sync) as Hspec. cbv zeta in Hspec.
  destruct (Pipeline.find_sync (sync ++ rest) sync) as [p | e].
  - destruct Hspec as (Hp & _ & Hfirst). f_equal.
    destruct (Z.eq_dec p 0) as [-> | Hne]; [reflexivity |].
    exfalso. apply (Hfirst 0); [lia | exact Hwindow].
  - destruct Hspec as (_ & Hnone). exfalso. apply (Hnone 0); [lia | exact Hwindow].
Qed.

(** What a returned [EncodingResult] holds. *)
Lemma generate_modulated_signal_inv (env : Backends) (num : Numerics)
      (sim_config : Config.SimulationConfig) (protocol : Config.ProtocolConfig)
      (matrices : LDPCMatrices.t) (plaintext : option (list Z))
      (rng : option (generator num)) (encoding : EncodingResult.t num) :
  Pipeline.generate_modulated_signal env num sim_config protocol matrices plaintext rng
    = Ok encoding ->
  scipy_signal env = true /\
  Utils.string_to_bitstream
    (match plaintext with None => Config.plaintext_source sim_config | Some text => text end)
    = Ok (EncodingResult.payload_bits encoding) /\
  (exists logger entries,
     Pipeline.build_full_bitstream (EncodingResult.payload_bits encoding) protocol matrices
                                   (Some logger)
     = Ok (EncodingResult.qpsk_bitstream encoding, EncodingResult.total_frames encoding,
           entries)) /\
  EncodingResult.qpsk_phase_map encoding = Pipeline.qpsk_phase_map /\
  exists pairs symbols,
    Pipeline.reshape_pairs (EncodingResult.qpsk_bitstream encoding) = Ok pairs /\
    mapM Pipeline.qpsk_symbol_map pairs = Ok symbols /\
    synthesize num sim_config protocol (EncodingResult.duration_and_samples encoding)
               (map (Pipeline.phase_of_symbol Pipeline.qpsk_phase_map) symbols) rng
    = Ok (EncodingResult.clean_signal encoding, EncodingResult.noisy_signal encoding).
Proof.
  unfold Pipeline.generate_modulated_signal, Pipeline._ensure_signal_backend.
  intros Hrun. destruct (scipy_signal env); [| discriminate]. cbn [Py.bind] in Hrun.
  bind_inv Hrun. bind_inv Hrun. destruct a0 as [[stream total_frames] entries].
  bind_inv Hrun. bind_inv Hrun. bind_inv Hrun. bind_inv Hrun.
  destruct a3 as [clean noisy]. injection Hrun as <-.
  cbn [EncodingResult.payload_bits EncodingResult.qpsk_bitstream EncodingResult.total_frames
       EncodingResult.qpsk_phase_map EncodingResult.duration_and_samples
       EncodingResult.clean_signal EncodingResult.noisy_signal].
  split; [reflexivity |]. split; [exact Hstep |].
  split; [eexists; eexists; exact Hstep0 |]. split; [reflexivity |].
  eexists; eexists. split; [exact Hstep2 |]. split; [exact Hstep3 | exact Hstep4].
Qed.

Lemma truediv_zero (b : Z) : 0 < b -> exists q, truediv 0 b = Ok q /\ (q == 0)%Q.
Proof.
  intros Hb. unfold truediv.
  replace (b =? 0) with false by (symmetry; apply Z.eqb_neq; lia).
  replace (b <? 0) with false by (symmetry; apply Z.ltb_ge; lia).
  eexists. split; [reflexivity | reflexivity].
Qed.

Lemma nth_range (n : Z) (i : nat) (d : Z) :
  (i < Z.to_nat n)%nat -> nth i (range n) d = Z.of_nat i.
Proof.
  intros Hi. unfold range.
  rewrite (nth_map_lt Z.of_nat (seq 0 (Z.to_nat n)) i 0%nat d)
    by (rewrite length_seq; exact Hi).
  rewrite seq_nth by exact Hi. reflexivity.
Qed.

(** X18: the frame assembler and the decoding loop agree on the frame
    layout.  For the default protocol and matrices returned by
    [create_ldpc_matrices], take an encoding returned by
    [generate_modulated_signal] for a non-empty plaintext.  If the slicer's
    decisions reproduce the transmitted stream and the decoder returns, for
    the codeword of every frame, the message chunk that was encoded, then
    [demodulate_and_decode] returns: the sync pattern is found at position 0,
    every frame is cut at the right offsets, both error counts are zero, the
    decoded stream is the payload, and the recovered message is the decoding
    of the payload's bytes. *)
Theorem error_free_run_recovers_payload
      (env : Backends) (num : Numerics) (config : Config.LDPCConfig)
      (matrices : LDPCMatrices.t) (sim_config : Config.SimulationConfig)
      (plaintext : option (list Z)) (rng : option (generator num))
      (encoding : EncodingResult.t num) (plot : bool)
      (decode : NdArray.t -> list Z -> Q -> result (list Z))
      (received_phases : list angle) (diag : diagnostics num)
      (decisions : list (list Z)) :
  let payload := EncodingResult.payload_bits encoding in
  let frame_indices := range (EncodingResult.total_frames encoding) in
  Pipeline.create_ldpc_matrices env Config.default_ProtocolConfig config = Ok matrices ->
  Pipeline.generate_modulated_signal env num sim_config Config.default_ProtocolConfig
                                     matrices plaintext rng = Ok encoding ->
  0 < len payload ->
  ldpc_decode env = Some decode ->
  receive num (EncodingResult.noisy_signal encoding) sim_config Config.default_ProtocolConfig
    = Ok (received_phases, diag) ->
  mapM (Pipeline.slice_phase Pipeline.qpsk_phase_map) received_phases = Ok decisions ->
  List.concat decisions = EncodingResult.qpsk_bitstream encoding ->
  mapM (fun i => codeword <- Pipeline.encode (padded_chunk payload i)
                                             (LDPCMatrices.G matrices) ;;
                 decode (LDPCMatrices.H matrices) codeword (Config.snr_db sim_config))
       frame_indices
    = Ok (map (padded_chunk payload) frame_indices) ->
  exists d,
    Pipeline.demodulate_and_decode env num encoding matrices sim_config
                                   Config.default_ProtocolConfig plot = Ok d /\
    DemodulationResult.demodulated_bitstream d = EncodingResult.qpsk_bitstream encoding /\
    (DemodulationResult.pre_fec_errors d = 0 /\
     (DemodulationResult.pre_fec_ber d == 0)%Q) /\
    DemodulationResult.decoded_bitstream d = payload /\
    (DemodulationResult.post_fec_errors d = 0 /\
     (DemodulationResult.post_fec_ber d == 0)%Q) /\
    DemodulationResult.recovered_message d
    = Pipeline.rstrip_nul (decode_utf8_ignore num (Utils.packbits payload)).
Proof.
  intros payload frame_indices Hcreate Hgen Hnonempty Hdecode Hreceive Hslice Herrfree Hdec.
  apply generate_modulated_signal_inv in Hgen
    as (Hscipy & Hpayload & (logger0 & entries & Hbuild) & Hmap & _).
  fold payload in Hpayload, Hbuild.
  set (stream := EncodingResult.qpsk_bitstream encoding) in *.
  set (total_frames := EncodingResult.total_frames encoding) in *.
  assert (Hbits : Forall is_bit payload).
  { unfold Utils.string_to_bitstream in Hpayload. bind_inv Hpayload.
    injection Hpayload as <-. apply unpackbits_are_bits. }
  destruct (build_full_bitstream_frames env config matrices payload _ stream total_frames
              entries Hcreate Hbuild) as (frames & Hstream & Hcount & Hall & Hframes).
  pose proof Hcreate as Hinv.
  apply create_ldpc_matrices_inv in Hinv
    as (H0 & k & Hk128 & Hn160 & _ & Hk & Hn & _ & _).
  assert (Hmsg : LDPCMatrices.message_bits matrices = 128) by (rewrite Hk, <- Hk128; reflexivity).
  assert (Hcw : LDPCMatrices.codeword_bits matrices = 160) by (rewrite Hn, <- Hn160; reflexivity).
  destruct (build_full_bitstream_total_frames _ _ _ _ _ _ _ Hmsg Hbuild) as [Htf Hone].
  assert (Hlen : len stream = 256 * total_frames).
  { unfold len. rewrite Hstream, (length_concat_uniform 256 frames Hall). lia. }
  assert (Hfit : (List.length payload <= List.length frames * 128)%nat).
  { unfold frames_needed in Htf. unfold len in *.
    destruct (Z.of_nat (List.length payload) =? 0) eqn:Hz; [apply Z.eqb_eq in Hz; lia |].
    pose proof (Z.div_mod (Z.of_nat (List.length payload) + 127) 128 ltac:(lia)) as Hdm.
    pose proof (Z.mod_pos_bound (Z.of_nat (List.length payload) + 127) 128 ltac:(lia)). lia. }
  (* the decoder's answers, frame by frame *)
  apply mapM_nth in Hdec as [_ Hdec].
  assert (Hnf : Z.to_nat total_frames = List.length frames) by lia.
  assert (Hranges : List.length frame_indices = List.length frames).
  { unfold frame_indices, range. rewrite length_map, length_seq. exact Hnf. }
  destruct (foldM_decode_body_frames decode matrices sim_config frames
              (map (padded_chunk payload) frame_indices) total_frames Hcw Hall
              ltac:(rewrite length_map; exact Hranges)) with (m := List.length frames)
              (logger := Utils.emit (Utils.emit [] LogRecovery) (LogPreFec 0))
    as [logger' Hfold]; [| lia |].
  { intros i Hi. destruct (Hframes i Hi) as (command_bits & codeword & Hnth & Hc & Henc & Hcwl).
    exists (Fixtures.sync_bits ++ target_id_bits ++ command_bits), codeword.
    split; [rewrite Hnth, <- !app_assoc; reflexivity |].
    split; [rewrite !length_app, Hc; reflexivity |]. split; [exact Hcwl |].
    specialize (Hdec i 0 [] ltac:(lia)).
    unfold frame_indices in Hdec at 1. fold total_frames in Hdec.
    rewrite nth_range in Hdec by lia. rewrite Henc in Hdec. exact Hdec. }
  rewrite <- Hstream in Hfold.
  rewrite firstn_all2 in Hfold by (rewrite length_map; lia).
  assert (Hsync : Pipeline.find_sync stream Fixtures.sync_bits = Ok 0).
  { destruct frames as [| frame0 frames']; [cbn [List.length] in Hcount; lia |].
    destruct (Hframes 0%nat ltac:(cbn [List.length]; lia))
      as (command_bits & codeword & Hnth & Hc & _).
    cbn [nth] in Hnth. rewrite Hstream. cbn [List.concat]. rewrite Hnth, <- app_assoc.
    apply find_sync_at_start. unfold len. rewrite !length_app, Hc. lia. }
  assert (Htrim : slice_to (map wrap8 (List.concat (map (padded_chunk payload) frame_indices)))
                           (len payload) = payload).
  { rewrite slice_to_firstn by lia. unfold len. rewrite Nat2Z.id, firstn_map.
    unfold frame_indices, range. rewrite Hnf.
    rewrite padded_chunks_start_with_payload by exact Hfit.
    apply map_wrap8_bits, Hbits. }
  assert (Hwhole : slice_to stream (len stream) = stream).
  { rewrite slice_to_firstn by apply len_nonneg. unfold len. rewrite Nat2Z.id.
    apply firstn_all. }
  destruct (truediv_zero (len stream) ltac:(lia)) as (pre_fec_ber & Hpre & Hpre0).
  destruct (truediv_zero (len payload) Hnonempty) as (post_fec_ber & Hpost & Hpost0).
  assert (Hhex : Utils.hex_to_bitstream
                   (Config.sync_sequence_hex Config.default_ProtocolConfig)
                   (Config.sync_symbols (Config.frame_layout Config.default_ProtocolConfig) * 2)
                 = Ok Fixtures.sync_bits) by (vm_compute; reflexivity).
  assert (Hframes_count : len stream / 256 = total_frames).
  { rewrite Hlen, Z.mul_comm. apply Z.div_mul. lia. }
  unfold Pipeline.demodulate_and_decode, Pipeline._ensure_signal_backend.
  rewrite Hdecode, Hscipy. cbn [Py.bind]. rewrite Hreceive. cbn [Py.bind].
  rewrite Hmap, Hslice. cbn [Py.bind]. rewrite Herrfree. fold stream.
  rewrite Z.ltb_irrefl, Hwhole, count_ne_same. cbn [Py.bind]. rewrite Hpre. cbn [Py.bind].
  rewrite Hhex. cbn [Py.bind]. rewrite Hsync. cbn [Py.bind].
  rewrite (slice_from_skipn stream 0) by lia. cbn [Z.to_nat skipn].
  change (Config.frame_bits (Config.frame_layout Config.default_ProtocolConfig)) with 256.
  cbn [Z.eqb negb]. rewrite Hframes_count.
  unfold range. rewrite Hnf, Hfold. cbn [Py.bind]. fold payload.
  rewrite Htrim, count_ne_same. cbn [Py.bind]. rewrite Hpost. cbn [Py.bind].
  eexists. split; [reflexivity |].
  cbn [DemodulationResult.demodulated_bitstream DemodulationResult.decoded_bitstream
       DemodulationResult.recovered_message DemodulationResult.pre_fec_errors
       DemodulationResult.pre_fec_ber DemodulationResult.post_fec_errors
       DemodulationResult.post_fec_ber].
  repeat split; try reflexivity; assumption.
Qed.

Lemma error_free_run_recovers_payload_witness :
  exists d,
    Pipeline.demodulate_and_decode
      (Fixtures.backends Fixtures.systematic_H) (Fixtures.numerics Fixtures.swap_01)
      encoding_Hi systematic_matrices Config.default_SimulationConfig
      Config.default_ProtocolConfig false = Ok d /\
    DemodulationResult.demodulated_bitstream d = EncodingResult.qpsk_bitstream encoding_Hi /\
    (DemodulationResult.pre_fec_errors d = 0 /\
     (DemodulationResult.pre_fec_ber d == 0)%Q) /\
    DemodulationResult.decoded_bitstream d = EncodingResult.payload_bits encoding_Hi /\
    (DemodulationResult.post_fec_errors d = 0 /\
     (DemodulationResult.post_fec_ber d == 0)%Q) /\
    DemodulationResult.recovered_message d
    = Pipeline.rstrip_nul
        (decode_utf8_ignore (Fixtures.numerics Fixtures.swap_01)
                            (Utils.packbits (EncodingResult.payload_bits encoding_Hi))).
Proof.
  apply (error_free_run_recovers_payload
           (Fixtures.backends Fixtures.systematic_H) (Fixtures.numerics Fixtures.swap_01)
           Config.default_LDPCConfig systematic_matrices Config.default_SimulationConfig
           (Some (Config.str "Hi")) None encoding_Hi false Fixtures.hard_decode
           received_phases_Hi tt decisions_Hi);
    vm_compute; reflexivity.
Defined.

(* ===================================================================== *)
(** ** Symbol mapping of a whole stream *)
(* ===================================================================== *)

Lemma slice_exact_phase (symbol : Z) :
  0 <= symbol <= 3 ->
  Pipeline.slice_phase Pipeline.qpsk_phase_map
    (Pipeline.phase_of_symbol Pipeline.qpsk_phase_map symbol)
  = Pipeline.qpsk_reverse_bit_map symbol.
Proof.
  intros Hs. assert (Hcases : symbol = 0 \/ symbol = 1 \/ symbol = 2 \/ symbol = 3) by lia.
  destruct Hcases as [-> | [-> | [-> | ->]]]; vm_compute; reflexivity.
Qed.

(** The modulator's lookups on a stream of bits of even length, followed by
    the slicer on the exact phases. *)
Lemma qpsk_stream_exact_phases (bits : list Z) :
  Forall is_bit bits -> Nat.even (List.length bits) = true ->
  exists pairs symbols decisions,
    Pipeline.reshape_pairs bits = Ok pairs /\
    mapM Pipeline.qpsk_symbol_map pairs = Ok symbols /\
    2 * len symbols = len bits /\
    Forall (fun s => 0 <= s <= 3) symbols /\
    mapM (Pipeline.slice_phase Pipeline.qpsk_phase_map)
         (map (Pipeline.phase_of_symbol Pipeline.qpsk_phase_map) symbols) = Ok decisions /\
    List.concat decisions = received_on_exact_phases bits.
Proof.
  unfold len. induction bits as [| | a b bits IH] using list_pair_ind; intros Hbits Heven.
  - exists [], [], []. repeat split; constructor.
  - discriminate.
  - inversion Hbits as [| ? ? Ha Hrest]; subst. inversion Hrest as [| ? ? Hb Hbits']; subst.
    destruct (IH Hbits' Heven) as (pairs & symbols & decisions & Hre & Hsym & Hlen & Hrange
                                   & Hdec & Hcat).
    assert (Hpair : exists s, Pipeline.qpsk_symbol_map (a, b) = Ok s /\ 0 <= s <= 3 /\
                              Pipeline.qpsk_reverse_bit_map s
                              = Ok [a; if a =? 0 then 1 - b else b]).
    { destruct Ha as [-> | ->], Hb as [-> | ->]; eexists;
        (split; [reflexivity | split; [lia | reflexivity]]). }
    destruct Hpair as (s & Hs & Hs03 & Hback).
    exists ((a, b) :: pairs), (s :: symbols), ([a; if a =? 0 then 1 - b else b] :: decisions).
    cbn [Pipeline.reshape_pairs mapM map List.concat received_on_exact_phases List.length app].
    rewrite Hre, Hs, Hsym, (slice_exact_phase s Hs03), Hback, Hdec, Hcat.
    repeat split; try reflexivity; [lia | constructor; assumption].
Qed.

(** An odd number of entries cannot be reshaped into pairs. *)
Lemma reshape_pairs_odd (bits : list Z) :
  Nat.even (List.length bits) = false ->
  Pipeline.reshape_pairs bits = Raise (ValueError ShapeMismatch).
Proof.
  induction bits as [| | a b bits IH] using list_pair_ind; intros Hodd.
  - discriminate.
  - reflexivity.
  - cbn [Pipeline.reshape_pairs]. rewrite IH by exact Hodd. reflexivity.
Qed.

(** X14: the symbol mapping of [generate_modulated_signal] followed by the
    slicer of [demodulate_and_decode], on a whole stream.  A stream of bits
    of even length is always mapped (no pair is missing from the
    dictionary, every symbol is in 0..3); when every received phase is
    exactly the transmitted one, the slicer's output has the length of the
    stream and differs from it in the second bit of every pair that starts
    with 0. *)
Theorem qpsk_stream_round_trip (bits : list Z) :
  Forall is_bit bits -> Nat.even (List.length bits) = true ->
  exists pairs symbols decisions,
    Pipeline.reshape_pairs bits = Ok pairs /\
    mapM Pipeline.qpsk_symbol_map pairs = Ok symbols /\
    2 * len symbols = len bits /\
    Forall (fun s => 0 <= s <= 3) symbols /\
    mapM (Pipeline.slice_phase Pipeline.qpsk_phase_map)
         (map (Pipeline.phase_of_symbol Pipeline.qpsk_phase_map) symbols) = Ok decisions /\
    List.concat decisions = received_on_exact_phases bits.
Proof. apply qpsk_stream_exact_phases. Qed.

Lemma qpsk_stream_round_trip_witness :
  exists pairs symbols decisions,
    Pipeline.reshape_pairs [0; 0; 0; 1; 1; 0; 1; 1] = Ok pairs /\
    mapM Pipeline.qpsk_symbol_map pairs = Ok symbols /\
    2 * len symbols = len [0; 0; 0; 1; 1; 0; 1; 1] /\
    Forall (fun s => 0 <= s <= 3) symbols /\
    mapM (Pipeline.slice_phase Pipeline.qpsk_phase_map)
         (map (Pipeline.phase_of_symbol Pipeline.qpsk_phase_map) symbols) = Ok decisions /\
    List.concat decisions = received_on_exact_phases [0; 0; 0; 1; 1; 0; 1; 1].
Proof.
  apply (qpsk_stream_round_trip [0; 0; 0; 1; 1; 0; 1; 1]).
  - apply all_bits_Forall. reflexivity.
  - reflexivity.
Defined.

(* ===================================================================== *)
(** ** When [generate_modulated_signal] returns *)
(* ===================================================================== *)

Lemma even_256_mul (n : nat) : Nat.even (256 * n) = true.
Proof.
  replace (256 * n)%nat with (2 * (128 * n))%nat by lia. apply Nat.even_even.
Qed.

(** X13: the outcomes of [generate_modulated_signal] for the default protocol
    and matrices returned by [create_ldpc_matrices], when the numeric
    kernels themselves do not fail.  It returns exactly when the signal
    backend is present, the plaintext can be encoded in UTF-8 and the
    payload needs at most 255 frames; the result then carries the payload
    bits, the frame count [max(1, ⌈|payload| / 128⌉)], and a stream of
    [256 · total_frames] bits.  The symbol lookup never fails. *)
Theorem generate_modulated_signal_cases
      (env : Backends) (num : Numerics) (config : Config.LDPCConfig)
      (matrices : LDPCMatrices.t) (sim_config : Config.SimulationConfig)
      (plaintext : option (list Z)) (rng : option (generator num)) :
  let text :=
    match plaintext with None => Config.plaintext_source sim_config | Some text => text end in
  Pipeline.create_ldpc_matrices env Config.default_ProtocolConfig config = Ok matrices ->
  (forall total_frames payload_bits,
     is_ok (plan_signal num sim_config Config.default_ProtocolConfig total_frames payload_bits)
     = true) ->
  (forall plan phases,
     is_ok (synthesize num sim_config Config.default_ProtocolConfig plan phases rng) = true) ->
  match Pipeline.generate_modulated_signal env num sim_config Config.default_ProtocolConfig
                                           matrices plaintext rng with
  | Ok encoding =>
      scipy_signal env = true /\
      Utils.string_to_bitstream text = Ok (EncodingResult.payload_bits encoding) /\
      EncodingResult.total_frames encoding
      = frames_needed (len (EncodingResult.payload_bits encoding)) /\
      1 <= EncodingResult.total_frames encoding <= 255 /\
      len (EncodingResult.qpsk_bitstream encoding) = 256 * EncodingResult.total_frames encoding /\
      Forall is_bit (EncodingResult.qpsk_bitstream encoding)
  | Raise e =>
      (scipy_signal env = false /\ e = ImportError "scipy") \/
      (scipy_signal env = true /\ Utils.string_to_bitstream text = Raise e) \/
      (scipy_signal env = true /\
       exists payload_bits, Utils.string_to_bitstream text = Ok payload_bits /\
                            256 <= frames_needed (len payload_bits))
  end.
Proof.
  intros text Hcreate Hplan Hsynth.
  pose proof Hcreate as Hinv.
  apply create_ldpc_matrices_inv in Hinv as (H0 & k & Hk128 & _ & _ & Hk & _ & _ & _).
  assert (Hmsg : LDPCMatrices.message_bits matrices = 128) by (rewrite Hk, <- Hk128; reflexivity).
  destruct (Pipeline.generate_modulated_signal env num sim_config Config.default_ProtocolConfig
              matrices plaintext rng) as [encoding | e] eqn:Hrun.
  - apply generate_modulated_signal_inv in Hrun
      as (Hscipy & Hpayload & (logger & entries & Hbuild) & _).
    split; [exact Hscipy |]. split; [exact Hpayload |].
    destruct (build_full_bitstream_total_frames _ _ _ _ _ _ _ Hmsg Hbuild) as [Htf Hone].
    split; [exact Htf |].
    destruct (build_full_bitstream_frames _ _ _ _ _ _ _ _ Hcreate Hbuild)
      as (frames & Hstream & Hcount & Hall & _).
    split; [split; [exact Hone |] |].
    + destruct (Z_le_gt_dec 256 (frames_needed (len (EncodingResult.payload_bits encoding))))
        as [Hbig | Hsmall]; [| lia].
      pose proof (build_full_bitstream_rejects_from_256 matrices _ (Some logger) Hmsg Hbig)
        as Hrej.
      rewrite Hbuild in Hrej. discriminate.
    + split.
      * unfold len. rewrite Hstream, (length_concat_uniform 256 frames Hall). lia.
      * apply (build_full_bitstream_stream_bits _ _ _ _ _ _ _ Hbuild).
  - unfold Pipeline.generate_modulated_signal, Pipeline._ensure_signal_backend in Hrun.
    destruct (scipy_signal env) eqn:Hscipy; cbn [Py.bind] in Hrun;
      [| left; split; [reflexivity | congruence]].
    right. fold text in Hrun.
    destruct (Utils.string_to_bitstream text) as [payload_bits | e'] eqn:Hpayload;
      cbn [Py.bind] in Hrun; [| left; split; [reflexivity | congruence]].
    right. split; [reflexivity |]. exists payload_bits. split; [reflexivity |].
    destruct (Z_le_gt_dec 256 (frames_needed (len payload_bits))) as [Hbig | Hsmall];
      [exact Hbig | exfalso].
    set (logger := Utils.emit [] (LogSourceLength (len text) (len payload_bits))) in Hrun.
    destruct (build_full_bitstream_accepts env config matrices payload_bits (Some logger)
                Hcreate ltac:(lia)) as (stream & entries & Hbuild).
    rewrite Hbuild in Hrun. cbn [Py.bind] in Hrun.
    specialize (Hplan (frames_needed (len payload_bits)) payload_bits).
    destruct (plan_signal num sim_config Config.default_ProtocolConfig
                          (frames_needed (len payload_bits)) payload_bits) as [plan | e'];
      [| discriminate].
    cbn [Py.bind] in Hrun.
    destruct (build_full_bitstream_frames _ _ _ _ _ _ _ _ Hcreate Hbuild)
      as (frames & Hstream & _ & Hall & _).
    destruct (qpsk_stream_exact_phases stream
                (build_full_bitstream_stream_bits _ _ _ _ _ _ _ Hbuild))
      as (pairs & symbols & _ & Hre & Hsym & _).
    { rewrite Hstream, (length_concat_uniform 256 frames Hall). apply even_256_mul. }
    rewrite Hre in Hrun. cbn [Py.bind] in Hrun. rewrite Hsym in Hrun. cbn [Py.bind] in Hrun.
    specialize (Hsynth plan (map (Pipeline.phase_of_symbol Pipeline.qpsk_phase_map) symbols)).
    destruct (synthesize num sim_config Config.default_ProtocolConfig plan
                (map (Pipeline.phase_of_symbol Pipeline.qpsk_phase_map) symbols) rng)
      as [[clean noisy] | e']; [| discriminate].
    cbn [Py.bind] in Hrun. discriminate.
Qed.

Lemma generate_modulated_signal_cases_witness :
  match Pipeline.generate_modulated_signal
          (Fixtures.backends Fixtures.systematic_H) (Fixtures.numerics Fixtures.swap_01)
          Config.default_SimulationConfig Config.default_ProtocolConfig systematic_matrices
          (Some (Config.str "Hi")) None with
  | Ok encoding =>
      scipy_signal (Fixtures.backends Fixtures.systematic_H) = true /\
      Utils.string_to_bitstream (Config.str "Hi") = Ok (EncodingResult.payload_bits encoding) /\
      EncodingResult.total_frames encoding
      = frames_needed (len (EncodingResult.payload_bits encoding)) /\
      1 <= EncodingResult.total_frames encoding <= 255 /\
      len (EncodingResult.qpsk_bitstream encoding) = 256 * EncodingResult.total_frames encoding /\
      Forall is_bit (EncodingResult.qpsk_bitstream encoding)
  | Raise e =>
      (scipy_signal (Fixtures.backends Fixtures.systematic_H) = false /\
       e = ImportError "scipy") \/
      (scipy_signal (Fixtures.backends Fixtures.systematic_H) = true /\
       Utils.string_to_bitstream (Config.str "Hi") = Raise e) \/
      (scipy_signal (Fixtures.backends Fixtures.systematic_H) = true /\
       exists payload_bits, Utils.string_to_bitstream (Config.str "Hi") = Ok payload_bits /\
                            256 <= frames_needed (len payload_bits))
  end.
Proof.
  apply (generate_modulated_signal_cases
           (Fixtures.backends Fixtures.systematic_H) (Fixtures.numerics Fixtures.swap_01)
           Config.default_LDPCConfig systematic_matrices Config.default_SimulationConfig
           (Some (Config.str "Hi")) None).
  - vm_compute. reflexivity.
  - intros total_frames payload_bits. reflexivity.
  - intros plan phases. reflexivity.
Defined.

(* ===================================================================== *)
(** ** Frame synchronisation: the position returned *)
(* ===================================================================== *)

(** X16: the frame synchronisation of [demodulate_and_decode] returns [p]
    exactly when [p] is the least position, strictly below
    [len(stream) - len(sync)], at which the window of [len(sync)] entries
    equals the sync pattern; the position [len(stream) - len(sync)] itself
    is never returned. *)
Theorem find_sync_returns_least_match (stream sync : list Z) (p : Z) :
  Pipeline.find_sync stream sync = Ok p <->
  0 <= p < len stream - len sync /\
  slice stream p (p + len sync) = sync /\
  forall q, 0 <= q < p -> slice stream q (q + len sync) <> sync.
Proof.
  pose proof (find_sync_spec stream sync) as Hspec. cbv zeta in Hspec.
  destruct (Pipeline.find_sync stream sync) as [p' | e].
  - destruct Hspec as (Hp' & Hwin' & Hfirst'). split.
    + intros Heq. injection Heq as <-. repeat split; try assumption; lia.
    + intros (Hp & Hwin & Hfirst). f_equal.
      destruct (Z.lt_trichotomy p' p) as [Hlt | [Heq | Hgt]]; [| exact Heq |].
      * exfalso. apply (Hfirst p'); [lia | exact Hwin'].
      * exfalso. apply (Hfirst' p); [lia | exact Hwin].
  - destruct Hspec as (_ & Hnone). split; [discriminate |].
    intros (Hp & Hwin & _). exfalso. apply (Hnone p Hp Hwin).
Qed.

(* ===================================================================== *)
(** ** The stand-alone encoder of [docs/encoder.py] *)
(* ===================================================================== *)

Lemma nth_tile (l : list Z) (n k : nat) (d : Z) :
  (k < n * List.length l)%nat ->
  nth k (List.concat (repeat l n)) d = nth (k mod List.length l) l d.
Proof.
  revert k. induction n as [| n IH]; intros k Hk; [lia |].
  cbn [repeat List.concat].
  destruct (Nat.lt_ge_cases k (List.length l)) as [Hlt | Hge].
  - rewrite app_nth1 by exact Hlt. rewrite Nat.mod_small by exact Hlt. reflexivity.
  - rewrite app_nth2 by lia. rewrite IH by lia. f_equal.
    replace k with ((k - List.length l) + 1 * List.length l)%nat at 2 by lia.
    rewrite Nat.Div0.mod_add. reflexivity.
Qed.

Lemma length_tile (l : list Z) (n : nat) :
  List.length (List.concat (repeat l n)) = (n * List.length l)%nat.
Proof.
  induction n as [| n IH]; [reflexivity |].
  cbn [repeat List.concat]. rewrite length_app, IH. lia.
Qed.

(** The payload the frames are cut from: the given one when it is long
    enough, otherwise enough copies of it. *)
Lemma docs_effective_payload (payload_bits : list Z) (num_frames : Z) :
  0 < num_frames -> 0 < len payload_bits ->
  exists effective,
    (if len payload_bits <? DocsEncoder.DATA_PAYLOAD_SYMBOLS * 2 * num_frames
     then repeats_needed <- ceil_div (DocsEncoder.DATA_PAYLOAD_SYMBOLS * 2 * num_frames)
                                     (len payload_bits) ;;
          Ok (DocsEncoder.tile payload_bits repeats_needed)
     else Ok payload_bits) = Ok effective /\
    128 * num_frames <= len effective /\
    forall k, (k < List.length effective)%nat ->
      nth k effective 0 = nth (k mod List.length payload_bits) payload_bits 0.
Proof.
  intros Hframes Hpayload. change (DocsEncoder.DATA_PAYLOAD_SYMBOLS * 2) with 128.
  destruct (len payload_bits <? 128 * num_frames) eqn:Hshort.
  - apply Z.ltb_lt in Hshort. unfold ceil_div.
    replace (len payload_bits =? 0) with false by (symmetry; apply Z.eqb_neq; lia).
    cbn [Py.bind]. eexists. split; [reflexivity |].
    set (q := - (- (128 * num_frames) / len payload_bits)).
    assert (Hq : 128 * num_frames <= q * len payload_bits).
    { unfold q.
      pose proof (Z.div_mod (- (128 * num_frames)) (len payload_bits) ltac:(lia)) as Hdm.
      pose proof (Z.mod_pos_bound (- (128 * num_frames)) (len payload_bits) ltac:(lia)). nia. }
    assert (Hq0 : 0 <= q) by nia.
    unfold DocsEncoder.tile, len in *. rewrite length_tile. split; [nia |].
    intros k Hk. apply nth_tile. exact Hk.
  - apply Z.ltb_ge in Hshort. exists payload_bits. split; [reflexivity |].
    split; [exact Hshort |]. intros k Hk. rewrite Nat.mod_small by exact Hk. reflexivity.
Qed.

Lemma docs_payload_block (payload_bits effective : list Z) (num_frames i : Z) :
  128 * num_frames <= len effective ->
  (forall k, (k < List.length effective)%nat ->
     nth k effective 0 = nth (k mod List.length payload_bits) payload_bits 0) ->
  0 <= i < num_frames ->
  slice effective (i * 128) (i * 128 + 128) = cyclic_block payload_bits i.
Proof.
  intros Hlen Hnth Hi. rewrite slice_firstn_skipn by lia.
  replace (Z.to_nat (i * 128 + 128 - i * 128)) with 128%nat by lia.
  replace (Z.to_nat (i * 128)) with (128 * Z.to_nat i)%nat by lia.
  unfold cyclic_block, len in *.
  assert (Hblock : List.length (firstn 128 (skipn (128 * Z.to_nat i) effective)) = 128%nat).
  { rewrite length_firstn, length_skipn. lia. }
  apply (nth_ext _ _ 0 0).
  - rewrite Hblock, length_map, length_seq. reflexivity.
  - intros j Hj. rewrite Hblock in Hj.
    rewrite nth_firstn. replace (j <? 128)%nat with true by (symmetry; apply Nat.ltb_lt; lia).
    rewrite nth_skipn, Hnth by lia.
    rewrite (nth_map_lt _ (seq 0 128) j 0%nat 0) by (rewrite length_seq; exact Hj).
    rewrite seq_nth by exact Hj. reflexivity.
Qed.

Lemma cyclic_block_length (payload_bits : list Z) (i : Z) :
  List.length (cyclic_block payload_bits i) = 128%nat.
Proof. unfold cyclic_block. rewrite length_map, length_seq. reflexivity. Qed.

(** The frames of the stand-alone encoder, one by one. *)
Lemma docs_build_full_bitstream_ok (components : DocsEncoder.FrameComponents)
      (payload_bits : list Z) (num_frames : Z) :
  0 < num_frames -> 0 < len payload_bits ->
  let frame := fun i : Z =>
    DocsEncoder.sync_bits components ++ DocsEncoder.target_id_bits components
      ++ DocsEncoder.command_type_bits components ++ cyclic_block payload_bits i
      ++ DocsEncoder.ecc_bits components in
  DocsEncoder.build_full_bitstream components payload_bits num_frames
  = Ok (List.concat (map frame (range num_frames))).
Proof.
  intros Hframes Hpayload frame. unfold DocsEncoder.build_full_bitstream. cbv zeta.
  destruct (docs_effective_payload payload_bits num_frames Hframes Hpayload)
    as (effective & -> & Hlen & Hnth).
  cbn [Py.bind]. change (DocsEncoder.DATA_PAYLOAD_SYMBOLS * 2) with 128.
  rewrite (map_ext_in _ frame).
  - unfold DocsEncoder.concatenate, range.
    destruct (Z.to_nat num_frames) as [| n] eqn:Hn; [lia |]. reflexivity.
  - intros i Hin. unfold range in Hin. apply in_map_iff in Hin as (j & <- & Hj).
    apply in_seq in Hj. unfold frame.
    rewrite (docs_payload_block payload_bits effective num_frames (Z.of_nat j) Hlen Hnth)
      by lia.
    reflexivity.
Qed.

Lemma docs_frame_lengths (components : DocsEncoder.FrameComponents)
      (payload_bits : list Z) (indices : list Z) :
  Forall (fun f => List.length f = docs_frame_length components)
         (map (fun i : Z =>
                 DocsEncoder.sync_bits components ++ DocsEncoder.target_id_bits components
                   ++ DocsEncoder.command_type_bits components ++ cyclic_block payload_bits i
                   ++ DocsEncoder.ecc_bits components) indices).
Proof.
  apply Forall_forall. intros f Hf. apply in_map_iff in Hf as (i & <- & _).
  rewrite !length_app, cyclic_block_length. unfold docs_frame_length. lia.
Qed.

(** X19: the outcomes of [build_full_bitstream] of the stand-alone encoder,
    whatever the frame components.  It returns exactly when at least one
    frame is asked for and the payload is not empty, and the stream then has
    [num_frames] times the frame length; with no frame to build the final
    [np.concatenate] raises [ValueError], and an empty payload makes the
    computation of the number of repetitions divide by zero. *)
Theorem docs_build_full_bitstream_cases (components : DocsEncoder.FrameComponents)
        (payload_bits : list Z) (num_frames : Z) :
  match DocsEncoder.build_full_bitstream components payload_bits num_frames with
  | Ok stream =>
      0 < num_frames /\ 0 < len payload_bits /\
      len stream = num_frames * Z.of_nat (docs_frame_length components)
  | Raise e =>
      (num_frames <= 0 /\ e = ValueError EmptySequence) \/
      (0 < num_frames /\ payload_bits = [] /\ e = ZeroDivisionError)
  end.
Proof.
  destruct (Z_le_gt_dec num_frames 0) as [Hnone | Hsome].
  - unfold DocsEncoder.build_full_bitstream. cbv zeta.
    change (DocsEncoder.DATA_PAYLOAD_SYMBOLS * 2) with 128.
    pose proof (len_nonneg payload_bits) as Hlen.
    replace (len payload_bits <? 128 * num_frames) with false
      by (symmetry; apply Z.ltb_ge; lia).
    cbn [Py.bind]. unfold range. replace (Z.to_nat num_frames) with 0%nat by lia.
    left. split; [exact Hnone | reflexivity].
  - destruct payload_bits as [| b payload_bits].
    + unfold DocsEncoder.build_full_bitstream. cbv zeta.
      change (DocsEncoder.DATA_PAYLOAD_SYMBOLS * 2) with 128. change (len []) with 0.
      replace (0 <? 128 * num_frames) with true by (symmetry; apply Z.ltb_lt; lia).
      right. split; [lia | split; reflexivity].
    + assert (Hpayload : 0 < len (b :: payload_bits))
        by (unfold len; cbn [List.length]; lia).
      rewrite (docs_build_full_bitstream_ok components _ num_frames ltac:(lia) Hpayload).
      split; [lia |]. split; [exact Hpayload |].
      unfold len at 1.
      rewrite (length_concat_uniform (docs_frame_length components))
        by apply docs_frame_lengths.
      unfold range. rewrite !length_map, length_seq. lia.
Qed.

(** X20: what the frames of the stand-alone encoder hold.  For at least one
    frame and a non-empty payload, frame [i] of the stream is the sync, target
    and command components, then 128 payload entries, then the ecc component;
    the payload entries are read from position [128 i] on, wrapping around
    when the payload is shorter than [128 · num_frames]; when it is long
    enough they are [payload[128 i : 128 (i + 1)]] and whatever lies beyond
    [128 · num_frames] is dropped. *)
Theorem docs_build_full_bitstream_frames (components : DocsEncoder.FrameComponents)
        (payload_bits : list Z) (num_frames : Z) :
  0 < num_frames -> 0 < len payload_bits ->
  let frame_length := Z.of_nat (docs_frame_length components) in
  exists stream,
    DocsEncoder.build_full_bitstream components payload_bits num_frames = Ok stream /\
    forall i, 0 <= i < num_frames ->
      slice stream (i * frame_length) ((i + 1) * frame_length)
      = DocsEncoder.sync_bits components ++ DocsEncoder.target_id_bits components
          ++ DocsEncoder.command_type_bits components ++ cyclic_block payload_bits i
          ++ DocsEncoder.ecc_bits components /\
      (128 * num_frames <= len payload_bits ->
       cyclic_block payload_bits i = slice payload_bits (i * 128) (i * 128 + 128)).
Proof.
  intros Hframes Hpayload frame_length. eexists.
  split; [apply (docs_build_full_bitstream_ok components _ _ Hframes Hpayload) |].
  intros i Hi. split.
  - replace i with (Z.of_nat (Z.to_nat i)) at 1 2 by lia. unfold frame_length.
    rewrite (slice_concat_uniform (docs_frame_length components))
      by (apply docs_frame_lengths || (unfold range; rewrite !length_map, length_seq; lia)).
    unfold range.
    rewrite (nth_map_lt _ (map Z.of_nat (seq 0 (Z.to_nat num_frames))) (Z.to_nat i) 0 [])
      by (rewrite length_map, length_seq; lia).
    rewrite (nth_map_lt Z.of_nat (seq 0 (Z.to_nat num_frames)) (Z.to_nat i) 0%nat 0)
      by (rewrite length_seq; lia).
    rewrite seq_nth by lia. cbn [Nat.add]. rewrite Z2Nat.id by lia. reflexivity.
  - intros Hlong. symmetry.
    apply (docs_payload_block payload_bits payload_bits num_frames i Hlong); [| exact Hi].
    intros k Hk. rewrite Nat.mod_small by exact Hk. reflexivity.
Qed.

Lemma docs_build_full_bitstream_frames_witness :
  exists stream,
    DocsEncoder.build_full_bitstream components_example [1; 0; 1] 2 = Ok stream /\
    forall i, 0 <= i < 2 ->
      slice stream (i * Z.of_nat (docs_frame_length components_example))
                   ((i + 1) * Z.of_nat (docs_frame_length components_example))
      = DocsEncoder.sync_bits components_example
          ++ DocsEncoder.target_id_bits components_example
          ++ DocsEncoder.command_type_bits components_example
          ++ cyclic_block [1; 0; 1] i
          ++ DocsEncoder.ecc_bits components_example /\
      (128 * 2 <= len [1; 0; 1] ->
       cyclic_block [1; 0; 1] i = slice [1; 0; 1] (i * 128) (i * 128 + 128)).
Proof.
  apply (docs_build_full_bitstream_frames components_example [1; 0; 1] 2).
  - lia.
  - reflexivity.
Defined.

(** X21: the symbol dictionary of the stand-alone encoder is the one the
    slicer of [demodulate_and_decode] inverts.  A stream of bits of even
    length, mapped to symbols by the dictionary of [docs/encoder.py] and to
    the phases of its constellation, is returned unchanged by the slicer
    when every received phase is exactly the transmitted one. *)
Theorem docs_symbol_map_inverted_by_slicer (bits : list Z) :
  Forall is_bit bits -> Nat.even (List.length bits) = true ->
  exists pairs symbols decisions,
    Pipeline.reshape_pairs bits = Ok pairs /\
    mapM DocsEncoder.qpsk_symbol_map pairs = Ok symbols /\
    mapM (Pipeline.slice_phase Pipeline.qpsk_phase_map)
         (map (Pipeline.phase_of_symbol DocsEncoder.qpsk_phase_map) symbols) = Ok decisions /\
    List.concat decisions = bits.
Proof.
  induction bits as [| | a b bits IH] using list_pair_ind; intros Hbits Heven.
  - exists [], [], []. repeat split; reflexivity.
  - discriminate.
  - inversion Hbits as [| ? ? Ha Hrest]; subst. inversion Hrest as [| ? ? Hb Hbits']; subst.
    destruct (IH Hbits' Heven) as (pairs & symbols & decisions & Hre & Hsym & Hdec & Hcat).
    assert (Hpair : exists s, DocsEncoder.qpsk_symbol_map (a, b) = Ok s /\ 0 <= s <= 3 /\
                              Pipeline.qpsk_reverse_bit_map s = Ok [a; b]).
    { destruct Ha as [-> | ->], Hb as [-> | ->]; eexists;
        (split; [reflexivity | split; [lia | reflexivity]]). }
    destruct Hpair as (s & Hs & Hs03 & Hback).
    exists ((a, b) :: pairs), (s :: symbols), ([a; b] :: decisions).
    cbn [Pipeline.reshape_pairs mapM map List.concat app].
    change DocsEncoder.qpsk_phase_map with Pipeline.qpsk_phase_map in *.
    rewrite Hre, Hs, Hsym, (slice_exact_phase s Hs03), Hback, Hdec, Hcat.
    repeat split; reflexivity.
Qed.

Lemma docs_symbol_map_inverted_by_slicer_witness :
  exists pairs symbols decisions,
    Pipeline.reshape_pairs [0; 0; 0; 1; 1; 0; 1; 1] = Ok pairs /\
    mapM DocsEncoder.qpsk_symbol_map pairs = Ok symbols /\
    mapM (Pipeline.slice_phase Pipeline.qpsk_phase_map)
         (map (Pipeline.phase_of_symbol DocsEncoder.qpsk_phase_map) symbols) = Ok decisions /\
    List.concat decisions = [0; 0; 0; 1; 1; 0; 1; 1].
Proof.
  apply (docs_symbol_map_inverted_by_slicer [0; 0; 0; 1; 1; 0; 1; 1]).
  - apply all_bits_Forall. reflexivity.
  - reflexivity.
Defined.

(* ===================================================================== *)
(** ** The recovery loop on an all-zero input *)
(* ===================================================================== *)

(** *** Rounding to binary64 *)

(** [lia] after the powers of two have been made opaque. *)
Ltac hide_pow :=
  repeat match goal with
         | |- context [2 ^ ?x] => let v := fresh "pw" in set (v := 2 ^ x) in *; clearbody v
         | H : context [2 ^ ?x] |- _ => let v := fresh "pw" in set (v := 2 ^ x) in *; clearbody v
         end.
Ltac pow_lia := hide_pow; lia.
Ltac plia := first [lia | pow_lia | (hide_pow; nia)].
Ltac known_pows :=
  change (2 ^ 63) with 9223372036854775808 in *;
  change (2 ^ 53) with 9007199254740992 in *;
  change (2 ^ 52) with 4503599627370496 in *.
Ltac clia := first [lia | (known_pows; first [lia | pow_lia | (hide_pow; nia)])].

Lemma fexp64 (x : Z) : fexp prec emax x = Z.max (x - 53) (-1074).
Proof. reflexivity. Qed.

Lemma digits2_pos_bounds (p : positive) :
  2 ^ (Z.pos (digits2_pos p) - 1) <= Z.pos p < 2 ^ Z.pos (digits2_pos p).
Proof.
  induction p as [p IH | p IH |]; cbn [digits2_pos].
  - rewrite Pos2Z.inj_succ, (Pos2Z.inj_xI p).
    replace (Z.succ (Z.pos (digits2_pos p)) - 1) with (Z.succ (Z.pos (digits2_pos p) - 1)) by lia.
    rewrite !Z.pow_succ_r by lia. pow_lia.
  - rewrite Pos2Z.inj_succ, (Pos2Z.inj_xO p).
    replace (Z.succ (Z.pos (digits2_pos p)) - 1) with (Z.succ (Z.pos (digits2_pos p) - 1)) by lia.
    rewrite !Z.pow_succ_r by lia. pow_lia.
  - simpl. lia.
Qed.

Lemma Zdigits2_nonneg (m : Z) : 0 <= m -> 0 <= Zdigits2 m.
Proof. destruct m; simpl; lia. Qed.

Lemma Zdigits2_le (m k : Z) : 0 <= m < 2 ^ k -> 0 <= k -> Zdigits2 m <= k.
Proof.
  intros [Hm Hk] Hk0. destruct m as [| p | p]; [simpl; lia | | lia].
  cbn [Zdigits2]. pose proof (digits2_pos_bounds p) as [Hlo _].
  destruct (Z_le_gt_dec (Z.pos (digits2_pos p)) k) as [Hle | Hgt]; [exact Hle | exfalso].
  assert (2 ^ k <= 2 ^ (Z.pos (digits2_pos p) - 1)) by (apply Z.pow_le_mono_r; lia). lia.
Qed.

Lemma Zdigits2_lt (m : Z) : 0 <= m -> m < 2 ^ Zdigits2 m.
Proof.
  intros Hm. destruct m as [| p | p]; [simpl; lia | | lia].
  apply digits2_pos_bounds.
Qed.

Lemma Zdigits2_ge (p : positive) : 2 ^ (Zdigits2 (Z.pos p) - 1) <= Z.pos p.
Proof. apply digits2_pos_bounds. Qed.

Lemma shr_1_m (mrs : shr_record) : 0 <= shr_m mrs -> shr_m (shr_1 mrs) = shr_m mrs / 2.
Proof.
  destruct mrs as [m r s]. cbn [shr_m]. intros Hm.
  destruct m as [| [p | p |] | p]; cbn [shr_1 shr_m]; try lia.
  - reflexivity.
  - rewrite (Pos2Z.inj_xI p). apply Z.div_unique with 1; lia.
  - rewrite (Pos2Z.inj_xO p). apply Z.div_unique with 0; lia.
  - reflexivity.
Qed.

Lemma iter_pos_shr_m (p : positive) :
  forall mrs, 0 <= shr_m mrs ->
    shr_m (iter_pos shr_1 p mrs) = shr_m mrs / 2 ^ Z.pos p.
Proof.
  assert (Hnn : forall m k, 0 <= m -> 0 <= k -> 0 <= m / 2 ^ k)
    by (intros m k Hm Hk; apply Z.div_pos; [exact Hm | apply Z.pow_pos_nonneg; lia]).
  induction p as [p IH | p IH |]; intros mrs Hm; cbn [iter_pos].
  - assert (H1 : 0 <= shr_m (shr_1 mrs))
      by (rewrite shr_1_m by exact Hm; apply Z.div_pos; lia).
    assert (H2 : 0 <= shr_m (iter_pos shr_1 p (shr_1 mrs)))
      by (rewrite IH by exact H1; apply Hnn; lia).
    rewrite (IH _ H2), (IH _ H1), (shr_1_m _ Hm), (Pos2Z.inj_xI p).
    replace (2 * Z.pos p + 1) with (1 + Z.pos p + Z.pos p) by lia.
    rewrite !Z.pow_add_r by lia. rewrite !Z.div_div by (try apply Z.pow_pos_nonneg; lia).
    f_equal. rewrite Z.pow_1_r. ring.
  - assert (H1 : 0 <= shr_m (iter_pos shr_1 p mrs))
      by (rewrite IH by exact Hm; apply Hnn; lia).
    rewrite (IH _ H1), (IH _ Hm), (Pos2Z.inj_xO p).
    replace (2 * Z.pos p) with (Z.pos p + Z.pos p) by lia.
    rewrite Z.pow_add_r by lia. rewrite Z.div_div by (try apply Z.pow_pos_nonneg; lia).
    reflexivity.
  - rewrite shr_1_m by exact Hm. reflexivity.
Qed.

Lemma shr_record_of_loc_m (m : Z) (l : location) : shr_m (shr_record_of_loc m l) = m.
Proof. destruct l as [| []]; reflexivity. Qed.

Lemma shr_fexp_spec (m e : Z) (l : location) :
  0 <= m ->
  snd (shr_fexp prec emax m e l) = e + nshift m e /\
  shr_m (fst (shr_fexp prec emax m e l)) = m / 2 ^ nshift m e.
Proof.
  intros Hm. unfold shr_fexp, shr, nshift.
  destruct (fexp prec emax (Zdigits2 m + e) - e) as [| p | p] eqn:Hn; cbn [fst snd].
  - rewrite shr_record_of_loc_m. simpl. rewrite Z.div_1_r. lia.
  - rewrite iter_pos_shr_m by (rewrite shr_record_of_loc_m; exact Hm).
    rewrite shr_record_of_loc_m. rewrite Z.max_r by lia. split; [lia | reflexivity].
  - rewrite shr_record_of_loc_m. rewrite Z.max_l by lia. simpl. rewrite Z.div_1_r. lia.
Qed.

Lemma round_nearest_even_cases (m : Z) (l : location) :
  round_nearest_even m l = m \/ round_nearest_even m l = m + 1.
Proof.
  destruct l as [| []]; cbn [round_nearest_even]; auto.
  destruct (Z.even m); auto.
Qed.

Lemma nshift_div_lt (m e : Z) : 0 <= m -> m / 2 ^ nshift m e < 2 ^ 53.
Proof.
  intros Hm. pose proof (Zdigits2_lt m Hm) as Hlt.
  pose proof (Zdigits2_nonneg m Hm) as Hd.
  assert (Hn : 0 <= nshift m e /\ Zdigits2 m - 53 <= nshift m e)
    by (unfold nshift; rewrite fexp64; lia).
  apply Z.div_lt_upper_bound; [apply Z.pow_pos_nonneg; lia |].
  rewrite <- Z.pow_add_r by lia.
  assert (2 ^ Zdigits2 m <= 2 ^ (nshift m e + 53)) by (apply Z.pow_le_mono_r; lia). lia.
Qed.

(** The outcome of [binary_round_aux] on a non-negative mantissa. *)
Lemma binary_round_aux_spec (sx : bool) (mx ex : Z) (lx : location) :
  0 <= mx ->
  let m' := mx / 2 ^ nshift mx ex in
  let e' := ex + nshift mx ex in
  exists m1,
    m1 = round_nearest_even m' (loc_of_shr_record (fst (shr_fexp prec emax mx ex lx))) /\
    (m1 = m' \/ m1 = m' + 1) /\
    binary_round_aux prec emax sx mx ex lx =
      if m1 =? 0 then S754_zero sx
      else if m1 <? 2 ^ 53
           then (if e' <=? 971 then S754_finite sx (Z.to_pos m1) e' else S754_infinity sx)
           else (if e' + 1 <=? 971 then S754_finite sx (Z.to_pos (2 ^ 52)) (e' + 1)
                 else S754_infinity sx).
Proof.
  intros Hm m' e'. unfold binary_round_aux.
  destruct (shr_fexp_spec mx ex lx Hm) as [He1 Hm1].
  destruct (shr_fexp prec emax mx ex lx) as [mrs1 e1]. cbn [fst snd] in He1, Hm1 |- *.
  set (m1 := round_nearest_even (shr_m mrs1) (loc_of_shr_record mrs1)).
  assert (Hm'0 : 0 <= m') by (apply Z.div_pos; [exact Hm | apply Z.pow_pos_nonneg; unfold nshift; lia]).
  assert (Hm'lt : m' < 2 ^ 53) by apply (nshift_div_lt mx ex Hm).
  assert (Hm1c : m1 = m' \/ m1 = m' + 1).
  { unfold m1, m'. rewrite <- Hm1. apply round_nearest_even_cases. }
  assert (Hm10 : 0 <= m1) by lia.
  assert (He1min : -1074 <= e1) by (rewrite He1; unfold nshift; rewrite fexp64; lia).
  exists m1. split; [unfold m1, m'; rewrite <- Hm1; reflexivity |]. split; [exact Hm1c |].
  destruct (shr_fexp_spec m1 e1 loc_Exact Hm10) as [He2 Hm2].
  destruct (shr_fexp prec emax m1 e1 loc_Exact) as [mrs2 e2]. cbn [fst snd] in He2, Hm2.
  fold e' in He1. subst e1.
  destruct (m1 =? 0) eqn:Hz.
  - apply Z.eqb_eq in Hz.
    assert (Hn : nshift m1 e' = 0) by (rewrite Hz; unfold nshift; rewrite fexp64; simpl Zdigits2; lia).
    rewrite Hn in Hm2. rewrite Hz in Hm2. simpl in Hm2. rewrite Hm2. reflexivity.
  - apply Z.eqb_neq in Hz. destruct (m1 <? 2 ^ 53) eqn:Hlt.
    + apply Z.ltb_lt in Hlt.
      assert (Hd : Zdigits2 m1 <= 53) by (apply Zdigits2_le; lia).
      assert (Hn : nshift m1 e' = 0) by (unfold nshift; rewrite fexp64; lia).
      rewrite Hn in Hm2, He2. rewrite Z.pow_0_r, Z.div_1_r in Hm2. rewrite Hm2, He2, Z.add_0_r.
      destruct m1 as [| p | p]; try lia. reflexivity.
    + apply Z.ltb_ge in Hlt. assert (Heq : m1 = 2 ^ 53) by lia.
      assert (Hn : nshift m1 e' = 1) by (rewrite Heq; unfold nshift; rewrite fexp64; simpl Zdigits2; lia).
      rewrite Hn in Hm2, He2. rewrite Hm2, He2, Heq. reflexivity.
Qed.

Lemma pow2_pos (x : Z) : 0 <= x -> 0 < 2 ^ x.
Proof. intros Hx. apply Z.pow_pos_nonneg; plia. Qed.

Lemma vfloor_mono (m1 m2 e : Z) : m1 <= m2 -> vfloor m1 e <= vfloor m2 e.
Proof.
  intros Hm. unfold vfloor. destruct (0 <=? e) eqn:He.
  - apply Z.leb_le in He. apply Z.mul_le_mono_nonneg_r; [apply Z.lt_le_incl, pow2_pos; plia | exact Hm].
  - apply Z.leb_gt in He. apply Z.div_le_mono; [apply pow2_pos; plia | exact Hm].
Qed.

Lemma vfloor_0 (e : Z) : vfloor 0 e = 0.
Proof. unfold vfloor. destruct (0 <=? e) eqn:He; [apply Z.mul_0_l | apply Z.leb_gt in He; apply Z.div_0_l; pose proof (pow2_pos (- e)); plia]. Qed.

(** [k <= floor(m * 2 ^ e)] on integers. *)
Lemma vfloor_ge (m e k : Z) :
  k <= vfloor m e <-> (if 0 <=? e then k <= m * 2 ^ e else k * 2 ^ (- e) <= m).
Proof.
  unfold vfloor. destruct (0 <=? e) eqn:He; [reflexivity |].
  apply Z.leb_gt in He. pose proof (pow2_pos (- e) ltac:(plia)) as Hp. split.
  - intros Hk. pose proof (Z.mul_div_le m (2 ^ (- e)) Hp) as Hd.
    assert (2 ^ (- e) * k <= 2 ^ (- e) * (m / 2 ^ (- e))) by (apply Z.mul_le_mono_nonneg_l; plia).
    plia.
  - intros Hk. apply Z.div_le_lower_bound; [exact Hp | plia].
Qed.

Lemma vfloor_double (m e : Z) : vfloor (2 * m) e = vfloor m (e + 1).
Proof.
  unfold vfloor. destruct (0 <=? e) eqn:He.
  - apply Z.leb_le in He. replace (0 <=? e + 1) with true by (symmetry; apply Z.leb_le; plia).
    rewrite Z.pow_add_r by plia. rewrite Z.pow_1_r. ring.
  - apply Z.leb_gt in He. destruct (0 <=? e + 1) eqn:He1.
    + apply Z.leb_le in He1. assert (e = -1) by plia. subst e.
      change (2 ^ (- -1)) with 2. change (2 ^ (-1 + 1)) with 1.
      rewrite Z.mul_1_r, Z.mul_comm. apply Z.div_mul. plia.
    + apply Z.leb_gt in He1. replace (- e) with (1 + - (e + 1)) by plia.
      rewrite Z.pow_add_r by plia. rewrite Z.pow_1_r.
      apply Z.div_mul_cancel_l; [pose proof (pow2_pos (- (e + 1))); plia | plia].
Qed.

(** Shifting the mantissa left and lowering the exponent keeps the value. *)
Lemma vfloor_shift (m e ez : Z) : ez <= e -> vfloor (m * 2 ^ (e - ez)) ez = vfloor m e.
Proof.
  intros Hez. unfold vfloor. destruct (0 <=? ez) eqn:H1.
  - apply Z.leb_le in H1. replace (0 <=? e) with true by (symmetry; apply Z.leb_le; plia).
    rewrite <- Z.mul_assoc, <- Z.pow_add_r by plia. f_equal. f_equal. plia.
  - apply Z.leb_gt in H1. destruct (0 <=? e) eqn:H2.
    + apply Z.leb_le in H2. replace (e - ez) with (e + - ez) by plia.
      rewrite Z.pow_add_r by plia. rewrite Z.mul_assoc.
      apply Z.div_mul. pose proof (pow2_pos (- ez)); plia.
    + apply Z.leb_gt in H2. replace (- ez) with ((e - ez) + - e) by plia.
      rewrite Z.pow_add_r by plia.
      rewrite (Z.mul_comm m), Z.div_mul_cancel_l;
        [reflexivity | pose proof (pow2_pos (- e)); plia | pose proof (pow2_pos (e - ez)); plia].
Qed.

Lemma binary_round_aux_ge (sx : bool) (mx ex : Z) (lx : location) (k : Z) :
  0 <= mx -> 1 <= k <= 2 ^ 53 -> k <= vfloor mx ex ->
  match binary_round_aux prec emax sx mx ex lx with
  | S754_infinity s => s = sx
  | S754_finite s m e => s = sx /\ k <= vfloor (Z.pos m) e
  | _ => False
  end.
Proof.
  intros Hm Hk Hge.
  destruct (binary_round_aux_spec sx mx ex lx Hm) as (m1 & _ & Hm1 & ->).
  set (n := nshift mx ex) in *. set (m' := mx / 2 ^ n) in *. set (e' := ex + n) in *.
  assert (Hn0 : 0 <= n) by (unfold n, nshift; plia).
  assert (Hm'0 : 0 <= m') by (apply Z.div_pos; [exact Hm | apply pow2_pos; exact Hn0]).
  assert (Hpos : 0 < mx).
  { destruct (Z.eq_dec mx 0) as [-> | Hne]; [rewrite vfloor_0 in Hge; plia | plia]. }
  assert (Hk' : k <= vfloor m' e').
  { destruct (Z.eq_dec n 0) as [Hz | Hnz].
    - unfold m', e'. rewrite Hz, Z.pow_0_r, Z.div_1_r, Z.add_0_r. exact Hge.
    - assert (He' : e' = Z.max (Zdigits2 mx + ex - 53) (-1074))
        by (unfold e', n, nshift in *; rewrite fexp64 in *; plia).
      destruct (Z_le_gt_dec e' 0) as [Hneg | Hposi].
      + assert (Hex : ex < 0) by (unfold e' in *; plia).
        apply vfloor_ge in Hge. replace (0 <=? ex) with false in Hge by (symmetry; apply Z.leb_gt; plia).
        assert (Hscaled : k * 2 ^ (- e') <= m').
        { apply Z.div_le_lower_bound; [apply pow2_pos; exact Hn0 |].
          rewrite Z.mul_comm, <- Z.mul_assoc, <- Z.pow_add_r by plia.
          replace (- e' + n) with (- ex) by (unfold e'; plia). exact Hge. }
        apply vfloor_ge. destruct (0 <=? e') eqn:Hz0; [| exact Hscaled].
        apply Z.leb_le in Hz0. assert (e' = 0) by plia.
        replace e' with 0 in * by plia. simpl in Hscaled. simpl. plia.
      + assert (Hdg : n = Zdigits2 mx - 53) by (unfold e' in *; plia).
        destruct mx as [| p | p]; try plia.
        pose proof (Zdigits2_ge p) as Hlo.
        assert (H52 : 2 ^ 52 <= m').
        { apply Z.div_le_lower_bound; [apply pow2_pos; exact Hn0 |].
          rewrite <- Z.pow_add_r by plia.
          replace (n + 52) with (Zdigits2 (Z.pos p) - 1) by plia. exact Hlo. }
        apply vfloor_ge. replace (0 <=? e') with true by (symmetry; apply Z.leb_le; plia).
        assert (H2 : 2 <= 2 ^ e').
        { replace 2 with (2 ^ 1) at 1 by reflexivity. apply Z.pow_le_mono_r; plia. }
        assert (2 ^ 52 * 2 <= m' * 2 ^ e') by (apply Z.mul_le_mono_nonneg; plia).
        change (2 ^ 53) with (2 ^ 52 * 2) in Hk. plia. }
  destruct (m1 =? 0) eqn:Hz.
  - apply Z.eqb_eq in Hz. assert (m' = 0) by plia.
    replace m' with 0 in Hk' by plia. rewrite vfloor_0 in Hk'. plia.
  - apply Z.eqb_neq in Hz. destruct (m1 <? 2 ^ 53) eqn:Hlt.
    + destruct (e' <=? 971); [| reflexivity]. split; [reflexivity |].
      rewrite Z2Pos.id by plia. apply Z.le_trans with (1 := Hk'). apply vfloor_mono. plia.
    + apply Z.ltb_ge in Hlt. destruct (e' + 1 <=? 971); [| reflexivity]. split; [reflexivity |].
      rewrite Z2Pos.id by reflexivity. rewrite <- vfloor_double.
      apply Z.le_trans with (1 := Hk'). apply vfloor_mono.
      pose proof (nshift_div_lt mx ex Hm) as Hlt53. fold n in Hlt53. fold m' in Hlt53.
      change (2 * 2 ^ 52) with (2 ^ 53). plia.
Qed.

Lemma binary_round_aux_finite (sx : bool) (mx ex : Z) (lx : location) (B : Z) :
  0 <= mx -> -1074 <= B <= 970 -> ex <= B -> Zdigits2 mx + ex <= B + 53 ->
  match binary_round_aux prec emax sx mx ex lx with
  | S754_zero s => s = sx
  | S754_finite s m e => s = sx /\ e <= B + 1
  | _ => False
  end.
Proof.
  intros Hm HB Hex Hdg.
  destruct (binary_round_aux_spec sx mx ex lx Hm) as (m1 & _ & Hm1 & ->).
  assert (He' : ex + nshift mx ex <= B) by (unfold nshift; rewrite fexp64; plia).
  destruct (m1 =? 0); [reflexivity |].
  destruct (m1 <? 2 ^ 53).
  - replace (ex + nshift mx ex <=? 971) with true by (symmetry; apply Z.leb_le; plia).
    split; [reflexivity | plia].
  - replace (ex + nshift mx ex + 1 <=? 971) with true by (symmetry; apply Z.leb_le; plia).
    split; [reflexivity | plia].
Qed.

Lemma pos_iter_xO (m d : positive) : Z.pos (Pos.iter xO m d) = Z.pos m * 2 ^ Z.pos d.
Proof.
  induction d as [| d IH] using Pos.peano_ind.
  - simpl. plia.
  - rewrite Pos.iter_succ, (Pos2Z.inj_xO (Pos.iter xO m d)), IH, Pos2Z.inj_succ.
    rewrite Z.pow_succ_r by plia. ring.
Qed.

Lemma shl_align_spec (mx : positive) (ex et : Z) :
  snd (shl_align mx ex et) = Z.min ex et /\
  Z.pos (fst (shl_align mx ex et)) = Z.pos mx * 2 ^ (ex - Z.min ex et).
Proof.
  unfold shl_align. destruct (et - ex) as [| d | d] eqn:Hd; cbn [fst snd].
  - rewrite Z.min_l by plia. rewrite Z.sub_diag. simpl. plia.
  - rewrite Z.min_l by plia. rewrite Z.sub_diag. simpl. plia.
  - rewrite Z.min_r by plia. rewrite pos_iter_xO. split; [reflexivity |].
    f_equal. f_equal. plia.
Qed.

Lemma Zdigits2_shift (m s A : Z) :
  0 < m -> 0 <= s -> Zdigits2 m <= A -> Zdigits2 (m * 2 ^ s) <= A + s.
Proof.
  intros Hm Hs HA. pose proof (Zdigits2_lt m ltac:(plia)) as Hlt.
  pose proof (Zdigits2_nonneg m ltac:(plia)) as Hd.
  apply Zdigits2_le; [| plia]. split; [pose proof (pow2_pos s Hs); nia |].
  rewrite Z.pow_add_r by plia.
  assert (2 ^ Zdigits2 m <= 2 ^ A) by (apply Z.pow_le_mono_r; plia).
  pose proof (pow2_pos s Hs). nia.
Qed.

Lemma binary_round_ge (sx : bool) (mx : positive) (ex k : Z) :
  1 <= k <= 2 ^ 53 -> k <= vfloor (Z.pos mx) ex ->
  match binary_round prec emax sx mx ex with
  | S754_infinity s => s = sx
  | S754_finite s m e => s = sx /\ k <= vfloor (Z.pos m) e
  | _ => False
  end.
Proof.
  intros Hk Hge. unfold binary_round.
  pose proof (shl_align_spec mx ex (fexp prec emax (Z.pos (digits2_pos mx) + ex))) as [He Hm].
  destruct (shl_align mx ex (fexp prec emax (Z.pos (digits2_pos mx) + ex))) as [mz ez].
  cbn [fst snd] in He, Hm.
  apply binary_round_aux_ge; [plia | exact Hk |].
  rewrite Hm, <- He, vfloor_shift by plia. exact Hge.
Qed.

Lemma binary_round_finite (sx : bool) (mx : positive) (ex B : Z) :
  -1074 <= B <= 970 -> ex <= B -> Z.pos (digits2_pos mx) + ex <= B + 53 ->
  match binary_round prec emax sx mx ex with
  | S754_zero s => s = sx
  | S754_finite s m e => s = sx /\ e <= B + 1
  | _ => False
  end.
Proof.
  intros HB Hex Hdg. unfold binary_round.
  pose proof (shl_align_spec mx ex (fexp prec emax (Z.pos (digits2_pos mx) + ex))) as [He Hm].
  destruct (shl_align mx ex (fexp prec emax (Z.pos (digits2_pos mx) + ex))) as [mz ez].
  cbn [fst snd] in He, Hm.
  apply binary_round_aux_finite; [plia | exact HB | plia |].
  rewrite Hm.
  pose proof (Zdigits2_shift (Z.pos mx) (ex - ez) (Z.pos (digits2_pos mx)) ltac:(plia) ltac:(plia)
                             ltac:(reflexivity)) as Hs.
  rewrite <- He. plia.
Qed.

Lemma Zdigits2_abs (m : Z) : Zdigits2 m = Zdigits2 (Z.abs m).
Proof. destruct m; reflexivity. Qed.

Lemma binary_normalize_ge (m e k : Z) :
  1 <= k <= 2 ^ 53 -> k <= vfloor m e ->
  match binary_normalize prec emax m e false with
  | S754_infinity s => s = false
  | S754_finite s m' e' => s = false /\ k <= vfloor (Z.pos m') e'
  | _ => False
  end.
Proof.
  intros Hk Hge. destruct m as [| p | p].
  - rewrite vfloor_0 in Hge. plia.
  - apply binary_round_ge; assumption.
  - exfalso. assert (vfloor (Z.neg p) e <= vfloor 0 e) by (apply vfloor_mono; plia).
    rewrite vfloor_0 in *. plia.
Qed.

Lemma binary_normalize_finite (m e B : Z) (sz : bool) :
  -1074 <= B <= 970 -> e <= B -> Zdigits2 m + e <= B + 53 ->
  finite_sf (B + 1) (binary_normalize prec emax m e sz).
Proof.
  intros HB He Hdg. destruct m as [| p | p]; cbn [binary_normalize].
  - exact I.
  - pose proof (binary_round_finite false p e B HB He Hdg) as Hr.
    destruct (binary_round prec emax false p e); simpl; tauto.
  - pose proof (binary_round_finite true p e B HB He Hdg) as Hr.
    destruct (binary_round prec emax true p e); simpl; tauto.
Qed.

Lemma vfloor_add (a b e : Z) : vfloor a e + vfloor b e <= vfloor (a + b) e.
Proof.
  unfold vfloor. destruct (0 <=? e) eqn:He; [plia |].
  apply Z.leb_gt in He. pose proof (pow2_pos (- e) ltac:(lia)) as Hp.
  apply Z.div_le_lower_bound; [exact Hp |].
  pose proof (Z.mul_div_le a (2 ^ (- e)) Hp). pose proof (Z.mul_div_le b (2 ^ (- e)) Hp). plia.
Qed.

Lemma valid_finite (s : bool) (m : positive) (e : Z) :
  valid_binary (S754_finite s m e) = true ->
  Z.pos (digits2_pos m) <= 53 /\ -1074 <= e <= 971.
Proof.
  unfold SpecFloat.valid_binary, bounded, canonical_mantissa. intros Hv.
  apply andb_true_iff in Hv as [Hc Hb]. apply Z.eqb_eq in Hc. apply Z.leb_le in Hb.
  rewrite fexp64 in Hc. change (emax - prec) with 971 in Hb. lia.
Qed.

Lemma mantissa_lt (s : bool) (m : positive) (e : Z) :
  valid_binary (S754_finite s m e) = true -> Z.pos m < 2 ^ 53.
Proof.
  intros Hv. apply valid_finite in Hv as [Hd _].
  pose proof (digits2_pos_bounds m) as [_ Hlt].
  assert (2 ^ Z.pos (digits2_pos m) <= 2 ^ 53) by (apply Z.pow_le_mono_r; lia). lia.
Qed.

(** The aligned mantissas of an addition or a subtraction. *)
Lemma aligned_mantissa (s : bool) (m : positive) (e ez B : Z) :
  valid_binary (S754_finite s m e) = true -> e <= B -> ez <= e ->
  Z.pos (fst (shl_align m e ez)) = Z.pos m * 2 ^ (e - ez) /\
  Z.pos (fst (shl_align m e ez)) < 2 ^ (B + 53 - ez).
Proof.
  intros Hv He Hez. pose proof (shl_align_spec m e ez) as [_ Hm].
  rewrite Z.min_r in Hm by exact Hez. split; [exact Hm |]. rewrite Hm.
  pose proof (mantissa_lt s m e Hv) as Hlt.
  replace (B + 53 - ez) with (53 + (B - e) + (e - ez)) by lia.
  rewrite !Z.pow_add_r by lia.
  pose proof (pow2_pos (e - ez) ltac:(lia)). pose proof (pow2_pos (B - e) ltac:(lia)).
  assert (Z.pos m * 2 ^ (e - ez) < 2 ^ 53 * 2 ^ (e - ez)) by (apply Z.mul_lt_mono_pos_r; lia).
  assert (2 ^ 53 * 2 ^ (e - ez) <= 2 ^ 53 * 2 ^ (B - e) * 2 ^ (e - ez)).
  { apply Z.mul_le_mono_nonneg_r; [lia |].
    replace (2 ^ 53) with (2 ^ 53 * 1) at 1 by lia. apply Z.mul_le_mono_nonneg_l; lia. }
  lia.
Qed.

Lemma sum_digits (a b ez B : Z) :
  Z.abs a < 2 ^ (B + 53 - ez) -> Z.abs b < 2 ^ (B + 53 - ez) -> ez <= B ->
  Zdigits2 (a + b) + ez <= B + 54 /\ Zdigits2 (a - b) + ez <= B + 54.
Proof.
  intros Ha Hb Hez.
  assert (Hpow : 2 ^ (B + 54 - ez) = 2 * 2 ^ (B + 53 - ez)).
  { replace (B + 54 - ez) with (Z.succ (B + 53 - ez)) by lia. apply Z.pow_succ_r. lia. }
  split; rewrite Zdigits2_abs.
  - assert (Zdigits2 (Z.abs (a + b)) <= B + 54 - ez); [| lia].
    apply Zdigits2_le; [| lia]. rewrite Hpow. plia.
  - assert (Zdigits2 (Z.abs (a - b)) <= B + 54 - ez); [| lia].
    apply Zdigits2_le; [| lia]. rewrite Hpow. plia.
Qed.

Lemma abs_cond_Zopp (s : bool) (m : Z) : Z.abs (cond_Zopp s m) = Z.abs m.
Proof. destruct s; simpl; lia. Qed.

Lemma SFsub_finite (x y : spec_float) (B : Z) :
  valid_binary x = true -> valid_binary y = true ->
  finite_sf B x -> finite_sf B y -> -1074 <= B -> B + 53 <= 970 ->
  finite_sf (B + 54) (SF64sub x y).
Proof.
  intros Hvx Hvy Hx Hy HB1 HB2.
  destruct x as [sx | sx | | sx mx ex]; try contradiction;
    destruct y as [sy | sy | | sy my ey]; try contradiction; cbn [finite_sf] in *.
  - unfold SF64sub, SFsub. destruct sx, sy; exact I.
  - simpl. lia.
  - simpl. lia.
  - unfold SF64sub, SFsub. set (ez := Z.min ex ey).
    destruct (aligned_mantissa sx mx ex ez B Hvx Hx ltac:(lia)) as [_ Hax].
    destruct (aligned_mantissa sy my ey ez B Hvy Hy ltac:(lia)) as [_ Hay].
    pose proof (sum_digits (cond_Zopp sx (Z.pos (fst (shl_align mx ex ez))))
                           (cond_Zopp sy (Z.pos (fst (shl_align my ey ez)))) ez B) as Hd.
    rewrite !abs_cond_Zopp in Hd. specialize (Hd ltac:(lia) ltac:(lia) ltac:(lia)).
    replace (B + 54) with (B + 53 + 1) by lia.
    apply binary_normalize_finite; lia.
Qed.

(** Adding two positive numbers, the second at least 1, passes the next
    integer. *)
Lemma SFadd_progress (mx my : positive) (ex ey k : Z) :
  0 <= k -> k + 1 <= 2 ^ 53 ->
  k <= vfloor (Z.pos mx) ex -> 1 <= vfloor (Z.pos my) ey ->
  match SF64add (S754_finite false mx ex) (S754_finite false my ey) with
  | S754_infinity s => s = false
  | S754_finite s m e => s = false /\ k + 1 <= vfloor (Z.pos m) e
  | _ => False
  end.
Proof.
  intros Hk0 Hk Hx Hy. unfold SF64add, SFadd. set (ez := Z.min ex ey). cbn [cond_Zopp].
  apply binary_normalize_ge; [lia |].
  pose proof (shl_align_spec mx ex ez) as [_ Hmx]. pose proof (shl_align_spec my ey ez) as [_ Hmy].
  rewrite Z.min_r in Hmx, Hmy by lia. rewrite Hmx, Hmy.
  apply Z.le_trans with (2 := vfloor_add _ _ _).
  rewrite !vfloor_shift by lia. lia.
Qed.

(** Halving: the quotient by [2.0 = 2^52 * 2^-51]. *)
Lemma SFdiv_two_finite (x : spec_float) (B : Z) :
  valid_binary x = true -> finite_sf B x -> -1074 <= B -> B + 51 <= 970 ->
  finite_sf (B + 52) (SF64div x (S754_finite false 4503599627370496 (-51))).
Proof.
  intros Hv Hx HB1 HB2.
  destruct x as [sx | sx | | sx mx ex]; try contradiction; cbn [finite_sf] in *; [exact I |].
  unfold SF64div, SFdiv, SFdiv_core_binary.
  change (Zdigits2 4503599627370496) with 53.
  set (e' := Z.min (fexp prec emax (Zdigits2 (Z.pos mx) + ex - (53 + -51))) (ex - -51)).
  set (s := ex - -51 - e').
  set (m' := match s with Z.pos _ => Z.shiftl (Z.pos mx) s | 0 => Z.pos mx | Z.neg _ => 0 end).
  assert (Hs : 0 <= s) by (unfold s, e'; lia).
  assert (Hm' : m' = Z.pos mx * 2 ^ s).
  { unfold m'. destruct s as [| p | p]; [simpl; lia | | lia].
    rewrite Z.shiftl_mul_pow2 by lia. reflexivity. }
  pose proof (mantissa_lt sx mx ex Hv) as Hlt.
  pose proof (pow2_pos s Hs) as Hps.
  assert (Hm'0 : 0 <= m') by (rewrite Hm'; lia).
  assert (Hm'lt : m' < 2 ^ (53 + s)).
  { rewrite Hm', Z.pow_add_r by lia. apply Z.mul_lt_mono_pos_r; lia. }
  destruct (Z.div_eucl m' 4503599627370496) as [q r] eqn:Hdiv.
  assert (Hq : q = m' / 4503599627370496) by (unfold Z.div; rewrite Hdiv; reflexivity).
  assert (Hq0 : 0 <= q) by (rewrite Hq; apply Z.div_pos; lia).
  assert (Hqle : q <= m').
  { rewrite Hq. apply Z.div_le_upper_bound; lia. }
  assert (Hdq : Zdigits2 q <= 53 + s) by (apply Zdigits2_le; lia).
  pose proof (binary_round_aux_finite (xorb sx false) q e'
                (new_location 4503599627370496 r) (B + 51) Hq0 ltac:(lia)
                ltac:(unfold e'; lia) ltac:(unfold s in *; lia)) as Hr.
  replace (B + 52) with (B + 51 + 1) by lia.
  destruct (binary_round_aux prec emax (xorb sx false) q e' (new_location 4503599627370496 r));
    simpl; tauto.
Qed.

(** *** Exact cases: no bit is lost *)

Lemma shr_1_exact (mrs : shr_record) (j : Z) :
  0 <= j -> shr_r mrs = false -> shr_s mrs = false -> 0 <= shr_m mrs ->
  (2 ^ (1 + j) | shr_m mrs) ->
  shr_r (shr_1 mrs) = false /\ shr_s (shr_1 mrs) = false /\
  0 <= shr_m (shr_1 mrs) /\ (2 ^ j | shr_m (shr_1 mrs)).
Proof.
  intros Hj Hr Hs Hm [c Hc]. pose proof (shr_1_m mrs Hm) as Hhalf.
  rewrite Z.pow_add_r, Z.pow_1_r in Hc by lia.
  assert (Heven : shr_m mrs = 2 * (c * 2 ^ j)) by lia.
  assert (Hm' : shr_m (shr_1 mrs) = c * 2 ^ j).
  { rewrite Hhalf, Heven, Z.mul_comm. apply Z.div_mul. lia. }
  split; [| split; [| split; [rewrite Hhalf; apply Z.div_pos; lia | exists c; exact Hm']]].
  - destruct mrs as [m r s]. cbn [shr_m shr_r shr_s] in *. subst r s.
    pose proof (pow2_pos j Hj) as Hpj.
    destruct m as [| [p | p |] | p]; cbn [shr_1 shr_r]; try reflexivity; exfalso; plia.
  - destruct mrs as [m r s]. cbn [shr_m shr_r shr_s] in *. subst r s.
    destruct m as [| [p | p |] | [p | p |]]; reflexivity.
Qed.

Lemma iter_pos_shr_exact (p : positive) :
  forall (mrs : shr_record) (j : Z),
    0 <= j -> shr_r mrs = false -> shr_s mrs = false -> 0 <= shr_m mrs ->
    (2 ^ (Z.pos p + j) | shr_m mrs) ->
    shr_r (iter_pos shr_1 p mrs) = false /\ shr_s (iter_pos shr_1 p mrs) = false /\
    0 <= shr_m (iter_pos shr_1 p mrs) /\ (2 ^ j | shr_m (iter_pos shr_1 p mrs)).
Proof.
  induction p as [p IH | p IH |]; intros mrs j Hj Hr Hs Hm Hdiv; cbn [iter_pos].
  - rewrite (Pos2Z.inj_xI p) in Hdiv.
    replace (2 * Z.pos p + 1 + j) with (1 + (Z.pos p + (Z.pos p + j))) in Hdiv by ring.
    destruct (shr_1_exact mrs (Z.pos p + (Z.pos p + j)) ltac:(lia) Hr Hs Hm Hdiv)
      as (Hr1 & Hs1 & Hm1 & Hd1).
    destruct (IH _ (Z.pos p + j) ltac:(lia) Hr1 Hs1 Hm1 Hd1) as (Hr2 & Hs2 & Hm2 & Hd2).
    apply (IH _ _ Hj Hr2 Hs2 Hm2 Hd2).
  - rewrite (Pos2Z.inj_xO p) in Hdiv.
    replace (2 * Z.pos p + j) with (Z.pos p + (Z.pos p + j)) in Hdiv by ring.
    destruct (IH _ (Z.pos p + j) ltac:(lia) Hr Hs Hm Hdiv) as (Hr2 & Hs2 & Hm2 & Hd2).
    apply (IH _ _ Hj Hr2 Hs2 Hm2 Hd2).
  - apply shr_1_exact; assumption.
Qed.

Lemma shr_fexp_exact (m e : Z) :
  0 <= m -> (2 ^ nshift m e | m) ->
  loc_of_shr_record (fst (shr_fexp prec emax m e loc_Exact)) = loc_Exact.
Proof.
  intros Hm Hdiv. unfold shr_fexp, shr. unfold nshift in Hdiv.
  destruct (fexp prec emax (Zdigits2 m + e) - e) as [| p | p] eqn:Hn; cbn [fst]; try reflexivity.
  rewrite Z.max_r in Hdiv by lia.
  destruct (iter_pos_shr_exact p (shr_record_of_loc m loc_Exact) 0 ltac:(lia) eq_refl eq_refl Hm)
    as (Hr & Hs & _).
  { rewrite Z.add_0_r. exact Hdiv. }
  destruct (iter_pos shr_1 p (shr_record_of_loc m loc_Exact)) as [m2 r2 s2].
  cbn [shr_r shr_s] in Hr, Hs. subst. reflexivity.
Qed.

(** A mantissa whose shifted-out bits are all zero is not rounded. *)
Lemma binary_round_aux_exact (sx : bool) (mx ex : Z) :
  0 < mx -> (2 ^ nshift mx ex | mx) -> ex + nshift mx ex <= 971 ->
  binary_round_aux prec emax sx mx ex loc_Exact
  = S754_finite sx (Z.to_pos (mx / 2 ^ nshift mx ex)) (ex + nshift mx ex).
Proof.
  intros Hm Hdiv He.
  destruct (binary_round_aux_spec sx mx ex loc_Exact ltac:(lia)) as (m1 & Hm1 & _ & ->).
  rewrite shr_fexp_exact in Hm1 by (try lia; exact Hdiv). cbn [round_nearest_even] in Hm1.
  pose proof (nshift_div_lt mx ex ltac:(lia)) as Hlt.
  assert (Hpos : 0 < mx / 2 ^ nshift mx ex).
  { destruct Hdiv as [c Hc]. assert (Hn : 0 <= nshift mx ex) by (unfold nshift; lia).
    pose proof (pow2_pos _ Hn). rewrite Hc at 1. rewrite Z.div_mul by lia. nia. }
  subst m1.
  replace (mx / 2 ^ nshift mx ex =? 0) with false by (symmetry; apply Z.eqb_neq; lia).
  replace (mx / 2 ^ nshift mx ex <? 2 ^ 53) with true by (symmetry; apply Z.ltb_lt; lia).
  replace (ex + nshift mx ex <=? 971) with true by (symmetry; apply Z.leb_le; lia).
  reflexivity.
Qed.

(* ------------------------------------------------------------------- *)
(** *** Facts on primitive floats *)

Lemma float_of_sf (x : float) (sf : spec_float) : Prim2SF x = sf -> x = SF2Prim sf.
Proof. intros <-. symmetry. apply SF2Prim_Prim2SF. Qed.

Lemma a_zero_of_sf (x : float) (s : bool) : Prim2SF x = S754_zero s -> is_a_zero x.
Proof. intros Hx. apply float_of_sf in Hx. subst x. destruct s; [right | left]; reflexivity. Qed.

Lemma mul_zero_r (x : float) : finite x -> is_a_zero (x * zero)%float.
Proof.
  unfold finite. intros Hx. pose proof (FloatAxioms.mul_spec x zero) as Hm.
  change (Prim2SF zero) with (S754_zero false) in Hm.
  destruct (Prim2SF x) as [s | s | | s m e]; try contradiction;
    apply (a_zero_of_sf _ _ Hm).
Qed.

Lemma mul_zero_l (x : float) : finite x -> is_a_zero (zero * x)%float.
Proof.
  unfold finite. intros Hx. pose proof (FloatAxioms.mul_spec zero x) as Hm.
  change (Prim2SF zero) with (S754_zero false) in Hm.
  destruct (Prim2SF x) as [s | s | | s m e]; try contradiction;
    apply (a_zero_of_sf _ _ Hm).
Qed.

Lemma nonneg_mul_zero (x : float) :
  nonneg_finite x -> (x * zero = zero /\ x * neg_zero = neg_zero)%float.
Proof.
  unfold nonneg_finite. intros Hx.
  pose proof (FloatAxioms.mul_spec x zero) as H0. pose proof (FloatAxioms.mul_spec x neg_zero) as H1.
  change (Prim2SF zero) with (S754_zero false) in H0.
  change (Prim2SF neg_zero) with (S754_zero true) in H1.
  destruct (Prim2SF x) as [s | s | | s m e]; try contradiction; subst s;
    apply float_of_sf in H0, H1; split; assumption.
Qed.

Lemma sub_zero_r (x : float) : (x - zero)%float = x.
Proof.
  apply Prim2SF_inj. rewrite FloatAxioms.sub_spec. change (Prim2SF zero) with (S754_zero false).
  destruct (Prim2SF x) as [[] | [] | | s m e]; reflexivity.
Qed.

(** A positive number is a positive finite number or [+infinity]. *)
Lemma positive_cases (x : float) :
  (zero <? x)%float = true ->
  Prim2SF x = S754_infinity false \/ exists m e, Prim2SF x = S754_finite false m e.
Proof.
  rewrite FloatAxioms.ltb_spec. change (Prim2SF zero) with (S754_zero false). unfold SFltb, SFcompare.
  destruct (Prim2SF x) as [s | [] | | [] m e]; try discriminate; eauto.
Qed.

(** Below anything, [+infinity] is excluded. *)
Lemma ltb_not_infinity (x limit : float) :
  (x <? limit)%float = true -> Prim2SF x <> S754_infinity false.
Proof.
  rewrite FloatAxioms.ltb_spec. intros Hlt Hx. rewrite Hx in Hlt. unfold SFltb, SFcompare in Hlt.
  destruct (Prim2SF limit) as [s | [] | | [] m e]; discriminate.
Qed.

Lemma floor_value_vfloor (m : positive) (e : Z) :
  Recovery.floor_value false m e = vfloor (Z.pos m) e.
Proof. reflexivity. Qed.

Lemma floor_value_neg (m : positive) (e : Z) : Recovery.floor_value true m e < 0.
Proof.
  unfold Recovery.floor_value. cbn [cond_Zopp]. destruct (0 <=? e) eqn:He.
  - apply Z.leb_le in He. pose proof (pow2_pos e He). change (- Z.pos m) with (Z.neg m). (known_pows; hide_pow; nia).
  - apply Z.leb_gt in He. pose proof (pow2_pos (- e) ltac:(clia)).
    apply Z.div_lt_upper_bound; [clia |]. change (- Z.pos m) with (Z.neg m). clia.
Qed.

Lemma to_Z_of_Z_small (z : Z) : 0 <= z < 2 ^ 63 -> Uint63.to_Z (Uint63.of_Z z) = z.
Proof. intros Hz. rewrite Uint63.of_Z_spec. apply Z.mod_small. exact Hz. Qed.

(** Integers below [2 ^ 53] are converted exactly. *)
Lemma float_of_int_small (z : Z) :
  1 <= z < 2 ^ 53 ->
  exists f mz ez,
    Recovery.float_of_int z = Recovery.Returns f /\
    Prim2SF f = S754_finite false mz ez /\ -52 <= ez <= 0 /\ Z.pos mz = z * 2 ^ (- ez).
Proof.
  intros Hz. unfold Recovery.float_of_int, Recovery.float_of_nat_int.
  replace (0 <=? z) with true by (symmetry; apply Z.leb_le; clia).
  replace (z <? 2 ^ 63) with true by (symmetry; apply Z.ltb_lt; clia).
  exists (of_uint63 (Uint63.of_Z z)). rewrite of_uint63_spec, to_Z_of_Z_small by clia.
  destruct z as [| p | p]; try clia. cbn [binary_normalize]. unfold binary_round.
  pose proof (Zdigits2_le (Z.pos p) 53 ltac:(clia) ltac:(clia)) as Hd. cbn [Zdigits2] in Hd.
  pose proof (shl_align_spec p 0 (fexp prec emax (Z.pos (digits2_pos p) + 0))) as [He Hm].
  destruct (shl_align p 0 (fexp prec emax (Z.pos (digits2_pos p) + 0))) as [mz ez].
  cbn [fst snd] in He, Hm. rewrite fexp64 in He, Hm.
  assert (Hez : ez = Z.pos (digits2_pos p) + 0 - 53) by clia.
  rewrite <- He in Hm.
  assert (Hdz : Zdigits2 (Z.pos mz) <= 53).
  { rewrite Hm.
    pose proof (Zdigits2_shift (Z.pos p) (0 - ez) (Z.pos (digits2_pos p)) ltac:(clia) ltac:(clia)
                               ltac:(reflexivity)). clia. }
  assert (Hn : nshift (Z.pos mz) ez = 0) by (unfold nshift; rewrite fexp64; clia).
  rewrite binary_round_aux_exact; rewrite ?Hn; [| clia | exists (Z.pos mz); simpl; clia | clia].
  rewrite Z.pow_0_r, Z.div_1_r, Z.add_0_r, Pos2Z.id.
  exists mz, ez. split; [reflexivity |]. split; [reflexivity |]. split; [clia |].
  rewrite Hm, Z.sub_0_l. reflexivity.
Qed.

Lemma float_of_nat_int_floor (m : positive) (e : Z) :
  valid_binary (S754_finite false m e) = true -> 0 <= e ->
  exists f, Recovery.float_of_nat_int (Z.pos m * 2 ^ e) = Recovery.Returns f.
Proof.
  intros Hv He. unfold Recovery.float_of_nat_int.
  destruct (Z.pos m * 2 ^ e <? 2 ^ 63) eqn:Hsmall; [eexists; reflexivity |].
  apply Z.ltb_ge in Hsmall. pose proof (pow2_pos e He) as Hpe.
  destruct (Z.pos m * 2 ^ e) as [| p | p] eqn:Hp; try clia.
  cbn [binary_normalize]. unfold binary_round.
  apply valid_finite in Hv as [Hdm Hev].
  pose proof (Zdigits2_shift (Z.pos m) e (Z.pos (digits2_pos m)) ltac:(clia) He
                             ltac:(reflexivity)) as Hdp.
  rewrite Hp in Hdp. cbn [Zdigits2] in Hdp.
  assert (Hd64 : 64 <= Z.pos (digits2_pos p)).
  { pose proof (digits2_pos_bounds p) as [_ Hlt].
    destruct (Z_le_gt_dec 64 (Z.pos (digits2_pos p))) as [Hok | Hbad]; [exact Hok | exfalso].
    assert (2 ^ Z.pos (digits2_pos p) <= 2 ^ 63) by (apply Z.pow_le_mono_r; clia). clia. }
  pose proof (shl_align_spec p 0 (fexp prec emax (Z.pos (digits2_pos p) + 0))) as [Hez Hm].
  destruct (shl_align p 0 (fexp prec emax (Z.pos (digits2_pos p) + 0))) as [mz ez].
  cbn [fst snd] in Hez, Hm. rewrite fexp64 in Hez.
  assert (Hez0 : ez = 0) by clia. clear Hez. subst ez.
  rewrite Z.min_l in Hm by (rewrite fexp64; clia).
  rewrite Z.sub_diag, Z.pow_0_r, Z.mul_1_r in Hm. rewrite Hm.
  assert (Hn : nshift (Z.pos p) 0 = Z.pos (digits2_pos p) - 53)
    by (unfold nshift; rewrite fexp64; cbn [Zdigits2]; clia).
  rewrite binary_round_aux_exact; rewrite ?Hn; [eexists; reflexivity | clia | | clia].
  exists (Z.pos m * 2 ^ (e - (Z.pos (digits2_pos p) - 53))).
  rewrite <- Z.mul_assoc, <- Z.pow_add_r by clia. rewrite <- Hp. f_equal. f_equal. clia.
Qed.

(** The floor of a double converts back to a double. *)
Lemma float_of_int_floor (s : bool) (m : positive) (e : Z) :
  valid_binary (S754_finite s m e) = true ->
  exists f, Recovery.float_of_int (Recovery.floor_value s m e) = Recovery.Returns f.
Proof.
  intros Hv. pose proof (mantissa_lt s m e Hv) as Hlt.
  assert (Hv' : valid_binary (S754_finite false m e) = true) by exact Hv.
  unfold Recovery.float_of_int, Recovery.floor_value.
  destruct (0 <=? e) eqn:He.
  - apply Z.leb_le in He. pose proof (pow2_pos e He) as Hpe.
    destruct (float_of_nat_int_floor m e Hv' He) as [f Hf].
    destruct s; cbn [cond_Zopp].
    + replace (0 <=? - Z.pos m * 2 ^ e) with false by (symmetry; apply Z.leb_gt; (known_pows; hide_pow; nia)).
      replace (- (- Z.pos m * 2 ^ e)) with (Z.pos m * 2 ^ e) by ring.
      rewrite Hf. eexists; reflexivity.
    + replace (0 <=? Z.pos m * 2 ^ e) with true by (symmetry; apply Z.leb_le; (known_pows; hide_pow; nia)).
      exists f. exact Hf.
  - apply Z.leb_gt in He. pose proof (pow2_pos (- e) ltac:(clia)) as Hpe.
    set (q := cond_Zopp s (Z.pos m) / 2 ^ (- e)).
    assert (Hq : - 2 ^ 53 <= q < 2 ^ 53).
    { unfold q. split.
      - apply Z.div_le_lower_bound; [clia |]. destruct s; cbn [cond_Zopp]; (known_pows; hide_pow; nia).
      - apply Z.div_lt_upper_bound; [clia |]. destruct s; cbn [cond_Zopp]; (known_pows; hide_pow; nia). }
    unfold Recovery.float_of_nat_int.
    destruct (0 <=? q) eqn:Hq0.
    + replace (q <? 2 ^ 63) with true by (symmetry; apply Z.ltb_lt; clia). eexists; reflexivity.
    + replace (- q <? 2 ^ 63) with true by (symmetry; apply Z.ltb_lt; clia). eexists; reflexivity.
Qed.

Lemma exponent_of_floor (m : positive) (e : Z) : vfloor (Z.pos m) e < 2 ^ 53 -> e <= 52.
Proof.
  unfold vfloor. intros Hlt. destruct (Z_le_gt_dec e 52) as [Hok | Hbig]; [exact Hok | exfalso].
  replace (0 <=? e) with true in Hlt by (symmetry; apply Z.leb_le; lia).
  assert (2 ^ 53 <= 2 ^ e) by (apply Z.pow_le_mono_r; lia).
  pose proof (pow2_pos e ltac:(lia)). clear Hbig.
  assert (2 ^ e <= Z.pos m * 2 ^ e) by (hide_pow; nia). lia.
Qed.

Lemma binary_normalize_nonneg (m e B : Z) :
  0 <= m -> -1074 <= B <= 970 -> e <= B -> Zdigits2 m + e <= B + 53 ->
  match binary_normalize prec emax m e false with
  | S754_zero s => s = false
  | S754_finite s _ _ => s = false
  | _ => False
  end.
Proof.
  intros Hm HB He Hd. destruct m as [| p | p]; [reflexivity | | lia]. cbn [binary_normalize].
  pose proof (binary_round_finite false p e B HB He Hd) as Hr.
  destruct (binary_round prec emax false p e); tauto.
Qed.

(** The fractional part [x - floor(x)] of a double below [2 ^ 53] is a
    non-negative finite double. *)
Lemma frac_nonneg_finite (x f : float) (m : positive) (e : Z) :
  Prim2SF x = S754_finite false m e ->
  1 <= vfloor (Z.pos m) e < 2 ^ 53 ->
  Recovery.float_of_int (vfloor (Z.pos m) e) = Recovery.Returns f ->
  nonneg_finite (x - f)%float.
Proof.
  intros Hx Hidx Hf. set (idx := vfloor (Z.pos m) e) in *.
  destruct (float_of_int_small idx Hidx) as (f' & mz & ez & Hf' & Hsf & Hez & Hmz).
  rewrite Hf in Hf'. injection Hf' as <-.
  pose proof (Prim2SF_valid x) as Hvx. rewrite Hx in Hvx.
  pose proof (Prim2SF_valid f) as Hvf. rewrite Hsf in Hvf.
  pose proof (exponent_of_floor m e ltac:(fold idx; lia)) as He52.
  unfold nonneg_finite. rewrite FloatAxioms.sub_spec, Hx, Hsf.
  unfold SF64sub, SFsub. cbn [cond_Zopp]. set (e0 := Z.min e ez).
  destruct (aligned_mantissa false m e e0 52 Hvx He52 ltac:(lia)) as [Hax Hbx].
  destruct (aligned_mantissa false mz ez e0 52 Hvf ltac:(lia) ltac:(lia)) as [Hay _].
  assert (He0 : e0 <= 0) by lia.
  assert (Hge : Z.pos (fst (shl_align mz ez e0)) <= Z.pos (fst (shl_align m e e0))).
  { rewrite Hax, Hay, Hmz.
    assert (Hk : idx <= vfloor (Z.pos m * 2 ^ (e - e0)) e0) by (rewrite vfloor_shift by lia; lia).
    apply vfloor_ge in Hk.
    rewrite <- Z.mul_assoc, <- Z.pow_add_r by lia. replace (- ez + (ez - e0)) with (- e0) by lia.
    destruct (0 <=? e0) eqn:Hz; [| exact Hk].
    apply Z.leb_le in Hz. replace e0 with 0 in * by lia. simpl in Hk. simpl. lia. }
  apply (binary_normalize_nonneg _ e0 60); try lia.
  assert (Zdigits2 (Z.pos (fst (shl_align m e e0)) - Z.pos (fst (shl_align mz ez e0)))
          <= 52 + 53 - e0); [| lia].
  apply Zdigits2_le; lia.
Qed.

Lemma finite_sf_finite (x : float) (B : Z) : finite_sf B (Prim2SF x) -> finite x.
Proof. unfold finite. destruct (Prim2SF x); simpl; tauto. Qed.

(** The half-sample position [i_in - samples_per_symbol / 2] is finite. *)
Lemma half_finite (x y : float) : small_positive x -> small_positive y ->
  finite (x - y / two)%float.
Proof.
  intros (mx & ex & Hx & Hfx) (my & ey & Hy & Hfy).
  pose proof (exponent_of_floor mx ex ltac:(lia)) as Hex.
  pose proof (exponent_of_floor my ey ltac:(lia)) as Hey.
  pose proof (Prim2SF_valid x) as Hvx. pose proof (Prim2SF_valid y) as Hvy.
  pose proof (Prim2SF_valid (y / two)%float) as Hvd.
  assert (Hd : finite_sf 104 (Prim2SF (y / two)%float)).
  { rewrite FloatAxioms.div_spec. change (Prim2SF two) with (S754_finite false 4503599627370496 (-51)).
    apply (SFdiv_two_finite _ 52); try lia; [exact Hvy |]. rewrite Hy. exact Hey. }
  apply (finite_sf_finite _ (104 + 54)). rewrite FloatAxioms.sub_spec.
  apply SFsub_finite; try lia; try assumption. rewrite Hx. simpl. lia.
Qed.

(** One more symbol period moves past the next sample index. *)
Lemma add_progress (x y : float) (mx : positive) (ex k : Z) :
  Prim2SF x = S754_finite false mx ex -> 0 <= k -> k + 1 <= 2 ^ 53 ->
  k <= vfloor (Z.pos mx) ex -> small_positive y ->
  Prim2SF (x + y)%float = S754_infinity false \/
  exists m e, Prim2SF (x + y)%float = S754_finite false m e /\ k + 1 <= vfloor (Z.pos m) e.
Proof.
  intros Hx Hk0 Hk Hge (my & ey & Hy & Hfy).
  pose proof (SFadd_progress mx my ex ey k Hk0 Hk Hge ltac:(lia)) as Hadd.
  rewrite FloatAxioms.add_spec, Hx, Hy.
  destruct (SF64add (S754_finite false mx ex) (S754_finite false my ey)) as [s | s | | s m e];
    try contradiction.
  - left. f_equal. exact Hadd.
  - right. destruct Hadd as [-> Hm]. eauto.
Qed.

Lemma float_of_int_bounded (z : Z) :
  - 2 ^ 63 < z < 2 ^ 63 -> exists f, Recovery.float_of_int z = Recovery.Returns f /\ finite f.
Proof.
  intros Hz.
  assert (Hnat : forall n, finite (of_uint63 n)).
  { intros n. apply (finite_sf_finite _ (10 + 1)). rewrite of_uint63_spec.
    pose proof (Uint63.to_Z_bounded n) as Hb. change wB with (2 ^ 63) in Hb.
    apply binary_normalize_finite; try lia.
    assert (Zdigits2 (Uint63.to_Z n) <= 63) by (apply Zdigits2_le; lia). lia. }
  unfold Recovery.float_of_int, Recovery.float_of_nat_int. destruct (0 <=? z) eqn:Hs.
  - replace (z <? 2 ^ 63) with true by (symmetry; apply Z.ltb_lt; lia).
    eexists. split; [reflexivity | apply Hnat].
  - replace (- z <? 2 ^ 63) with true by (symmetry; apply Z.ltb_lt; lia).
    eexists. split; [reflexivity |]. unfold finite. rewrite FloatAxioms.opp_spec.
    specialize (Hnat (Uint63.of_Z (- z))). unfold finite in Hnat.
    destruct (Prim2SF (of_uint63 (Uint63.of_Z (- z)))); simpl; tauto.
Qed.

(** Linear interpolation between two zero samples is [+0 + 0j]. *)
Lemma interp_zero (b0 b1 : Recovery.complex) (frac : float) :
  zero_sample b0 -> zero_sample b1 -> nonneg_finite frac ->
  Recovery.cadd b0 (Recovery.cmul (Recovery.of_real frac) (Recovery.csub b1 b0)) = (zero, zero).
Proof.
  intros [Hr0 Hi0] [Hr1 Hi1] Hfrac. destruct (nonneg_mul_zero frac Hfrac) as [Hp Hn].
  destruct b0 as [r0 i0], b1 as [r1 i1]. cbn [fst snd] in *.
  vm_compute in Hp, Hn.
  destruct Hr0 as [-> | ->], Hi0 as [-> | ->], Hr1 as [-> | ->], Hi1 as [-> | ->];
    vm_compute; rewrite ?Hp, ?Hn; reflexivity.
Qed.

Lemma item_zero (baseband : list Recovery.complex) (i : Z) :
  Forall zero_sample baseband -> zero_sample (Recovery.item baseband i).
Proof.
  intros Hall. unfold Recovery.item.
  destruct (nth_in_or_default (Z.to_nat i) baseband (zero, zero)) as [Hin | ->].
  - rewrite Forall_forall in Hall. apply Hall, Hin.
  - split; left; reflexivity.
Qed.

Lemma finite_mul_zero (x : float) : finite x -> (x * zero + zero = zero)%float.
Proof.
  intros Hx. apply mul_zero_r in Hx. destruct Hx as [-> | ->]; reflexivity.
Qed.

Lemma last_zero (l : list Recovery.complex) :
  Forall (eq (zero, zero)) l -> last l (zero, zero) = (zero, zero).
Proof.
  induction 1 as [| x l Hx Hl IH]; [reflexivity |]. cbn [last]. destruct l; [symmetry; exact Hx | exact IH].
Qed.

Lemma cmul_exp_zero (lib : Recovery.Libm) :
  exp_of_zero lib ->
  Recovery.cmul (zero, zero)
    (Recovery.np_exp lib (Recovery.cmul (neg_zero, (-1)%float) (Recovery.of_real zero)))
  = (zero, zero).
Proof.
  intros Hexp.
  destruct (Hexp (Recovery.cmul (neg_zero, (-1)%float) (Recovery.of_real zero))) as [H1 H2];
    [split; [left | right]; reflexivity |].
  destruct (Recovery.np_exp lib _) as [a b]. cbn [fst snd] in *. subst a.
  destruct H2 as [-> | ->]; reflexivity.
Qed.

Lemma zero_add_mul (x : float) : finite x -> (zero + x * zero = zero)%float.
Proof.
  intros Hx. apply mul_zero_r in Hx. destruct Hx as [-> | ->]; reflexivity.
Qed.

Section ZeroInput.
Variable lib : Recovery.Libm.
Variable baseband : list Recovery.complex.
Variable sps : float.
Variable sample_rate : Z.
Variable gains : Recovery.Gains.
Hypothesis Hexp : exp_of_zero lib.
Hypothesis Hatan : arctan2_of_zero lib.
Hypothesis Hzeros : Forall zero_sample baseband.
Hypothesis Hlen : Recovery.signal_len baseband < 2 ^ 53.
Hypothesis Hrate : - 2 ^ 63 < sample_rate < 2 ^ 63.
Hypothesis Hgains : finite_gains gains.

Lemma body_zero (k : Z) (s : Recovery.state) :
  zero_state sps k s -> 0 <= k -> Prim2SF (Recovery.i_in s) <> S754_infinity false ->
  Recovery.body lib baseband sps sample_rate gains s = Recovery.Returns None \/
  exists s', Recovery.body lib baseband sps sample_rate gains s = Recovery.Returns (Some s') /\
             zero_state sps (k + 1) s' /\ k + 1 < Recovery.signal_len baseband.
Proof.
  intros (Hph & Hfr & Hic & Hte & Hit & Hsym & Hnco & Htes & Hpos & Hsps) Hk Hinf.
  destruct Hpos as [Hpos | (m & e & Hx & Hfloor)]; [contradiction |].
  pose proof (Prim2SF_valid (Recovery.i_in s)) as Hv. rewrite Hx in Hv.
  destruct (float_of_int_floor false m e Hv) as [idx_f Hidx_f].
  unfold Recovery.body, Recovery.floor_int. rewrite Hx. cbn [Recovery.bind].
  rewrite Hidx_f. cbn [Recovery.bind]. rewrite floor_value_vfloor in *.
  set (idx := vfloor (Z.pos m) e) in *.
  destruct ((idx <? 1) || (Recovery.signal_len baseband <=? idx + 1)) eqn:Hbreak; [left; reflexivity |].
  apply orb_false_iff in Hbreak as [Hlo Hhi]. apply Z.ltb_ge in Hlo. apply Z.leb_gt in Hhi.
  assert (Hsmall : small_positive (Recovery.i_in s)) by (exists m, e; fold idx; split; [exact Hx | lia]).
  assert (Hsps' : small_positive sps) by (destruct Hsps as [<- | Hs]; assumption).
  pose proof (frac_nonneg_finite _ idx_f m e Hx ltac:(fold idx; lia) Hidx_f) as Hfrac.
  rewrite (interp_zero _ _ _ (item_zero baseband idx Hzeros) (item_zero baseband (idx + 1) Hzeros) Hfrac).
  pose proof (half_finite _ _ Hsmall Hsps') as Hhalf. unfold finite in Hhalf.
  pose proof (Prim2SF_valid (Recovery.i_in s - sps / two)%float) as Hvh.
  destruct (Prim2SF (Recovery.i_in s - sps / two)%float) as [sh | sh | | sh mh eh] eqn:Hh;
    try contradiction; cbn [Recovery.bind].
  { left. replace (Recovery.float_of_int 0) with (Recovery.Returns zero) by (vm_compute; reflexivity).
    reflexivity. }
  destruct (float_of_int_floor sh mh eh Hvh) as [hidx_f Hhidx_f]. rewrite Hhidx_f. cbn [Recovery.bind].
  destruct ((Recovery.floor_value sh mh eh <? 1)
            || (Recovery.signal_len baseband <=? Recovery.floor_value sh mh eh + 1)) eqn:Hbreak;
    [left; reflexivity |].
  apply orb_false_iff in Hbreak as [Hlo' Hhi']. apply Z.ltb_ge in Hlo'. apply Z.leb_gt in Hhi'.
  destruct sh; [pose proof (floor_value_neg mh eh); lia |].
  rewrite floor_value_vfloor in *.
  pose proof (frac_nonneg_finite _ hidx_f mh eh Hh ltac:(lia) Hhidx_f) as Hhfrac.
  rewrite (interp_zero _ _ _ (item_zero baseband _ Hzeros) (item_zero baseband _ Hzeros) Hhfrac).
  rewrite Hph, Hfr, Hic, Hte, Hit.
  rewrite (cmul_exp_zero lib Hexp), (last_zero _ Hsym). cbn [Recovery.real Recovery.imag fst snd].
  rewrite Hatan.
  set (te := match Recovery.out_symbols s with [] => _ | _ :: _ => _ end).
  assert (Hte' : te = zero) by (subst te; destruct (Recovery.out_symbols s); reflexivity).
  rewrite Hte'. clear te Hte'.
  destruct Hgains as (Hkc & Hki & Hkt & Hkit).
  rewrite (zero_add_mul _ Hkit), (zero_add_mul _ Hki), (finite_mul_zero _ Hkt), (finite_mul_zero _ Hkc).
  rewrite sub_zero_r. change (zero + zero)%float with zero.
  destruct (float_of_int_bounded sample_rate Hrate) as (rate_f & Hrate_f & Hfin).
  rewrite Hrate_f. cbn [Recovery.bind].
  right. eexists. split; [reflexivity |]. split; [| lia].
  unfold zero_state.
  cbn [Recovery.nco_phase Recovery.nco_freq_rad Recovery.integrator_carrier Recovery.timing_error
       Recovery.integrator_timing Recovery.out_symbols Recovery.out_nco_freq
       Recovery.out_timing_error Recovery.i_in].
  repeat match goal with |- _ /\ _ => split end; try reflexivity.
  - apply Forall_app. split; [exact Hsym | repeat constructor].
  - apply Forall_app. split; [exact Hnco |]. constructor; [| constructor].
    destruct (mul_zero_l _ Hfin) as [-> | ->]; [left | right]; reflexivity.
  - apply Forall_app. split; [exact Htes | repeat constructor].
  - destruct (add_progress _ sps m e idx Hx ltac:(lia) ltac:(lia) ltac:(fold idx; lia) Hsps')
      as [Hinf' | (m' & e' & Hx' & Hge)]; [left; exact Hinf' | right].
    exists m', e'. split; [exact Hx' | lia].
  - right. exact Hsps'.
Qed.

Lemma while_zero (limit : float) (fuel : nat) :
  forall (k : Z) (s : Recovery.state),
    zero_state sps k s -> 0 <= k -> Recovery.signal_len baseband <= k + Z.of_nat fuel ->
    (0 < fuel)%nat ->
    exists s', Recovery.while lib baseband sps sample_rate gains limit fuel s
               = Some (Recovery.Returns (Recovery.outputs s')) /\
               exists k', zero_state sps k' s'.
Proof.
  induction fuel as [| fuel IH]; intros k s Hs Hk Hfuel Hpos; [lia |].
  cbn [Recovery.while]. destruct (Recovery.i_in s <? limit)%float eqn:Hcond; [| eauto].
  apply ltb_not_infinity in Hcond.
  destruct (body_zero k s Hs Hk Hcond) as [-> | (s' & -> & Hs' & Hlt)]; [eauto |].
  apply (IH (k + 1)); [exact Hs' | lia | lia | lia].
Qed.

End ZeroInput.

Lemma recovery_of_zeros
  (lib : Recovery.Libm) (baseband : list Recovery.complex) (sps : float)
  (sample_rate : Z) (gains : Recovery.Gains) (fuel : nat) :
  exp_of_zero lib -> arctan2_of_zero lib -> finite_gains gains ->
  Forall zero_sample baseband ->
  Recovery.signal_len baseband < 2 ^ 53 ->
  - 2 ^ 63 < sample_rate < 2 ^ 63 ->
  (zero <? sps)%float = true ->
  (List.length baseband < fuel)%nat ->
  exists symbols timing nco,
    Recovery._timing_and_carrier_recovery_impl lib baseband sps sample_rate gains fuel
    = Some (Recovery.Returns (symbols, timing, nco)) /\
    Forall (eq (zero, zero)) symbols /\ Forall (eq zero) timing /\ Forall is_a_zero nco.
Proof.
  intros Hexp Hatan Hgains Hzeros Hlen Hrate Hsps Hfuel.
  unfold Recovery._timing_and_carrier_recovery_impl.
  destruct (float_of_int_bounded (Recovery.signal_len baseband)) as (len_f & -> & _).
  { unfold Recovery.signal_len in *. change (2 ^ 63) with 9223372036854775808.
    change (2 ^ 53) with 9007199254740992 in Hlen. lia. }
  assert (Hinit : zero_state sps 0 (Recovery.initial sps)).
  { unfold zero_state, Recovery.initial. cbn.
    repeat match goal with |- _ /\ _ => split end; try reflexivity; try apply Forall_nil.
    - destruct (positive_cases sps Hsps) as [Hinf | (m & e & Hx)]; [left; exact Hinf | right].
      exists m, e. split; [exact Hx |]. rewrite <- (vfloor_0 e). apply vfloor_mono. lia.
    - left. reflexivity. }
  destruct (while_zero lib baseband sps sample_rate gains Hexp Hatan Hzeros Hlen Hrate Hgains
              (len_f - sps - 1)%float fuel 0 (Recovery.initial sps) Hinit ltac:(lia))
    as (s' & Hrun & k' & Hs'); [unfold Recovery.signal_len; lia | lia |].
  exists (Recovery.out_symbols s'), (Recovery.out_timing_error s'), (Recovery.out_nco_freq s').
  split; [exact Hrun |].
  destruct Hs' as (_ & _ & _ & _ & _ & Hsym & Hnco & Hte & _). auto.
Qed.

Lemma zero_is_finite (x : float) : is_a_zero x -> finite x.
Proof. intros [-> | ->]; exact I. Qed.

(** C10: for an all-zero complex baseband input and a positive
    samples-per-symbol value the joint timing and carrier recovery loop
    terminates, none of its three outputs (symbols, timing errors, NCO
    frequencies) holds a NaN or an infinity, and the emitted NCO frequencies
    are bounded: each has absolute value at most 0.

    The input samples are zeros of either sign, [samples_per_symbol] is any
    double above 0 ([+infinity] included) and the gains are any finite
    doubles.  The run is over the environment of the loop: [np.exp] and
    [np.arctan2] are exact at zero, the array has fewer than [2 ^ 53]
    entries and [sample_rate] is a 64-bit integer.  Termination is the
    statement that every amount of fuel above the length of the input
    yields the result. *)
Theorem recovery_of_zeros_terminates_finite
  (lib : Recovery.Libm) (baseband : list Recovery.complex) (sps : float)
  (sample_rate : Z) (gains : Recovery.Gains) (fuel : nat) :
  exp_of_zero lib -> arctan2_of_zero lib -> finite_gains gains ->
  Forall zero_sample baseband ->
  Recovery.signal_len baseband < 2 ^ 53 ->
  - 2 ^ 63 < sample_rate < 2 ^ 63 ->
  (zero <? sps)%float = true ->
  (List.length baseband < fuel)%nat ->
  exists symbols timing nco,
    Recovery._timing_and_carrier_recovery_impl lib baseband sps sample_rate gains fuel
    = Some (Recovery.Returns (symbols, timing, nco)) /\
    Forall finite_complex symbols /\ Forall finite timing /\ Forall finite nco /\
    Forall (fun f => (abs f <=? zero)%float = true) nco.
Proof.
  intros Hexp Hatan Hgains Hzeros Hlen Hrate Hsps Hfuel.
  destruct (recovery_of_zeros lib baseband sps sample_rate gains fuel
              Hexp Hatan Hgains Hzeros Hlen Hrate Hsps Hfuel)
    as (symbols & timing & nco & Hrun & Hsym & Htim & Hnco).
  exists symbols, timing, nco. split; [exact Hrun |]. repeat split.
  - eapply Forall_impl; [| exact Hsym]. intros z <-. split; exact I.
  - eapply Forall_impl; [| exact Htim]. intros x <-. exact I.
  - eapply Forall_impl; [| exact Hnco]. exact zero_is_finite.
  - eapply Forall_impl; [| exact Hnco]. intros x [-> | ->]; reflexivity.
Qed.

Lemma first_order_libm_exp_of_zero : exp_of_zero first_order_libm.
Proof.
  intros [re im] [Hre Him]. cbn [fst snd] in *. split; [| exact Him].
  destruct Hre as [-> | ->]; reflexivity.
Qed.

Lemma default_gains_finite : finite_gains Recovery.default_gains.
Proof. repeat split. Qed.

Lemma silence_zero : Forall zero_sample silence.
Proof. apply Forall_forall. intros z Hz. apply repeat_spec in Hz. subst z. split; left; reflexivity. Qed.

(** On thirty samples of silence at 4.5 samples per symbol the loop emits
    five symbols; at half a sample per symbol the first index check leaves
    the loop at once. *)
Example recovery_of_silence :
  Recovery.timing_and_carrier_recovery first_order_libm silence 4.5%float 48000 31
  = Some (Recovery.Returns (repeat (zero, zero) 5, repeat zero 5, repeat zero 5)).
Proof. vm_compute. reflexivity. Qed.

Example recovery_of_silence_short_period :
  Recovery.timing_and_carrier_recovery first_order_libm silence 0.5%float 48000 1
  = Some (Recovery.Returns ([], [], [])).
Proof. vm_compute. reflexivity. Qed.

Lemma recovery_of_zeros_terminates_finite_witness :
  exp_of_zero first_order_libm /\ arctan2_of_zero first_order_libm /\
  finite_gains Recovery.default_gains /\ Forall zero_sample silence /\
  Recovery.signal_len silence < 2 ^ 53 /\ - 2 ^ 63 < 48000 < 2 ^ 63 /\
  (zero <? 4.5)%float = true /\ (List.length silence < 31)%nat /\
  exists symbols timing nco,
    Recovery._timing_and_carrier_recovery_impl
      first_order_libm silence 4.5%float 48000 Recovery.default_gains 31
    = Some (Recovery.Returns (symbols, timing, nco)) /\
    Forall finite_complex symbols /\ Forall finite timing /\ Forall finite nco /\
    Forall (fun f => (abs f <=? zero)%float = true) nco.
Proof.
  assert (H1 : exp_of_zero first_order_libm) by exact first_order_libm_exp_of_zero.
  assert (H2 : arctan2_of_zero first_order_libm) by reflexivity.
  assert (H3 : finite_gains Recovery.default_gains) by exact default_gains_finite.
  assert (H4 : Forall zero_sample silence) by exact silence_zero.
  assert (H5 : Recovery.signal_len silence < 2 ^ 53) by (vm_compute; reflexivity).
  assert (H6 : - 2 ^ 63 < 48000 < 2 ^ 63) by (split; vm_compute; reflexivity).
  assert (H7 : (zero <? 4.5)%float = true) by reflexivity.
  assert (H8 : (List.length silence < 31)%nat) by (vm_compute; lia).
  repeat (split; [assumption |]).
  exact (recovery_of_zeros_terminates_finite first_order_libm silence 4.5%float 48000
           Recovery.default_gains 31 H1 H2 H3 H4 H5 H6 H7 H8).
Defined.
